(** * Bid-request validation engine: a shallow embedding and its properties

    The development embeds [bidRequestValidator.ts] (the validation rule
    engine behind [validateBidRequest]) together with the fragment of the
    JavaScript run-time semantics the validator relies on: dynamic values,
    property reads that raise [TypeError] on [null]/[undefined], the
    coercions [ToBoolean]/[ToString]/[ToNumber], IEEE-754 binary64 numbers
    (the kernel's primitive floats), [JSON.parse]/[JSON.stringify], and a
    backtracking regular-expression matcher with capture groups and the
    [lastIndex] state of [RegExp] objects.

    Strings are sequences of code units; the character type is [ascii]
    (code units 0..255). *)

From Stdlib Require Import ZArith List String Ascii Bool Lia DecimalString.
From Stdlib Require Import Floats.PrimFloat Floats.FloatOps Floats.SpecFloat.
From Stdlib Require Import Floats.FloatAxioms.
Import ListNotations.

#[local] Set Warnings "-register-all,-inexact-float".

Local Open Scope string_scope.
Local Open Scope Z_scope.

(* ================================================================== *)
(** * Strings *)

Module Str.

Definition empty : string := EmptyString.

(** The double-quote character, as a one-character string. *)
Definition dq : string := String (ascii_of_nat 34) EmptyString.

Definition chars (s : string) : list ascii := list_ascii_of_string s.
Definition of_chars (l : list ascii) : string := string_of_list_ascii l.

Definition code (c : ascii) : Z := Z.of_nat (nat_of_ascii c).

Definition of_code (n : Z) : ascii := ascii_of_nat (Z.to_nat (n mod 256)).

Definition single (c : ascii) : string := String c EmptyString.

Definition len (s : string) : nat := String.length s.

Definition of_nat (n : nat) : string := NilZero.string_of_uint (Nat.to_uint n).

Definition of_Z_nonneg (z : Z) : string := NilZero.string_of_uint (N.to_uint (Z.to_N z)).

Fixpoint repeat0 (n : nat) : string :=
  match n with O => EmptyString | S k => String "0" (repeat0 k) end.

Fixpoint starts_with (p s : string) : bool :=
  match p, s with
  | EmptyString, _ => true
  | String a p', String b s' => Ascii.eqb a b && starts_with p' s'
  | _, EmptyString => false
  end.

(** [String.prototype.includes(p)] *)
Fixpoint includes (p s : string) : bool :=
  starts_with p s ||
  match s with
  | EmptyString => false
  | String _ s' => includes p s'
  end.

(** [String.prototype.endsWith(p)] *)
Definition ends_with (p s : string) : bool :=
  let lp := String.length p in
  let ls := String.length s in
  Nat.leb lp ls && String.eqb (substring (ls - lp) lp s) p.

Fixpoint drop (n : nat) (s : string) : string :=
  match n, s with
  | O, _ => s
  | S k, String _ s' => drop k s'
  | S _, EmptyString => EmptyString
  end.

Fixpoint take (n : nat) (s : string) : string :=
  match n, s with
  | S k, String c s' => String c (take k s')
  | _, _ => EmptyString
  end.

Fixpoint join (sep : string) (l : list string) : string :=
  match l with
  | [] => EmptyString
  | [x] => x
  | x :: r => x ++ sep ++ join sep r
  end.

Definition is_upper (c : ascii) : bool := (65 <=? code c) && (code c <=? 90).
Definition is_lower (c : ascii) : bool := (97 <=? code c) && (code c <=? 122).
Definition is_digit (c : ascii) : bool := (48 <=? code c) && (code c <=? 57).

(** [String.prototype.toUpperCase] on the ASCII letters. *)
Definition upper_char (c : ascii) : ascii :=
  if is_lower c then of_code (code c - 32) else c.

Definition toUpperCase (s : string) : string := of_chars (map upper_char (chars s)).

(** White space and line terminators of the language that lie in the
    character type: TAB, LF, VT, FF, CR, SP and NBSP. *)
Definition is_js_space (c : ascii) : bool :=
  let n := code c in
  (n =? 9) || (n =? 10) || (n =? 11) || (n =? 12) || (n =? 13) || (n =? 32) || (n =? 160).

Fixpoint trim_start (s : string) : string :=
  match s with
  | String c s' => if is_js_space c then trim_start s' else s
  | EmptyString => s
  end.

Definition trim_end (s : string) : string :=
  of_chars (rev (chars (trim_start (of_chars (rev (chars s)))))).

(** [String.prototype.trim] *)
Definition trim (s : string) : string := trim_end (trim_start s).

(** Comparison of strings by code units, as [<] on two strings. *)
Fixpoint ltb (a b : string) : bool :=
  match a, b with
  | _, EmptyString => false
  | EmptyString, String _ _ => true
  | String x a', String y b' =>
      if code x <? code y then true
      else if code y <? code x then false
      else ltb a' b'
  end.

End Str.

(* ================================================================== *)
(** * Numbers: IEEE-754 binary64 *)

Module Num.

Definition of_Z (z : Z) : float :=
  SF2Prim (binary_normalize prec emax z 0 false).

Definition of_nat (n : nat) : float := of_Z (Z.of_nat n).

Definition is_finite (x : float) : bool :=
  negb (is_nan x) && negb (is_infinity x).

(** Non-negative rationals as fractions with a positive denominator. *)
Definition rat : Type := Z * Z.

Definition rle (a b : rat) : bool := fst a * snd b <=? fst b * snd a.
Definition rlt (a b : rat) : bool := fst a * snd b <? fst b * snd a.
Definition rmul (a b : rat) : rat := (fst a * fst b, snd a * snd b).
Definition rdiv (a b : rat) : rat := (fst a * snd b, snd a * fst b).
Definition rsub (a b : rat) : rat := (fst a * snd b - fst b * snd a, snd a * snd b).
Definition rfloor (a : rat) : Z := fst a / snd a.
Definition rpow2 (e : Z) : rat := if 0 <=? e then (2 ^ e, 1) else (1, 2 ^ (- e)).
Definition rpow10 (e : Z) : rat := if 0 <=? e then (10 ^ e, 1) else (1, 10 ^ (- e)).
Definition rint (z : Z) : rat := (z, 1).

(** The exact value [m * 2^e] of a finite non-zero number. *)
Definition exact (m : positive) (e : Z) : rat := rmul (rint (Zpos m)) (rpow2 e).

(** [Number.isInteger] *)
Definition isInteger (x : float) : bool :=
  match Prim2SF x with
  | S754_zero _ => true
  | S754_finite _ m e => if 0 <=? e then true else (Zpos m) mod (2 ^ (- e)) =? 0
  | _ => false
  end.

(** The decimal exponent [n] with [10^(n-1) <= x < 10^n], for [x] in the
    range of the finite non-zero numbers. *)
Fixpoint find_exp10 (fuel : nat) (x : rat) (n : Z) : Z :=
  match fuel with
  | O => n
  | S f => if rlt x (rpow10 n) then n else find_exp10 f x (n + 1)
  end.

Definition exp10 (x : rat) : Z := find_exp10 700 x (-330).

(** The shortest decimal [s * 10^(n-k)], [10^(k-1) <= s < 10^k], that
    reads back as [x]; among the shortest, the closest to [x], the even
    [s] on a tie (Number::toString, step 5).  [lo] and [hi] bound the
    reals that round to [x], the bounds belonging to it when [incl]. *)
Fixpoint shortest (fuel : nat) (k : Z) (x lo hi : rat) (incl : bool) (n0 : Z) : Z * Z :=
  match fuel with
  | O => (0, 0)
  | S f =>
      let sc := rpow10 (n0 - k) in
      let sd := rfloor (rdiv x sc) in
      let su := sd + 1 in
      let vd := rmul (rint sd) sc in
      let vu := rmul (rint su) sc in
      let okd := if incl then rle lo vd else rlt lo vd in
      let oku := if incl then rle vu hi else rlt vu hi in
      let up := if su =? 10 ^ k then (10 ^ (k - 1), n0 + 1) else (su, n0) in
      match okd, oku with
      | true, false => (sd, n0)
      | false, true => up
      | true, true =>
          let dd := rsub x vd in
          let du := rsub vu x in
          if rlt dd du then (sd, n0)
          else if rlt du dd then up
          else if Z.even sd then (sd, n0) else up
      | false, false => shortest f (k + 1) x lo hi incl n0
      end
  end.

Definition digits_of (m : positive) (e : Z) : Z * Z :=
  let x := exact m e in
  let hi := rmul (rint (2 * Zpos m + 1)) (rpow2 (e - 1)) in
  let lo :=
    if (Zpos m =? 2 ^ 52) && (-1074 <? e)
    then rmul (rint (4 * Zpos m - 1)) (rpow2 (e - 2))
    else rmul (rint (2 * Zpos m - 1)) (rpow2 (e - 1)) in
  shortest 20 1 x lo hi (Z.even (Zpos m)) (exp10 x).

(** Number::toString for a finite positive number given by its shortest
    digits [s] and decimal exponent [n]. *)
Definition format_digits (s n : Z) : string :=
  let ds := Str.of_Z_nonneg s in
  let k := Z.of_nat (String.length ds) in
  if (k <=? n) && (n <=? 21) then
    ds ++ Str.repeat0 (Z.to_nat (n - k))
  else if (0 <? n) && (n <=? 21) then
    Str.take (Z.to_nat n) ds ++ "." ++ Str.drop (Z.to_nat n) ds
  else if (-6 <? n) && (n <=? 0) then
    "0." ++ Str.repeat0 (Z.to_nat (- n)) ++ ds
  else
    let e := n - 1 in
    let es := (if 0 <=? e then "+" else "-") ++ Str.of_Z_nonneg (Z.abs e) in
    if k =? 1 then ds ++ "e" ++ es
    else Str.take 1 ds ++ "." ++ Str.drop 1 ds ++ "e" ++ es.

(** Number::toString (radix 10) *)
Definition toString (x : float) : string :=
  match Prim2SF x with
  | S754_nan => "NaN"
  | S754_zero _ => "0"
  | S754_infinity s => if s then "-Infinity" else "Infinity"
  | S754_finite s m e =>
      let '(d, n) := digits_of m e in
      (if s then "-" else Str.empty) ++ format_digits d n
  end.

(** [Number.prototype.toFixed(f)] *)
Definition toFixed (x : float) (f : nat) : string :=
  match Prim2SF x with
  | S754_finite s m e =>
      let v := exact m e in
      if rle (rpow10 21) v then toString x
      else
        let scaled := rmul v (rpow10 (Z.of_nat f)) in
        let n := rfloor (fst scaled * 2 + snd scaled, snd scaled * 2) in
        let ds := Str.of_Z_nonneg n in
        let ds := Str.repeat0 (S f - String.length ds) ++ ds in
        let k := String.length ds in
        (if s then "-" else Str.empty) ++
        (match f with
         | O => ds
         | _ => Str.take (k - f) ds ++ "." ++ Str.drop (k - f) ds
         end)
  | S754_zero _ =>
      match f with
      | O => "0"
      | _ => "0." ++ Str.repeat0 f
      end
  | _ => toString x
  end.

(** The number nearest to [m * 10^e10] (ties to even), negated when
    [neg]: the value of a decimal literal. *)
Definition of_decimal (neg : bool) (m : Z) (e10 : Z) : float :=
  if m <=? 0 then (if neg then neg_zero else zero)
  else if 310 <? e10 then (if neg then neg_infinity else infinity)
  else if (Z.log2 m + 1) / 3 + 1 + e10 <? -330 then (if neg then neg_zero else zero)
  else if 0 <=? e10 then
    SF2Prim (binary_round prec emax neg (Z.to_pos (m * 10 ^ e10)) 0)
  else
    let d := 10 ^ (- e10) in
    let k := Z.max 0 (64 + Z.log2 d - Z.log2 m) in
    let num := m * 2 ^ k in
    let q := num / d in
    let r := num mod d in
    let loc := if r =? 0 then loc_Exact else loc_Inexact (Z.compare (2 * r) d) in
    SF2Prim (binary_round_aux prec emax neg q (- k) loc).

End Num.

(* ================================================================== *)
(** * Dynamic values, exceptions and coercions *)

Module Js.

(** Run-time values.  [JSON.parse] yields every constructor but
    [VUndefined] and [VFun]; [VFun] stands for a built-in method read off
    a prototype (the validator reads [at], which arrays and strings
    inherit). *)
Inductive value : Type :=
| VUndefined
| VNull
| VBool (b : bool)
| VNum (x : float)
| VStr (s : string)
| VArr (items : list value)
| VObj (props : list (string * value))
| VFun (name : string).

Inductive exn : Type :=
| TypeError
| SyntaxError
| Error (msg : string).

Inductive result (A : Type) : Type :=
| Ok (a : A)
| Throw (e : exn).

Arguments Ok {A} a.
Arguments Throw {A} e.

Definition rbind {A B : Type} (m : result A) (f : A -> result B) : result B :=
  match m with
  | Ok a => f a
  | Throw e => Throw e
  end.

Declare Scope res_scope.
Delimit Scope res_scope with res.
Notation "x <- m ;; k" := (rbind m (fun x => k))
  (at level 61, m at next level, right associativity) : res_scope.

Fixpoint assoc {A : Type} (k : string) (l : list (string * A)) : option A :=
  match l with
  | [] => None
  | (k', v) :: r => if String.eqb k k' then Some v else assoc k r
  end.

Definition has_own {A : Type} (k : string) (l : list (string * A)) : bool :=
  match assoc k l with Some _ => true | None => false end.

(** [read_digits base l acc n]: the leading digits of [l] in [base],
    accumulated on [acc]; their count is added to [n]. *)
Fixpoint read_digits (base : Z) (l : list ascii) (acc : Z) (n : Z) : Z * Z * list ascii :=
  match l with
  | c :: r =>
      let d :=
        if Str.is_digit c then Str.code c - 48
        else if Str.is_lower c then Str.code c - 87
        else if Str.is_upper c then Str.code c - 55
        else base in
      if d <? base then read_digits base r (acc * base + d) (n + 1)
      else (acc, n, l)
  | [] => (acc, n, l)
  end.

(** A key that is an array index ([0] to [2^32 - 2], in canonical
    decimal form). *)
Definition array_index (k : string) : option Z :=
  match Str.chars k with
  | [] => None
  | c :: r =>
      if forallb Str.is_digit (c :: r)
         && (negb (Ascii.eqb c "0") || Nat.eqb (List.length r) 0) then
        let '(v, _, _) := read_digits 10 (c :: r) 0 0 in
        if v <=? 4294967294 then Some v else None
      else None
  end.

(** ** Built-in members reachable through the prototype chain *)

Definition object_prototype : list string :=
  [ "constructor"; "hasOwnProperty"; "isPrototypeOf"; "propertyIsEnumerable";
    "toLocaleString"; "toString"; "valueOf"; "__defineGetter__";
    "__defineSetter__"; "__lookupGetter__"; "__lookupSetter__" ].

Definition array_prototype : list string :=
  [ "at"; "concat"; "copyWithin"; "entries"; "every"; "fill"; "filter"; "find";
    "findIndex"; "findLast"; "findLastIndex"; "flat"; "flatMap"; "forEach";
    "includes"; "indexOf"; "join"; "keys"; "lastIndexOf"; "map"; "pop"; "push";
    "reduce"; "reduceRight"; "reverse"; "shift"; "slice"; "some"; "sort";
    "splice"; "toReversed"; "toSorted"; "toSpliced"; "unshift"; "values"; "with" ].

Definition string_prototype : list string :=
  [ "anchor"; "at"; "big"; "blink"; "bold"; "charAt"; "charCodeAt";
    "codePointAt"; "concat"; "endsWith"; "fixed"; "fontcolor"; "fontsize";
    "includes"; "indexOf"; "isWellFormed"; "italics"; "lastIndexOf"; "link";
    "localeCompare"; "match"; "matchAll"; "normalize"; "padEnd"; "padStart";
    "repeat"; "replace"; "replaceAll"; "search"; "slice"; "small"; "split";
    "startsWith"; "strike"; "sub"; "substr"; "substring"; "sup";
    "toLocaleLowerCase"; "toLocaleUpperCase"; "toLowerCase"; "toUpperCase";
    "toWellFormed"; "trim"; "trimEnd"; "trimLeft"; "trimRight"; "trimStart" ].

Definition number_prototype : list string :=
  [ "toExponential"; "toFixed"; "toPrecision" ].

Definition function_prototype : list string :=
  [ "apply"; "bind"; "call" ].

Definition mem (k : string) (l : list string) : bool := existsb (String.eqb k) l.

(** A member found on [Object.prototype]: a method, the constructor, or
    the prototype object itself for the accessor [__proto__] (which
    behaves here as an empty object). *)
Definition object_member (k : string) : value :=
  if String.eqb k "constructor" then VFun "Object"
  else if mem k object_prototype then VFun k
  else if String.eqb k "__proto__" then VObj []
  else VUndefined.

(** A member a primitive or an array inherits: from its own prototype
    [own], whose constructor is [ctor], then from [Object.prototype].
    [proto] stands for the prototype object itself. *)
Definition inherited (own : list string) (ctor : string) (proto : value) (k : string)
  : value :=
  if String.eqb k "constructor" then VFun ctor
  else if mem k own then VFun k
  else if String.eqb k "__proto__" then proto
  else object_member k.

(** ** Property reads *)

(** [v.k]: a [TypeError] on [undefined] and [null]; otherwise the own
    property (a property of an object, the length or an element of an
    array or of a string) or the inherited member.  The validator reads
    no member of a function; of those only [name] is given here. *)
Definition get (v : value) (k : string) : result value :=
  match v with
  | VUndefined | VNull => Throw TypeError
  | VObj ps =>
      match assoc k ps with
      | Some x => Ok x
      | None => Ok (object_member k)
      end
  | VArr l =>
      if String.eqb k "length" then Ok (VNum (Num.of_nat (List.length l)))
      else
        match option_map (fun i => nth_error l (Z.to_nat i)) (array_index k) with
        | Some (Some x) => Ok x
        | _ => Ok (inherited array_prototype "Array" (VArr []) k)
        end
  | VStr s =>
      if String.eqb k "length" then Ok (VNum (Num.of_nat (String.length s)))
      else
        match option_map (fun i => String.get (Z.to_nat i) s) (array_index k) with
        | Some (Some c) => Ok (VStr (Str.single c))
        | _ => Ok (inherited string_prototype "String" (VObj []) k)
        end
  | VNum _ => Ok (inherited number_prototype "Number" (VObj []) k)
  | VBool _ => Ok (inherited [] "Boolean" (VObj []) k)
  | VFun n =>
      if String.eqb k "name" then Ok (VStr n)
      else Ok (inherited function_prototype "Function" (VFun EmptyString) k)
  end.

(** [v?.k] *)
Definition getOpt (v : value) (k : string) : result value :=
  match v with
  | VUndefined | VNull => Ok VUndefined
  | _ => get v k
  end.

(** ** Tests on values *)

(** ToBoolean *)
Definition truthy (v : value) : bool :=
  match v with
  | VUndefined | VNull => false
  | VBool b => b
  | VNum x => negb (PrimFloat.eqb x 0 || is_nan x)
  | VStr s => negb (String.eqb s EmptyString)
  | VArr _ | VObj _ | VFun _ => true
  end.

Definition falsy (v : value) : bool := negb (truthy v).

Definition typeof (v : value) : string :=
  match v with
  | VUndefined => "undefined"
  | VNull | VArr _ | VObj _ => "object"
  | VBool _ => "boolean"
  | VNum _ => "number"
  | VStr _ => "string"
  | VFun _ => "function"
  end.

Definition is_undefined (v : value) : bool :=
  match v with VUndefined => true | _ => false end.

(** [v === x] for a number [x] *)
Definition eq_num (v : value) (x : float) : bool :=
  match v with VNum y => PrimFloat.eqb y x | _ => false end.

(** [v === s] for a string [s] *)
Definition eq_str (v : value) (s : string) : bool :=
  match v with VStr t => String.eqb t s | _ => false end.

(** [v === true] *)
Definition eq_true (v : value) : bool :=
  match v with VBool b => b | _ => false end.

Definition isArray (v : value) : bool :=
  match v with VArr _ => true | _ => false end.

(** [Number.isInteger(v)] *)
Definition isInteger (v : value) : bool :=
  match v with VNum x => Num.isInteger x | _ => false end.

(** SameValueZero against a primitive [p]; an object never equals it. *)
Definition sameValueZero (v p : value) : bool :=
  match v, p with
  | VUndefined, VUndefined => true
  | VNull, VNull => true
  | VBool a, VBool b => Bool.eqb a b
  | VNum a, VNum b => PrimFloat.eqb a b || (is_nan a && is_nan b)
  | VStr a, VStr b => String.eqb a b
  | _, _ => false
  end.

(** ** Coercions *)

Local Open Scope res_scope.

(** ToString.  An array joins its elements with commas ([null] and
    [undefined] elements print as empty); an object prints through
    [Object.prototype.toString] unless an own [toString] property, which
    cannot be callable in parsed data, hides it, and then the conversion
    raises. *)
Fixpoint toString (v : value) : result string :=
  match v with
  | VUndefined => Ok "undefined"
  | VNull => Ok "null"
  | VBool b => Ok (if b then "true" else "false")
  | VNum x => Ok (Num.toString x)
  | VStr s => Ok s
  | VArr l =>
      (fix join (l : list value) : result string :=
         match l with
         | [] => Ok EmptyString
         | x :: r =>
             a <- match x with
                  | VUndefined | VNull => Ok EmptyString
                  | _ => toString x
                  end ;;
             match r with
             | [] => Ok a
             | _ => b <- join r ;; Ok (a ++ "," ++ b)
             end
         end) l
  | VObj ps => if has_own "toString" ps then Throw TypeError else Ok "[object Object]"
  | VFun n => Ok ("function " ++ n ++ "() { [native code] }")
  end.

(** ToPrimitive *)
Definition toPrimitive (v : value) : result value :=
  match v with
  | VArr _ | VObj _ | VFun _ => s <- toString v ;; Ok (VStr s)
  | _ => Ok v
  end.

Definition read_sign (l : list ascii) : bool * bool * list ascii :=
  match l with
  | "-"%char :: r => (true, true, r)
  | "+"%char :: r => (false, true, r)
  | _ => (false, false, l)
  end.

(** The exponent part of a decimal literal: [None] when an [e] is not
    followed by digits. *)
Definition read_exponent (l : list ascii) : option (Z * list ascii) :=
  match l with
  | c :: r =>
      if Ascii.eqb c "e" || Ascii.eqb c "E" then
        let '(neg, _, r1) := read_sign r in
        let '(e, n, r2) := read_digits 10 r1 0 0 in
        if n =? 0 then None else Some (if neg then - e else e, r2)
      else Some (0, l)
  | [] => Some (0, l)
  end.

Definition radix_literal (l : list ascii) : option float :=
  match l with
  | "0"%char :: c :: r =>
      let base :=
        if Ascii.eqb c "x" || Ascii.eqb c "X" then 16
        else if Ascii.eqb c "o" || Ascii.eqb c "O" then 8
        else if Ascii.eqb c "b" || Ascii.eqb c "B" then 2
        else 0 in
      if base =? 0 then None
      else
        let '(v, n, rest) := read_digits base r 0 0 in
        match rest with
        | [] => if n =? 0 then Some nan else Some (Num.of_Z v)
        | _ => Some nan
        end
  | _ => None
  end.

(** StringToNumber *)
Definition stringToNumber (s : string) : float :=
  let t := Str.trim s in
  let l := Str.chars t in
  match l with
  | [] => zero
  | _ =>
      match radix_literal l with
      | Some x => x
      | None =>
          let '(neg, _, r0) := read_sign l in
          if String.eqb (Str.of_chars r0) "Infinity" then
            (if neg then neg_infinity else infinity)
          else
            let '(ip, ni, r1) := read_digits 10 r0 0 0 in
            let '(fp, nf, r2) :=
              match r1 with
              | "."%char :: r => read_digits 10 r ip 0
              | _ => (ip, 0, r1)
              end in
            if ni + nf =? 0 then nan
            else
              match read_exponent r2 with
              | Some (e, []) => Num.of_decimal neg fp (e - nf)
              | _ => nan
              end
      end
  end.

(** ToNumber *)
Definition toNumber (v : value) : result float :=
  match v with
  | VUndefined => Ok nan
  | VNull => Ok zero
  | VBool b => Ok (if b then one else zero)
  | VNum x => Ok x
  | VStr s => Ok (stringToNumber s)
  | VArr _ | VObj _ | VFun _ => s <- toString v ;; Ok (stringToNumber s)
  end.

(** [a < b] *)
Definition lt (a b : value) : result bool :=
  pa <- toPrimitive a ;;
  pb <- toPrimitive b ;;
  match pa, pb with
  | VStr x, VStr y => Ok (Str.ltb x y)
  | _, _ => x <- toNumber pa ;; y <- toNumber pb ;; Ok (PrimFloat.ltb x y)
  end.

(** [a <= b] *)
Definition le (a b : value) : result bool :=
  pa <- toPrimitive a ;;
  pb <- toPrimitive b ;;
  match pa, pb with
  | VStr x, VStr y => Ok (negb (Str.ltb y x))
  | _, _ => x <- toNumber pa ;; y <- toNumber pb ;; Ok (PrimFloat.leb x y)
  end.

(** [a - b] and [a / b] *)
Definition arith (op : float -> float -> float) (a b : value) : result float :=
  x <- toNumber a ;;
  y <- toNumber b ;;
  Ok (op x y).

(** [a + b] *)
Definition add (a b : value) : result value :=
  pa <- toPrimitive a ;;
  pb <- toPrimitive b ;;
  match pa, pb with
  | VStr _, _ | _, VStr _ =>
      x <- toString pa ;; y <- toString pb ;; Ok (VStr (x ++ y))
  | _, _ => x <- toNumber pa ;; y <- toNumber pb ;; Ok (VNum (PrimFloat.add x y))
  end.

(** [a || b] on values *)
Definition or (a b : value) : value := if truthy a then a else b.

End Js.

(* ================================================================== *)
(** * Regular expressions *)

Module Regex.

Local Open Scope nat_scope.

(** Patterns: the fragment of the pattern language the validator's
    literals are written in.  Quantifiers are greedy. *)
Inductive re : Type :=
| Eps
| Chr (c : ascii)
| Dot
| Cls (neg : bool) (ranges : list (ascii * ascii))
| Seq (a b : re)
| Alt (a b : re)
| Rep (min : nat) (max : option nat) (a : re)
| Group (i : nat) (a : re)
| Bol
| Eol.

(** ** Reading a pattern from its source text *)

Definition digit_ranges : list (ascii * ascii) := [("0", "9")]%char.

Definition word_ranges : list (ascii * ascii) :=
  [("a", "z"); ("A", "Z"); ("0", "9"); ("_", "_")]%char.

Definition space_ranges : list (ascii * ascii) :=
  map (fun n => (ascii_of_nat n, ascii_of_nat n)) [9; 10; 11; 12; 13; 32; 160].

Definition syntax_char (c : ascii) : bool :=
  existsb (Ascii.eqb c)
    ["^"; "$"; "\"; "."; "*"; "+"; "?"; "("; ")"; "["; "]"; "{"; "}"; "|"]%char.

(** The character an escape [\c] denotes, when it denotes one. *)
Definition escape_char (c : ascii) : option ascii :=
  if syntax_char c || Ascii.eqb c "/" || Ascii.eqb c "-" then Some c
  else if Ascii.eqb c "n" then Some (ascii_of_nat 10)
  else if Ascii.eqb c "r" then Some (ascii_of_nat 13)
  else if Ascii.eqb c "t" then Some (ascii_of_nat 9)
  else if Ascii.eqb c "f" then Some (ascii_of_nat 12)
  else if Ascii.eqb c "v" then Some (ascii_of_nat 11)
  else if Ascii.eqb c "0" then Some (ascii_of_nat 0)
  else None.

(** The character class an escape [\c] denotes, when it denotes one. *)
Definition escape_class (c : ascii) : option (bool * list (ascii * ascii)) :=
  if Ascii.eqb c "d" then Some (false, digit_ranges)
  else if Ascii.eqb c "D" then Some (true, digit_ranges)
  else if Ascii.eqb c "w" then Some (false, word_ranges)
  else if Ascii.eqb c "W" then Some (true, word_ranges)
  else if Ascii.eqb c "s" then Some (false, space_ranges)
  else if Ascii.eqb c "S" then Some (true, space_ranges)
  else None.

(** One member of a bracketed class: a set of ranges, and the single
    character it stands for when it can start a range. *)
Definition class_atom (l : list ascii)
  : option (list (ascii * ascii) * option ascii * list ascii) :=
  match l with
  | "\"%char :: c :: r =>
      match escape_class c with
      | Some (false, rs) => Some (rs, None, r)
      | Some (true, _) => None
      | None =>
          if Ascii.eqb c "b" then Some ([(ascii_of_nat 8, ascii_of_nat 8)], Some (ascii_of_nat 8), r)
          else
            match escape_char c with
            | Some d => Some ([(d, d)], Some d, r)
            | None => None
            end
      end
  | "\"%char :: [] => None
  | c :: r => Some ([(c, c)], Some c, r)
  | [] => None
  end.

Fixpoint class_items (fuel : nat) (l : list ascii) (acc : list (ascii * ascii))
  : option (list (ascii * ascii) * list ascii) :=
  match fuel with
  | O => None
  | S f =>
      match l with
      | "]"%char :: r => Some (acc, r)
      | _ =>
          match class_atom l with
          | None => None
          | Some (rs, lo, r) =>
              match lo, r with
              | Some a, "-"%char :: "]"%char :: _ => class_items f r (acc ++ rs)
              | Some a, "-"%char :: r1 =>
                  match class_atom r1 with
                  | Some (_, Some b, r2) =>
                      if (nat_of_ascii a <=? nat_of_ascii b)
                      then class_items f r2 (acc ++ [(a, b)])
                      else None
                  | _ => None
                  end
              | _, _ => class_items f r (acc ++ rs)
              end
          end
      end
  end.

Definition read_nat (l : list ascii) : option (nat * list ascii) :=
  let '(v, n, r) := Js.read_digits 10 l 0%Z 0%Z in
  if (n =? 0)%Z then None else Some (Z.to_nat v, r).

(** The quantifier that follows an atom, if any: bounds and rest. *)
Definition quantifier (l : list ascii) : option (option (nat * option nat) * list ascii) :=
  let lazy_free (q : nat * option nat) (r : list ascii) :=
    match r with
    | "?"%char :: _ => None
    | _ => Some (Some q, r)
    end in
  match l with
  | "*"%char :: r => lazy_free (0, None) r
  | "+"%char :: r => lazy_free (1, None) r
  | "?"%char :: r => lazy_free (0, Some 1) r
  | "{"%char :: r =>
      match read_nat r with
      | Some (n, "}"%char :: r1) => lazy_free (n, Some n) r1
      | Some (n, ","%char :: "}"%char :: r1) => lazy_free (n, None) r1
      | Some (n, ","%char :: r1) =>
          match read_nat r1 with
          | Some (m, "}"%char :: r2) => if n <=? m then lazy_free (n, Some m) r2 else None
          | _ => None
          end
      | _ => None
      end
  | _ => Some (None, l)
  end.

Definition parser : Type := list ascii -> nat -> option (re * list ascii * nat).

(** An atom; [rec] reads the disjunction inside a group and [gi] is the
    number of capture groups opened so far. *)
Definition parse_atom (rec : parser) (l : list ascii) (gi : nat)
  : option (re * list ascii * nat) :=
  match l with
  | "."%char :: r => Some (Dot, r, gi)
  | "^"%char :: r => Some (Bol, r, gi)
  | "$"%char :: r => Some (Eol, r, gi)
  | "("%char :: "?"%char :: ":"%char :: r =>
      match rec r gi with
      | Some (a, ")"%char :: r1, gi1) => Some (a, r1, gi1)
      | _ => None
      end
  | "("%char :: "?"%char :: _ => None
  | "("%char :: r =>
      match rec r (S gi) with
      | Some (a, ")"%char :: r1, gi1) => Some (Group (S gi) a, r1, gi1)
      | _ => None
      end
  | "["%char :: "^"%char :: r =>
      match class_items (S (List.length r)) r [] with
      | Some (rs, r1) => Some (Cls true rs, r1, gi)
      | None => None
      end
  | "["%char :: r =>
      match class_items (S (List.length r)) r [] with
      | Some (rs, r1) => Some (Cls false rs, r1, gi)
      | None => None
      end
  | "\"%char :: c :: r =>
      match escape_class c with
      | Some (neg, rs) => Some (Cls neg rs, r, gi)
      | None =>
          match escape_char c with
          | Some d => Some (Chr d, r, gi)
          | None => None
          end
      end
  | c :: r => if syntax_char c then None else Some (Chr c, r, gi)
  | [] => None
  end.

Definition parse_term (rec : parser) (l : list ascii) (gi : nat)
  : option (re * list ascii * nat) :=
  match parse_atom rec l gi with
  | Some (a, r, gi1) =>
      match a with
      | Bol | Eol => Some (a, r, gi1)
      | _ =>
          match quantifier r with
          | Some (Some (mn, mx), r1) => Some (Rep mn mx a, r1, gi1)
          | Some (None, r1) => Some (a, r1, gi1)
          | None => None
          end
      end
  | None => None
  end.

Fixpoint parse_seq (rec : parser) (fuel : nat) (l : list ascii) (gi : nat)
  : option (re * list ascii * nat) :=
  match fuel with
  | O => None
  | S f =>
      match l with
      | [] | "|"%char :: _ | ")"%char :: _ => Some (Eps, l, gi)
      | _ =>
          match parse_term rec l gi with
          | Some (a, r, gi1) =>
              match parse_seq rec f r gi1 with
              | Some (Eps, r1, gi2) => Some (a, r1, gi2)
              | Some (b, r1, gi2) => Some (Seq a b, r1, gi2)
              | None => None
              end
          | None => None
          end
      end
  end.

Fixpoint parse_alts (rec : parser) (fuel : nat) (l : list ascii) (gi : nat)
  : option (re * list ascii * nat) :=
  match fuel with
  | O => None
  | S f =>
      match parse_seq rec (S (List.length l)) l gi with
      | Some (a, "|"%char :: r, gi1) =>
          match parse_alts rec f r gi1 with
          | Some (b, r1, gi2) => Some (Alt a b, r1, gi2)
          | None => None
          end
      | other => other
      end
  end.

Fixpoint parse_disj (fuel : nat) (l : list ascii) (gi : nat)
  : option (re * list ascii * nat) :=
  match fuel with
  | O => None
  | S f => parse_alts (parse_disj f) (S (List.length l)) l gi
  end.

(** The pattern a source text denotes and the number of its capture
    groups; [None] outside the supported fragment. *)
Definition parse (src : string) : option (re * nat) :=
  let l := Str.chars src in
  match parse_disj (S (List.length l)) l 0 with
  | Some (r, [], n) => Some (r, n)
  | _ => None
  end.

(** ** Matching *)

Record mstate : Type := { pos : nat; rest : list ascii; caps : list (nat * string) }.

Definition advance (x : mstate) (t : list ascii) : mstate :=
  {| pos := S (pos x); rest := t; caps := caps x |}.

Definition in_ranges (c : ascii) (rs : list (ascii * ascii)) : bool :=
  existsb (fun r => (nat_of_ascii (fst r) <=? nat_of_ascii c)
                    && (nat_of_ascii c <=? nat_of_ascii (snd r))) rs.

Definition line_terminator (c : ascii) : bool :=
  (nat_of_ascii c =? 10) || (nat_of_ascii c =? 13).

Fixpoint groups (r : re) : list nat :=
  match r with
  | Seq a b | Alt a b => groups a ++ groups b
  | Rep _ _ a => groups a
  | Group i a => i :: groups a
  | _ => []
  end.

Definition clear_caps (gs : list nat) (x : mstate) : mstate :=
  {| pos := pos x; rest := rest x;
     caps := filter (fun c => negb (existsb (Nat.eqb (fst c)) gs)) (caps x) |}.

Definition set_cap (i : nat) (s : string) (x : mstate) : mstate :=
  {| pos := pos x; rest := rest x;
     caps := (i, s) :: filter (fun c => negb (fst c =? i)) (caps x) |}.

(** The backtracking matcher, in continuation-passing style: [run r k x]
    matches [r] at [x] and hands every candidate end state to [k], in
    priority order, until [k] accepts one.  A repetition stops iterating
    once an optional iteration matches the empty string. *)
Fixpoint run (r : re) (k : mstate -> option mstate) (x : mstate) {struct r}
  : option mstate :=
  match r with
  | Eps => k x
  | Chr c =>
      match rest x with
      | d :: t => if Ascii.eqb c d then k (advance x t) else None
      | [] => None
      end
  | Dot =>
      match rest x with
      | d :: t => if line_terminator d then None else k (advance x t)
      | [] => None
      end
  | Cls neg rs =>
      match rest x with
      | d :: t => if Bool.eqb (in_ranges d rs) neg then None else k (advance x t)
      | [] => None
      end
  | Seq a b => run a (fun y => run b k y) x
  | Alt a b =>
      match run a k x with
      | Some z => Some z
      | None => run b k x
      end
  | Group i a =>
      run a (fun y => k (set_cap i (Str.of_chars (firstn (pos y - pos x) (rest x))) y)) x
  | Bol => if pos x =? 0 then k x else None
  | Eol =>
      match rest x with
      | [] => k x
      | _ => None
      end
  | Rep mn mx a =>
      (fix loop (fuel mn : nat) (mx : option nat) (x : mstate) {struct fuel}
         : option mstate :=
         match fuel with
         | O => None
         | S f =>
             match mx with
             | Some O => k x
             | _ =>
                 let d := fun y =>
                   if (mn =? 0) && (pos y =? pos x) then None
                   else loop f (Nat.pred mn) (option_map Nat.pred mx) y in
                 let xr := clear_caps (groups a) x in
                 match mn with
                 | S _ => run a d xr
                 | O =>
                     match run a d xr with
                     | Some z => Some z
                     | None => k x
                     end
                 end
             end
         end) (S (mn + List.length (rest x))) mn mx x
  end.

(** A successful match: where it starts and ends, the matched text and
    the text of each capture group that took part. *)
Record found : Type :=
  { m_index : nat; m_end : nat; m_text : string; m_caps : list (nat * string) }.

(** The first match at or after position [i], [l] being the input from
    [i] on. *)
Fixpoint search (r : re) (i : nat) (l : list ascii) : option found :=
  match run r Some {| pos := i; rest := l; caps := [] |} with
  | Some y =>
      Some {| m_index := i; m_end := pos y;
              m_text := Str.of_chars (firstn (pos y - i) l);
              m_caps := caps y |}
  | None =>
      match l with
      | [] => None
      | _ :: t => search r (S i) t
      end
  end.

(** RegExpBuiltinExec: the match and the new [lastIndex].  Only a
    global pattern starts at [lastIndex] and writes it back. *)
Definition exec (r : re) (global : bool) (lastIndex : nat) (s : string)
  : option found * nat :=
  let start := if global then lastIndex else 0 in
  if String.length s <? start then (None, if global then 0 else lastIndex)
  else
    match search r start (skipn start (Str.chars s)) with
    | Some m => (Some m, if global then m_end m else lastIndex)
    | None => (None, if global then 0 else lastIndex)
    end.

(** The matches a global pattern yields from [lastIndex] on, as
    [String.prototype.match] collects them; an empty match advances by
    one. *)
Fixpoint match_all (fuel : nat) (r : re) (lastIndex : nat) (s : string) : list string :=
  match fuel with
  | O => []
  | S f =>
      match exec r true lastIndex s with
      | (Some m, li) =>
          m_text m :: match_all f r (if m_end m =? m_index m then S li else li) s
      | (None, _) => []
      end
  end.

(** [match[i]]: the text of group [i], [undefined] when it took no part. *)
Definition group (m : found) (i : nat) : Js.value :=
  match i with
  | O => Js.VStr (m_text m)
  | _ =>
      match find (fun c => fst c =? i) (m_caps m) with
      | Some c => Js.VStr (snd c)
      | None => Js.VUndefined
      end
  end.

(** ** RegExp objects *)

(** A pattern literal: its source text and its [g] flag. *)
Record literal : Type := { source : string; global : bool }.

(** A pattern that matches nothing stands for a source outside the
    supported fragment; [Validator.patterns_supported] shows that no
    literal of the validator is. *)
Definition compile (src : string) : re :=
  match parse src with
  | Some (r, _) => r
  | None => Cls false []
  end.

(** [RegExp.prototype.test] on an object whose [lastIndex] is [li]. *)
Definition test (p : literal) (li : nat) (s : string) : bool * nat :=
  match exec (compile (source p)) (global p) li s with
  | (Some _, li') => (true, li')
  | (None, li') => (false, li')
  end.

End Regex.

(* ================================================================== *)
(** * JSON text *)

Module Json.

Import Js.

Local Open Scope nat_scope.

Definition is_ws (c : ascii) : bool :=
  let n := nat_of_ascii c in (n =? 9) || (n =? 10) || (n =? 13) || (n =? 32).

Fixpoint skip_ws (l : list ascii) : list ascii :=
  match l with
  | c :: r => if is_ws c then skip_ws r else l
  | [] => l
  end.

Fixpoint insert_index (i : Z) (k : string) (v : value) (ps : list (string * value))
  : list (string * value) :=
  match ps with
  | [] => [(k, v)]
  | (k', v') :: r =>
      match array_index k' with
      | Some j => if (j <? i)%Z then (k', v') :: insert_index i k v r else (k, v) :: ps
      | None => (k, v) :: ps
      end
  end.

Fixpoint replace (k : string) (v : value) (ps : list (string * value))
  : list (string * value) :=
  match ps with
  | [] => []
  | (k', v') :: r => if String.eqb k k' then (k, v) :: r else (k', v') :: replace k v r
  end.

(** Defining the property [k] of an object: a later duplicate
    overwrites the value in place; a new key goes after the others, an
    array index among the indices. *)
Definition define (ps : list (string * value)) (k : string) (v : value)
  : list (string * value) :=
  if has_own k ps then replace k v ps
  else
    match array_index k with
    | Some i => insert_index i k v ps
    | None => ps ++ [(k, v)]
    end.

Definition hex_digit (c : ascii) : option Z :=
  let '(v, n, _) := read_digits 16 [c] 0%Z 0%Z in
  if (n =? 1)%Z then Some v else None.

(** The characters of a string literal after its opening quote.  A
    [\u] escape above the character type is read modulo 256. *)
Fixpoint parse_string (l : list ascii) (acc : list ascii) : option (string * list ascii) :=
  match l with
  | [] => None
  | c :: r =>
      if nat_of_ascii c =? 34 then Some (Str.of_chars (rev acc), r)
      else if nat_of_ascii c <? 32 then None
      else if Ascii.eqb c "\" then
        match r with
        | e :: r1 =>
            if nat_of_ascii e =? 34 then parse_string r1 (e :: acc)
            else if Ascii.eqb e "\" || Ascii.eqb e "/" then parse_string r1 (e :: acc)
            else if Ascii.eqb e "b" then parse_string r1 (ascii_of_nat 8 :: acc)
            else if Ascii.eqb e "f" then parse_string r1 (ascii_of_nat 12 :: acc)
            else if Ascii.eqb e "n" then parse_string r1 (ascii_of_nat 10 :: acc)
            else if Ascii.eqb e "r" then parse_string r1 (ascii_of_nat 13 :: acc)
            else if Ascii.eqb e "t" then parse_string r1 (ascii_of_nat 9 :: acc)
            else if Ascii.eqb e "u" then
              match r1 with
              | a :: b :: c1 :: d :: r2 =>
                  match hex_digit a, hex_digit b, hex_digit c1, hex_digit d with
                  | Some x, Some y, Some z, Some w =>
                      parse_string r2 (Str.of_code (((x * 16 + y) * 16 + z) * 16 + w) :: acc)
                  | _, _, _, _ => None
                  end
              | _ => None
              end
            else None
        | [] => None
        end
      else parse_string r (c :: acc)
  end.

(** A number token: an optional minus, an integer part without leading
    zeros, an optional fraction, an optional exponent. *)
Definition parse_number (l : list ascii) : option (float * list ascii) :=
  let '(neg, r0) :=
    match l with
    | "-"%char :: r => (true, r)
    | _ => (false, l)
    end in
  let int_part :=
    match r0 with
    | "0"%char :: r => Some (0%Z, r)
    | c :: _ =>
        if Str.is_digit c then
          let '(v, _, r) := read_digits 10 r0 0%Z 0%Z in Some (v, r)
        else None
    | [] => None
    end in
  match int_part with
  | None => None
  | Some (ip, r1) =>
      let frac :=
        match r1 with
        | "."%char :: r =>
            let '(v, n, r2) := read_digits 10 r ip 0%Z in
            if (n =? 0)%Z then None else Some (v, n, r2)
        | _ => Some (ip, 0%Z, r1)
        end in
      match frac with
      | None => None
      | Some (m, nf, r2) =>
          match read_exponent r2 with
          | Some (e, r3) => Some (Num.of_decimal neg m (e - nf), r3)
          | None => None
          end
      end
  end.

Definition literal (w : string) (v : value) (l : list ascii) : option (value * list ascii) :=
  let n := String.length w in
  if String.eqb (Str.of_chars (firstn n l)) w then Some (v, skipn n l) else None.

Definition reader : Type := list ascii -> option (value * list ascii).

Fixpoint elements (fuel : nat) (pv : reader) (l : list ascii) (acc : list value)
  : option (value * list ascii) :=
  match fuel with
  | O => None
  | S f =>
      match pv l with
      | Some (v, r) =>
          match skip_ws r with
          | ","%char :: r1 => elements f pv r1 (v :: acc)
          | "]"%char :: r1 => Some (VArr (rev (v :: acc)), r1)
          | _ => None
          end
      | None => None
      end
  end.

Fixpoint members (fuel : nat) (pv : reader) (l : list ascii) (acc : list (string * value))
  : option (value * list ascii) :=
  match fuel with
  | O => None
  | S f =>
      match skip_ws l with
      | q :: r =>
          if nat_of_ascii q =? 34 then
            match parse_string r [] with
            | Some (k, r1) =>
                match skip_ws r1 with
                | ":"%char :: r2 =>
                    match pv r2 with
                    | Some (v, r3) =>
                        let acc' := define acc k v in
                        match skip_ws r3 with
                        | ","%char :: r4 => members f pv r4 acc'
                        | "}"%char :: r4 => Some (VObj acc', r4)
                        | _ => None
                        end
                    | None => None
                    end
                | _ => None
                end
            | None => None
            end
          else None
      | [] => None
      end
  end.

Fixpoint parse_value (fuel : nat) (l : list ascii) : option (value * list ascii) :=
  match fuel with
  | O => None
  | S f =>
      match skip_ws l with
      | [] => None
      | c :: r =>
          if Ascii.eqb c "{" then
            match skip_ws r with
            | "}"%char :: r1 => Some (VObj [], r1)
            | _ => members (List.length r) (parse_value f) r []
            end
          else if Ascii.eqb c "[" then
            match skip_ws r with
            | "]"%char :: r1 => Some (VArr [], r1)
            | _ => elements (List.length r) (parse_value f) r []
            end
          else if nat_of_ascii c =? 34 then
            match parse_string r [] with
            | Some (s, r1) => Some (VStr s, r1)
            | None => None
            end
          else if Ascii.eqb c "t" then literal "true" (VBool true) (c :: r)
          else if Ascii.eqb c "f" then literal "false" (VBool false) (c :: r)
          else if Ascii.eqb c "n" then literal "null" VNull (c :: r)
          else
            match parse_number (c :: r) with
            | Some (x, r1) => Some (VNum x, r1)
            | None => None
            end
      end
  end.

(** [JSON.parse(text)]: the value, or a [SyntaxError]. *)
Definition parse (text : string) : result value :=
  let l := Str.chars text in
  match parse_value (S (List.length l)) l with
  | Some (v, r) =>
      match skip_ws r with
      | [] => Ok v
      | _ => Throw SyntaxError
      end
  | None => Throw SyntaxError
  end.

(** ** Serialisation *)

Definition hex_char (n : Z) : ascii :=
  if (n <? 10)%Z then Str.of_code (48 + n) else Str.of_code (87 + n).

Definition quote_char (c : ascii) : string :=
  let n := nat_of_ascii c in
  if n =? 34 then "\" ++ Str.dq
  else if n =? 92 then "\\"
  else if n =? 8 then "\b"
  else if n =? 12 then "\f"
  else if n =? 10 then "\n"
  else if n =? 13 then "\r"
  else if n =? 9 then "\t"
  else if n <? 32 then
    "\u00" ++ Str.single (hex_char (Z.of_nat (n / 16))) ++ Str.single (hex_char (Z.of_nat (n mod 16)))
  else Str.single c.

(** QuoteJSONString *)
Definition quote (s : string) : string :=
  Str.dq ++ String.concat EmptyString (map quote_char (Str.chars s)) ++ Str.dq.

(** SerializeJSONProperty: [None] for a value that has no JSON text
    ([undefined], a function). *)
Fixpoint serialize (v : value) : option string :=
  match v with
  | VUndefined | VFun _ => None
  | VNull => Some "null"
  | VBool b => Some (if b then "true" else "false")
  | VNum x => Some (if Num.is_finite x then Num.toString x else "null")
  | VStr s => Some (quote s)
  | VArr l =>
      Some ("[" ++ Str.join ","
              (map (fun x => match serialize x with Some s => s | None => "null" end) l)
            ++ "]")
  | VObj ps =>
      Some ("{" ++ Str.join ","
              ((fix props (ps : list (string * value)) : list string :=
                  match ps with
                  | [] => []
                  | (k, x) :: r =>
                      match serialize x with
                      | Some s => (quote k ++ ":" ++ s) :: props r
                      | None => props r
                      end
                  end) ps)
            ++ "}")
  end.

(** [JSON.stringify(v)], [undefined] included. *)
Definition stringify (v : value) : value :=
  match serialize v with
  | Some s => VStr s
  | None => VUndefined
  end.

End Json.

(* ================================================================== *)
(** * The validator *)

Module Validator.

Import Js.

(** A value is an expression that evaluates to it. *)
Definition val (v : value) : result value := Ok v.

Coercion val : value >-> result.

(** ** Expressions that may raise *)

Definition dot (e : result value) (k : string) : result value := rbind e (fun v => get v k).
Definition qdot (e : result value) (k : string) : result value := rbind e (fun v => getOpt v k).

(** [e # k] is [e.k] and [e #? k] is [e?.k]. *)
Notation "e # k" := (dot e k) (at level 25, left associativity).
Notation "e #? k" := (qdot e k) (at level 25, left associativity).

Definition test (p : value -> bool) (e : result value) : result bool :=
  rbind e (fun v => Ok (p v)).

(** [T e] is the truth value of [e] and [F e] that of [!e]. *)
Definition T : result value -> result bool := test truthy.
Definition F : result value -> result bool := test falsy.

Definition orR (a b : result bool) : result bool :=
  rbind a (fun x => if x then Ok true else b).
Definition andR (a b : result bool) : result bool :=
  rbind a (fun x => if x then b else Ok false).
Definition notR (a : result bool) : result bool := rbind a (fun x => Ok (negb x)).

Notation "a ||| b" := (orR a b) (at level 50, left associativity).
Notation "a &&& b" := (andR a b) (at level 40, left associativity).

(** [e === x], [e !== x] against a number, [undefined], a [typeof] name. *)
Definition eqN (e : result value) (x : float) : result bool := test (fun v => eq_num v x) e.
Definition neN (e : result value) (x : float) : result bool := notR (eqN e x).
Definition isU : result value -> result bool := test is_undefined.
Definition notU (e : result value) : result bool := notR (isU e).
Definition typeIs (e : result value) (t : string) : result bool :=
  test (fun v => String.eqb (typeof v) t) e.
Definition typeIsNot (e : result value) (t : string) : result bool := notR (typeIs e t).
Definition isArr : result value -> result bool := test isArray.
Definition isInt : result value -> result bool := test isInteger.

(** [a < b], [a <= b] *)
Definition ltR (a b : result value) : result bool :=
  rbind a (fun x => rbind b (fun y => lt x y)).
Definition leR (a b : result value) : result bool :=
  rbind a (fun x => rbind b (fun y => le x y)).

(** A template literal: the parts, converted to strings, in a row. *)
Fixpoint template (parts : list (result value)) : result string :=
  match parts with
  | [] => Ok EmptyString
  | p :: r =>
      rbind p (fun v => rbind (toString v) (fun s => rbind (template r) (fun t => Ok (s ++ t))))
  end.

Definition str (e : result string) : result value := rbind e (fun s => Ok (VStr s)).

(** ** Array methods, dispatched on the receiver *)

Fixpoint some (f : value -> result bool) (l : list value) : result bool :=
  match l with
  | [] => Ok false
  | x :: r => rbind (f x) (fun b => if b then Ok true else some f r)
  end.

Fixpoint every (f : value -> result bool) (l : list value) : result bool :=
  match l with
  | [] => Ok true
  | x :: r => rbind (f x) (fun b => if b then every f r else Ok false)
  end.

Fixpoint filter (f : value -> result bool) (l : list value) : result (list value) :=
  match l with
  | [] => Ok []
  | x :: r =>
      rbind (f x) (fun b => rbind (filter f r) (fun t => Ok (if b then x :: t else t)))
  end.

Fixpoint reduce (f : value -> value -> result value) (l : list value) (acc : value)
  : result value :=
  match l with
  | [] => Ok acc
  | x :: r => rbind (f acc x) (reduce f r)
  end.

(** The elements of a receiver on which an array method is called: a
    [TypeError] when the receiver is not an array, for then the method
    is missing or [undefined] is dereferenced. *)
Definition elems (e : result value) : result (list value) :=
  rbind e (fun v => match v with VArr l => Ok l | _ => Throw TypeError end).

(** [recv.includes(p)] for a primitive [p]: on an array, on a string. *)
Definition includes (e : result value) (p : value) : result bool :=
  rbind e (fun v =>
    match v with
    | VArr l => Ok (existsb (fun x => sameValueZero x p) l)
    | VStr s => rbind (toString p) (fun t => Ok (Str.includes t s))
    | _ => Throw TypeError
    end).

(** [recv.endsWith(p)]: strings alone have the method. *)
Definition endsWith (e : result value) (p : string) : result bool :=
  rbind e (fun v =>
    match v with
    | VStr s => Ok (Str.ends_with p s)
    | _ => Throw TypeError
    end).

(** The values a spread [...e] yields: the elements of an array, the
    characters of a string; nothing else that is truthy is iterable. *)
Definition spread (v : value) : result (list value) :=
  match v with
  | VArr l => Ok l
  | VStr s => Ok (map (fun c => VStr (Str.single c)) (Str.chars s))
  | _ => Throw TypeError
  end.

(** The value a [Set] stores for [v]: [add] turns [-0] into [+0]. *)
Definition set_key (v : value) : value :=
  match v with
  | VNum x => if PrimFloat.eqb x 0 then VNum 0 else v
  | _ => v
  end.

(** [[...new Set(l)]]: first occurrences, compared by SameValueZero, as
    the set stores them. *)
Fixpoint dedupe (l : list value) (seen : list value) : list value :=
  match l with
  | [] => []
  | x :: r =>
      if existsb (fun y => sameValueZero x y) seen then dedupe r seen
      else set_key x :: dedupe r (set_key x :: seen)
  end.

(** ** Data model *)

Inductive Severity : Type := error | warning | info.

Record ValidationIssue : Type := {
  id : string;
  severity : Severity;
  fieldPath : string;
  message : string;
  actualValue : option value;
  expectedValue : option string;
  specReference : option string
}.

Record AdPodDetails : Type := { slots : nat; totalDuration : value }.

Record DetectedCharacteristics : Type := {
  primaryType : string;
  mediaFormats : option (list value);
  platform : option string;
  deviceInfo : option string;
  privacySignals : option (list string);
  isAdPod : option bool;
  adPodDetails : option AdPodDetails
}.

Record BidRequestValidationResult : Type := {
  detectedCharacteristics : DetectedCharacteristics;
  issues : list ValidationIssue;
  isValid : bool
}.

Definition is_error (i : ValidationIssue) : bool :=
  match severity i with error => true | _ => false end.

(** ** State and effects *)

(** What a validator can change: the array of issues it is handed, and
    the [lastIndex] of the pattern objects of the registry, which live
    as long as the module (one slot per object). *)
Record Store : Type := { pushed : list ValidationIssue; lastIndex : nat -> nat }.

(** A computation runs on a store and ends normally or by raising; the
    store survives either way. *)
Definition M (A : Type) : Type := Store -> result A * Store.

Definition ret {A : Type} (a : A) : M A := fun s => (Ok a, s).

Definition bind {A B : Type} (m : M A) (f : A -> M B) : M B :=
  fun s =>
    match m s with
    | (Ok a, s') => f a s'
    | (Throw e, s') => (Throw e, s')
    end.

Definition lift {A : Type} (r : result A) : M A := fun s => (r, s).

Definition seq {A : Type} (m : M unit) (k : M A) : M A := bind m (fun _ => k).

Declare Scope m_scope.
Delimit Scope m_scope with M.
Bind Scope m_scope with M.
Notation "x <- m ;; k" := (bind m (fun x => k))
  (at level 61, m at next level, right associativity) : m_scope.
Notation "m ;; k" := (seq m k) (at level 61, right associativity) : m_scope.

Local Open Scope m_scope.

(** [if (c) { m }] and [if (c) { a } else { b }] *)
Definition ifM {A : Type} (c : result bool) (a b : M A) : M A :=
  b0 <- lift c ;; if b0 then a else b.

Definition when (c : result bool) (m : M unit) : M unit := ifM c m (ret tt).

(** [try { m } catch { h }] *)
Definition try_catch {A : Type} (m : M A) (h : M A) : M A :=
  fun s =>
    match m s with
    | (Ok a, s') => (Ok a, s')
    | (Throw _, s') => h s'
    end.

(** [issues.push(i)] *)
Definition push (i : ValidationIssue) : M unit :=
  fun s => (Ok tt, {| pushed := pushed s ++ [i]; lastIndex := lastIndex s |}).

(** [issues.push({ id, severity, fieldPath, message, actualValue,
    expectedValue })], the object literal being evaluated first. *)
Definition emit (i : string) (sev : Severity) (path msg : string)
    (actual : option (result value)) (expected : option string) : M unit :=
  a <- lift (match actual with
             | Some e => rbind e (fun v => Ok (Some v))
             | None => Ok None
             end) ;;
  push {| id := i; severity := sev; fieldPath := path; message := msg;
          actualValue := a; expectedValue := expected; specReference := None |}.

(** [l.forEach((x, index) => f x index)], from index [i] on. *)
Fixpoint forEach_from (f : value -> nat -> M unit) (l : list value) (i : nat) : M unit :=
  match l with
  | [] => ret tt
  | x :: r => f x i ;; forEach_from f r (S i)
  end.

(** [e.forEach(f)] *)
Definition forEach (e : result value) (f : value -> nat -> M unit) : M unit :=
  l <- lift (elems e) ;; forEach_from f l O.

(** ** Pattern objects of the registry *)

(** A pattern object created once, when the module loads: the literal
    and the slot that holds its [lastIndex]. *)
Record RegExp : Type := { lit : Regex.literal; slot : nat }.

Definition set_lastIndex (a v : nat) (s : Store) : Store :=
  {| pushed := pushed s;
     lastIndex := fun b => if Nat.eqb b a then v else lastIndex s b |}.

(** RegExpBuiltinExec on a registry object: [lastIndex] is read, and
    written back when the pattern is global. *)
Definition exec (r : RegExp) (text : string) : M (option Regex.found) :=
  fun s =>
    let '(m, li) :=
      Regex.exec (Regex.compile (Regex.source (lit r))) (Regex.global (lit r))
                 (lastIndex s (slot r)) text in
    (Ok m, if Regex.global (lit r) then set_lastIndex (slot r) li s else s).

(** [text.match(r)] for a pattern without the [g] flag *)
Definition match_ (text : string) (r : RegExp) : M (option Regex.found) := exec r text.

(** [r.test(text)] *)
Definition test_ (r : RegExp) (text : string) : M bool :=
  m <- exec r text ;; ret (match m with Some _ => true | None => false end).

(** A pattern literal evaluated in a function body: a fresh object,
    [lastIndex] 0, on each evaluation. *)
Definition fresh_test (src : string) (g : bool) (text : string) : bool :=
  fst (Regex.test {| Regex.source := src; Regex.global := g |} 0 text).

(** [text.match(/src/g)] on a fresh global pattern: the matched texts,
    [None] for [null]. *)
Definition fresh_match_all (src : string) (text : string) : option (list string) :=
  match Regex.match_all (S (S (String.length text))) (Regex.compile src) 0 text with
  | [] => None
  | l => Some l
  end.

(** ** Pattern registry *)

Record StoreConfig : Type := {
  patterns : list RegExp;
  bundlePattern : RegExp;
  platform_name : string
}.

Definition pattern (src : string) (a : nat) : RegExp :=
  {| lit := {| Regex.source := src; Regex.global := false |}; slot := a |}.

(** [STORE_URL_PATTERNS], in the order of its keys. *)
Definition STORE_URL_PATTERNS : list (string * StoreConfig) :=
  [ ("ios",
     {| patterns :=
          [ pattern "^https:\/\/apps\.apple\.com\/.*\/app\/.*\/id(\d+)$" 0;
            pattern "^https:\/\/apps\.apple\.com\/app\/id(\d+)$" 1;
            pattern "^https:\/\/apps\.apple\.com\/us\/app\/id(\d+)$" 2 ];
        bundlePattern := pattern "^\d+$" 3;
        platform_name := "iOS/tvOS" |});
    ("android",
     {| patterns :=
          [ pattern "^https:\/\/play\.google\.com\/store\/apps\/details\?id=([a-zA-Z0-9._]+)$" 4 ];
        bundlePattern := pattern "^[a-zA-Z0-9._]+$" 5;
        platform_name := "Android/AndroidTV" |});
    ("roku",
     {| patterns :=
          [ pattern "^https:\/\/channelstore\.roku\.com\/details\/([a-zA-Z0-9]+)\/.*$" 6;
            pattern "^https:\/\/channelstore\.roku\.com\/details\/(\d+)\/?$" 7 ];
        bundlePattern := pattern "^\d+$" 8;
        platform_name := "Roku OS" |});
    ("amazon",
     {| patterns :=
          [ pattern "^https:\/\/www\.amazon\.com\/.*\/dp\/([A-Z0-9]+)$" 9;
            pattern "^https:\/\/www\.amazon\.com\/dp\/([A-Z0-9]+)$" 10 ];
        bundlePattern := pattern "^[A-Z0-9]+$" 11;
        platform_name := "Fire OS" |});
    ("microsoft",
     {| patterns :=
          [ pattern "^https:\/\/www\.microsoft\.com\/.*\/p\/.*\/([a-z0-9]+)$" 12;
            pattern "^https:\/\/www\.microsoft\.com\/p\/.*\/([a-z0-9]+)$" 13 ];
        bundlePattern := pattern "^[a-z0-9]+$" 14;
        platform_name := "Microsoft" |});
    ("samsung",
     {| patterns :=
          [ pattern "^https:\/\/www\.samsung\.com\/us\/appstore\/app\/(G\d+)$" 15 ];
        bundlePattern := pattern "^G\d+$" 16;
        platform_name := "Tizen" |});
    ("lg",
     {| patterns :=
          [ pattern "^https:\/\/us\.lgappstv\.com\/main\/tvapp\/detail\?appId=(\d+)$" 17;
            pattern "^https:\/\/fr\.lgappstv\.com\/main\/tvapp\/detail\?appId=(\d+)$" 18 ];
        bundlePattern := pattern "^\d+$" 19;
        platform_name := "WebOS" |});
    ("playstation",
     {| patterns :=
          [ pattern "^https:\/\/store\.playstation\.com\/en-us\/product\/([A-Z0-9_-]+)$" 20 ];
        bundlePattern := pattern "^[A-Z0-9_-]+$" 21;
        platform_name := "Orbis OS" |});
    ("vizio",
     {| patterns :=
          [ pattern "^https:\/\/www\.vizio\.com\/smart-tv-apps\?appName=([a-zA-Z0-9]+)&appId=(vizio\.[a-zA-Z0-9]+)$" 22 ];
        bundlePattern := pattern "^vizio\.[a-zA-Z0-9]+$" 23;
        platform_name := "SmartCast" |});
    ("philips",
     {| patterns :=
          [ pattern "^https:\/\/www\.zeasn\.tv\/whaleeco\/appstore\/detail\?appid=(\d+)$" 24 ];
        bundlePattern := pattern "^\d+$" 25;
        platform_name := "AndroidTV" |});
    ("huawei",
     {| patterns :=
          [ pattern "^https:\/\/appgallery\.huawei\.com\/#\/app\/(C\d+)$" 26 ];
        bundlePattern := pattern "^C\d+$" 27;
        platform_name := "HarmonyOS" |}) ].

(** A data centre; [dc_continent] is [None] where the table has [null]. *)
Record DataCenter : Type := {
  dc_id : float;
  dc_name : string;
  dc_technical : string;
  dc_continent : option string;
  dc_city : string
}.

Definition datacenter (i : float) (n t : string) (c : option string) (city : string)
  : DataCenter :=
  {| dc_id := i; dc_name := n; dc_technical := t; dc_continent := c; dc_city := city |}.

Definition DATA_CENTERS : list DataCenter :=
  [ datacenter 2 "Telecity" EmptyString None EmptyString;
    datacenter 3 "Equinix" "eqx" (Some "Europe") "St Denis, Paris Area, FR";
    datacenter 4 "Interxion5" "itx5" (Some "Europe") "Velizy, Paris Area, FR";
    datacenter 5 "Terremark" "tmk" (Some "Americas") "Miami, Florida, US";
    datacenter 6 "Interxion4" "itx4" (Some "Europe") "Velizy, Paris Area, FR";
    datacenter 7 "China" EmptyString (Some "Asia") EmptyString;
    datacenter 8 "Apac" "sgp" (Some "Asia") "Singapore, SG";
    datacenter 10 "USW1" "usw1" (Some "Americas") "Los Angeles, CA, US";
    datacenter 11 "EUW1" "euw1" (Some "Europe") "Amsterdam, NL";
    datacenter 12 "USE1" "use1" (Some "Americas") "Washington, US";
    datacenter 13 "APAC1" "apac1" (Some "Asia") "Singapore, SG";
    datacenter 14 "EUW2" "euw2" (Some "Europe") "Gravelines, hauts-de-france, FR";
    datacenter 15 "EUW3-DATA" "euw3-data" (Some "Europe") EmptyString;
    datacenter 16 "USE2" "use2" (Some "Americas") "Warrenton, VA, US" ]%float.

Definition COUNTRY_CONTINENT_MAP : list (string * string) :=
  [ ("ASM", "Oceania"); ("BHS", "Americas"); ("BHR", "Asia"); ("BEL", "Europe");
    ("BMU", "Americas"); ("BOL", "Americas"); ("BRA", "Americas"); ("BRN", "Asia");
    ("BGR", "Europe"); ("TCD", "Africa"); ("CHL", "Americas"); ("CHN", "Asia");
    ("COL", "Americas"); ("COM", "Africa"); ("COK", "Oceania"); ("CZE", "Europe");
    ("DJI", "Africa"); ("DMA", "Americas"); ("DOM", "Americas"); ("EGY", "Africa");
    ("SLV", "Americas"); ("FJI", "Oceania"); ("GUF", "Americas"); ("DEU", "Europe");
    ("GHA", "Africa"); ("GRC", "Europe"); ("GRD", "Americas"); ("GUM", "Oceania");
    ("HTI", "Americas"); ("HND", "Americas"); ("IND", "Asia"); ("IDN", "Asia");
    ("IRN", "Asia"); ("ISR", "Asia"); ("JPN", "Asia"); ("KWT", "Asia");
    ("LSO", "Africa"); ("LIE", "Europe"); ("LTU", "Europe"); ("LUX", "Europe");
    ("MWI", "Africa"); ("MDV", "Asia"); ("MHL", "Oceania"); ("MTQ", "Americas");
    ("MRT", "Africa"); ("MEX", "Americas"); ("FSM", "Oceania"); ("MCO", "Europe");
    ("MNG", "Asia"); ("MOZ", "Africa"); ("NRU", "Oceania"); ("NCL", "Oceania");
    ("NGA", "Africa"); ("PAK", "Asia"); ("PER", "Americas"); ("PRT", "Europe");
    ("PRI", "Americas"); ("QAT", "Asia"); ("REU", "Africa"); ("KNA", "Americas");
    ("VCT", "Americas"); ("STP", "Africa"); ("SEN", "Africa"); ("SYC", "Africa");
    ("SGP", "Asia"); ("SVN", "Europe"); ("ZAF", "Africa"); ("SDN", "Africa");
    ("SWZ", "Africa"); ("CHE", "Europe"); ("TWN", "Asia"); ("TON", "Oceania");
    ("TUR", "Asia"); ("UGA", "Africa"); ("GBR", "Europe"); ("UZB", "Asia");
    ("VIR", "Americas"); ("ZMB", "Africa"); ("ZWE", "Africa"); ("AFG", "Asia");
    ("ALB", "Europe"); ("AND", "Europe"); ("AGO", "Africa"); ("AIA", "Americas");
    ("ARM", "Asia"); ("AUT", "Europe"); ("BTN", "Asia"); ("BFA", "Africa");
    ("BDI", "Africa"); ("CAN", "Americas"); ("CPV", "Africa"); ("CAF", "Africa");
    ("COD", "Africa"); ("CRI", "Americas"); ("CUB", "Americas"); ("CYP", "Asia");
    ("DNK", "Europe"); ("ECU", "Americas"); ("ETH", "Africa"); ("FLK", "Americas");
    ("FRO", "Europe"); ("FIN", "Europe"); ("GMB", "Africa"); ("GEO", "Asia");
    ("GNB", "Africa"); ("GUY", "Americas"); ("ISL", "Europe"); ("JOR", "Asia");
    ("KAZ", "Asia"); ("PRK", "Asia"); ("KOR", "Asia"); ("KGZ", "Asia");
    ("LAO", "Asia"); ("LVA", "Europe"); ("LBN", "Asia"); ("LBY", "Africa");
    ("MKD", "Europe"); ("MYS", "Asia"); ("MUS", "Africa"); ("MMR", "Asia");
    ("NER", "Africa"); ("NIU", "Oceania"); ("OMN", "Asia"); ("PLW", "Oceania");
    ("PNG", "Oceania"); ("PRY", "Americas"); ("PHL", "Asia"); ("RUS", "Asia");
    ("RWA", "Africa"); ("LCA", "Americas"); ("SMR", "Europe"); ("SAU", "Asia");
    ("SLE", "Africa"); ("SUR", "Americas"); ("SWE", "Europe"); ("TJK", "Asia");
    ("TZA", "Africa"); ("TGO", "Africa"); ("TTO", "Americas"); ("TKM", "Asia");
    ("TUV", "Oceania"); ("USA", "Americas"); ("VUT", "Oceania"); ("VEN", "Americas");
    ("YEM", "Asia"); ("DZA", "Africa"); ("ATG", "Americas"); ("ARG", "Americas");
    ("ABW", "Americas"); ("AUS", "Oceania"); ("AZE", "Asia"); ("BGD", "Asia");
    ("BRB", "Americas"); ("BLR", "Europe"); ("BLZ", "Americas"); ("BEN", "Africa");
    ("BIH", "Europe"); ("BWA", "Africa"); ("KHM", "Asia"); ("CMR", "Africa");
    ("CYM", "Americas"); ("CXR", "Asia"); ("COG", "Africa"); ("GNQ", "Africa");
    ("ERI", "Africa"); ("EST", "Europe"); ("FRA", "Europe"); ("PYF", "Oceania");
    ("GAB", "Africa"); ("GIB", "Europe"); ("GRL", "Americas"); ("GLP", "Americas");
    ("GTM", "Americas"); ("GIN", "Africa"); ("HUN", "Europe"); ("IRQ", "Asia");
    ("IRL", "Europe"); ("ITA", "Europe"); ("JAM", "Americas"); ("KEN", "Africa");
    ("KIR", "Oceania"); ("LBR", "Africa"); ("MDG", "Africa"); ("MLI", "Africa");
    ("MLT", "Europe"); ("MYT", "Africa"); ("MDA", "Europe"); ("MSR", "Americas");
    ("MAR", "Africa"); ("NAM", "Africa"); ("NPL", "Asia"); ("NLD", "Europe");
    ("NIC", "Americas"); ("NFK", "Oceania"); ("MNP", "Oceania"); ("NOR", "Europe");
    ("PAN", "Americas"); ("POL", "Europe"); ("ROU", "Europe"); ("WSM", "Oceania");
    ("SVK", "Europe"); ("SLB", "Oceania"); ("SOM", "Africa"); ("ESP", "Europe");
    ("LKA", "Asia"); ("SYR", "Asia"); ("THA", "Asia"); ("TUN", "Africa");
    ("TCA", "Americas"); ("UKR", "Europe"); ("ARE", "Asia"); ("URY", "Americas");
    ("VNM", "Asia"); ("VGB", "Americas"); ("WLF", "Oceania"); ("CIV", "Africa");
    ("HRV", "Europe"); ("VAT", "Europe"); ("NZL", "Oceania"); ("SHN", "Africa");
    ("SPM", "Americas"); ("SJM", "Europe"); ("TKL", "Oceania"); ("CCK", "Asia");
    ("PCN", "Oceania"); ("ESH", "Africa") ].

(** [COUNTRY_CONTINENT_MAP[key]]: the entry of the table, or what an
    object literal inherits under that name. *)
Definition continent_of (key : string) : value :=
  match assoc key COUNTRY_CONTINENT_MAP with
  | Some c => VStr c
  | None => object_member key
  end.

(** The source texts of the pattern literals of the validator. *)
Definition macroPattern : string := "\[[\w_]+\]|\{[\w_]+\}".

Definition ipv4Regex : string :=
  "^(?:(?:25[0-5]|2[0-4][0-9]|[01]?[0-9][0-9]?)\.){3}(?:25[0-5]|2[0-4][0-9]|[01]?[0-9][0-9]?)$".

Definition ipv6Regex : string := "^(?:[0-9a-fA-F]{1,4}:){7}[0-9a-fA-F]{1,4}$".

Definition registry_objects : list RegExp :=
  flat_map (fun pc => (patterns (snd pc) ++ [bundlePattern (snd pc)])%list) STORE_URL_PATTERNS.

Definition all_sources : list string :=
  macroPattern :: ipv4Regex :: ipv6Regex
    :: map (fun r => Regex.source (lit r)) registry_objects.

(** ** Helper predicates *)

(** [containsMacros]: the pattern is global, and a new object at each
    call. *)
Definition containsMacros (text : string) : bool := fresh_test macroPattern true text.

(** [isValidIPv4] and [isValidIPv6]; [test] converts its argument to a
    string. *)
Definition isValidIPv4 (ip : result value) : result bool :=
  rbind ip (fun v => rbind (toString v) (fun s => Ok (fresh_test ipv4Regex false s))).

Definition isValidIPv6 (ip : result value) : result bool :=
  rbind ip (fun v => rbind (toString v) (fun s => Ok (fresh_test ipv6Regex false s))).

Definition isTruncatedIP (ip : result value) : result bool :=
  endsWith ip ".0" ||| includes ip (VStr "xxx") ||| includes ip (VStr "***").

Definition isTruncatedIPv6 (ipv6 : result value) : result bool :=
  includes ipv6 (VStr "::") &&& ltR (ipv6 # "length") (VNum 15).

(** ** Characteristic detector *)

Local Open Scope res_scope.

(** One turn of the loop over the impressions: the labels and the MIME
    types collected so far, extended with those of [imp]. *)
Definition detect_imp (acc : list string * list value) (imp : value)
  : result (list string * list value) :=
  let '(types, mediaFormats) := acc in
  hasVideo <- T (imp # "video") ;;
  a1 <- (if hasVideo then
           mimes <- imp # "video" # "mimes" ;;
           if truthy mimes then
             m <- spread mimes ;; Ok ((types ++ ["Video"])%list, (mediaFormats ++ m)%list)
           else Ok ((types ++ ["Video"])%list, mediaFormats)
         else Ok (types, mediaFormats)) ;;
  hasNative <- T (imp # "native") ;;
  let a2 := if hasNative then ((fst a1 ++ ["Native"])%list, snd a1) else a1 in
  hasBanner <- T (imp # "banner") ;;
  let a3 := if hasBanner then ((fst a2 ++ ["Display"])%list, snd a2) else a2 in
  hasAudio <- T (imp # "audio") ;;
  Ok (if hasAudio then ((fst a3 ++ ["Audio"])%list, snd a3) else a3).

Fixpoint detect_imps (l : list value) (acc : list string * list value)
  : result (list string * list value) :=
  match l with
  | [] => Ok acc
  | imp :: r => a <- detect_imp acc imp ;; detect_imps r a
  end.

Definition hasPodid (imp : value) : result bool := T (imp # "video" #? "podid").
Definition hasPoddur (imp : value) : result bool := T (imp # "video" #? "poddur").

(** The parts of [detectBidRequestCharacteristics], in its order. *)

(** Primary type and media formats, from the impressions. *)
Definition detect_formats (bidRequest : value) : result (string * option (list value)) :=
  c <- T (bidRequest # "imp") &&& isArr (bidRequest # "imp") ;;
  if c then
    l <- elems (bidRequest # "imp") ;;
    a <- detect_imps l ([], []) ;;
    Ok (match fst a with
        | [] => "Unknown"
        | types => Str.join ", " types
        end,
        Some (dedupe (snd a) []))
  else Ok ("Unknown", None).

Definition detect_platform (bidRequest : value) : result (option string) :=
  hasApp <- T (bidRequest # "app") ;;
  if hasApp then Ok (Some "Mobile App")
  else
    hasSite <- T (bidRequest # "site") ;;
    Ok (if hasSite then Some "Website" else None).

Definition detect_device (bidRequest : value) : result (option string) :=
  hasDevice <- T (bidRequest # "device") ;;
  if hasDevice then
    device <- bidRequest # "device" ;;
    t <- device # "devicetype" ;;
    let label :=
      if eq_num t 1 then "Mobile/Tablet"
      else if eq_num t 2 then "Desktop"
      else if eq_num t 5 then "Connected TV"
      else if eq_num t 6 then "Digital Out-of-Home"
      else if eq_num t 7 then "Phone"
      else EmptyString in
    os <- device # "os" ;;
    if truthy os then
      s <- template [Ok (VStr " ("); Ok os; Ok (VStr ")")] ;;
      Ok (Some (label ++ s))
    else Ok (Some label)
  else Ok None.

Definition detect_privacy (bidRequest : value) : result (list string) :=
  gdpr <- eqN (bidRequest # "regs" #? "ext" #? "gdpr") 1 ;;
  consent <- T (bidRequest # "user" #? "ext" #? "consent") ;;
  usp <- T (bidRequest # "regs" #? "ext" #? "us_privacy") ;;
  gpp <- T (bidRequest # "regs" #? "gpp") ;;
  Ok ((if gdpr then ["GDPR Applicable"] else [])
      ++ (if consent then ["TCF String Present"] else [])
      ++ (if usp then ["CCPA String Present"] else [])
      ++ (if gpp then ["GPP String Present"] else []))%list.

Definition detect_pod (bidRequest : value) : result (option bool * option AdPodDetails) :=
  c <- T (bidRequest # "imp") &&& rbind (elems (bidRequest # "imp")) (some hasPodid) ;;
  if c then
    l <- elems (bidRequest # "imp") ;;
    withId <- filter hasPodid l ;;
    l' <- elems (bidRequest # "imp") ;;
    withDur <- filter hasPoddur l' ;;
    total <- reduce (fun sum imp =>
                       d <- imp # "video" # "poddur" ;;
                       add sum (or d (VNum 0)))
                    withDur (VNum 0) ;;
    Ok (Some true, Some {| slots := List.length withId; totalDuration := total |})
  else Ok (None, None).

Definition detectBidRequestCharacteristics (bidRequest : value)
  : result DetectedCharacteristics :=
  formats <- detect_formats bidRequest ;;
  plat <- detect_platform bidRequest ;;
  info <- detect_device bidRequest ;;
  signals <- detect_privacy bidRequest ;;
  pod <- detect_pod bidRequest ;;
  Ok {| primaryType := fst formats;
        mediaFormats := snd formats;
        platform := plat;
        deviceInfo := info;
        privacySignals := Some signals;
        isAdPod := fst pod;
        adPodDetails := snd pod |}.

Local Close Scope res_scope.

(** ** Category validators *)

(** [e.trim() === ''] *)
Definition trimIsEmpty (e : result value) : result bool :=
  rbind e (fun v =>
    match v with
    | VStr s => Ok (String.eqb (Str.trim s) EmptyString)
    | _ => Throw TypeError
    end).

Definition validateCoreBidRequest (bidRequest : value) : M unit :=
  hasSite <- lift (T (bidRequest # "site")) ;;
  hasApp <- lift (T (bidRequest # "app")) ;;
  when (Ok (negb hasSite && negb hasApp))
    (emit "EQ-BR-001" error "BidRequest"
       "BidRequest must contain either a site or an app object"
       None (Some "Either site or app object")) ;;
  when (F (bidRequest # "device"))
    (emit "EQ-BR-002" error "BidRequest.device"
       "BidRequest must contain a device object"
       None (Some "Device object")) ;;
  when (F (bidRequest # "imp") ||| notR (isArr (bidRequest # "imp"))
        ||| eqN (bidRequest # "imp" # "length") 0)
    (emit "EQ-BR-003" error "BidRequest.imp"
       "BidRequest must contain a non-empty impression array"
       None (Some "Non-empty array of impressions")) ;;
  when (F (bidRequest # "source"))
    (emit "EQ-BR-004" error "BidRequest.source"
       "BidRequest must contain a source object"
       None (Some "Source object")) ;;
  when (F (bidRequest # "user"))
    (emit "EQ-BR-005" error "BidRequest.user"
       "BidRequest must contain a user object"
       None (Some "User object")) ;;
  when (notU (bidRequest # "ext" #? "partnerIsCalled")
        &&& notR (test eq_true (bidRequest # "ext" # "partnerIsCalled")))
    (emit "EQ-BR-006" error "BidRequest.ext.partnerIsCalled"
       "partnerIsCalled must be true when present"
       (Some (bidRequest # "ext" # "partnerIsCalled")) (Some "true")) ;;
  when (F (bidRequest # "id") ||| typeIsNot (bidRequest # "id") "string"
        ||| trimIsEmpty (bidRequest # "id"))
    (emit "Core-BR-001" error "BidRequest.id"
       "BidRequest.id must be present and be a non-empty string"
       (Some (bidRequest # "id")) (Some "Non-empty string")) ;;
  ifM (F (bidRequest # "imp"))
    (emit "Core-BR-002" error "BidRequest.imp"
       "BidRequest.imp array must be present"
       None (Some "Array of impression objects"))
    (when (notR (isArr (bidRequest # "imp")) ||| eqN (bidRequest # "imp" # "length") 0)
       (emit "Core-BR-003" error "BidRequest.imp"
          "BidRequest.imp must be a non-empty array"
          (Some (bidRequest # "imp")) (Some "Non-empty array"))) ;;
  when (isU (bidRequest # "at") ||| typeIsNot (bidRequest # "at") "number")
    (emit "Core-BR-004" error "BidRequest.at"
       "BidRequest.at (auction type) must be present and be an integer"
       (Some (bidRequest # "at")) (Some "Integer (typically 1 or 2)")) ;;
  when (Ok (hasSite && hasApp))
    (emit "Core-BR-006" error "BidRequest"
       "BidRequest must not contain both site and app objects"
       (Some (val (VStr "Both site and app present"))) (Some "Either site or app, not both")) ;;
  when (notU (bidRequest # "test") &&& neN (bidRequest # "test") 0
        &&& neN (bidRequest # "test") 1)
    (emit "Core-BR-007" warning "BidRequest.test"
       "test should be 0 (production) or 1 (test)"
       (Some (bidRequest # "test")) (Some "0 or 1")) ;;
  when (F (bidRequest # "tmax") ||| leR (bidRequest # "tmax") (VNum 0))
    (emit "Core-BR-009" warning "BidRequest.tmax"
       "tmax (timeout) should be present and greater than 0"
       (Some (bidRequest # "tmax")) (Some "Positive integer (milliseconds)")).

(** The patterns of one platform, tried in order; [true] once one has
    matched, which ends the search. *)
Fixpoint try_patterns (platform : string) (config : StoreConfig) (ps : list RegExp)
    (storeUrl bundle : string) : M bool :=
  match ps with
  | [] => ret false
  | pattern :: rest =>
      m <- match_ storeUrl pattern ;;
      match m with
      | Some mt =>
          let extractedBundle := Regex.group mt 1 in
          ok <- test_ (bundlePattern config) bundle ;;
          when (Ok (negb ok))
            (emit ("EQ-App-" ++ Str.toUpperCase platform ++ "-010") error "BidRequest.app.bundle"
               (platform ++ ": bundle must match store-specific pattern")
               (Some (val (VStr bundle)))
               (Some ("Pattern: " ++ Regex.source (lit (bundlePattern config))))) ;;
          when (Ok (negb (eq_str extractedBundle bundle)))
            (msg <- lift (template [val (VStr "Bundle ID mismatch: bundle ("); val (VStr bundle);
                                    val (VStr ") doesn't match store URL (");
                                    val extractedBundle; val (VStr ")")]) ;;
             emit ("EQ-App-" ++ Str.toUpperCase platform ++ "-015") error "BidRequest.app"
               msg
               (Some (val (VStr bundle)))
               (match extractedBundle with VStr s => Some s | _ => None end)) ;;
          ret true
      | None => try_patterns platform config rest storeUrl bundle
      end
  end.

Fixpoint try_platforms (entries : list (string * StoreConfig)) (storeUrl bundle : string)
  : M bool :=
  match entries with
  | [] => ret false
  | (platform, config) :: rest =>
      found <- try_patterns platform config (patterns config) storeUrl bundle ;;
      if found then ret true else try_platforms rest storeUrl bundle
  end.

Definition validateStoreUrlAndBundle (storeUrl bundle : string) : M unit :=
  foundMatch <- try_platforms STORE_URL_PATTERNS storeUrl bundle ;;
  when (Ok (negb foundMatch))
    (emit "EQ-App-016" error "BidRequest.app.storeurl"
       "Store URL does not match any known platform patterns"
       (Some (val (VStr storeUrl))) (Some "Valid store URL for supported platforms")).

Definition validateCountryDatacenterMatch (country datacenterId : value) : M unit :=
  let countryContinent := rbind (toString country) (fun k => Ok (continent_of k)) in
  ifM (F datacenterId ||| F countryContinent)
    (ret tt)
    (match find (fun dc => eq_num datacenterId (dc_id dc)) DATA_CENTERS with
     | None => ret tt
     | Some datacenter =>
         match dc_continent datacenter with
         | None => ret tt
         | Some continent =>
             when (notR (test (fun c => eq_str c continent) countryContinent))
               (emit "EQ-Device-024" warning "BidRequest.device.geo.country"
                  "Country continent mismatch with datacenter continent"
                  (Some (str (template
                     [val country; val (VStr " ("); countryContinent;
                      val (VStr ") vs Datacenter: "); val (VStr (dc_name datacenter));
                      val (VStr " ("); val (VStr continent); val (VStr ")")])))
                  (Some "Country continent should match datacenter continent"))
         end
     end).

Definition eqS (e : result value) (s : string) : result bool := test (fun v => eq_str v s) e.

Definition zero_ifa : string := "00000000-0000-0000-0000-000000000000".

Definition validateDevice (bidRequest : value) : M unit :=
  ifM (F (bidRequest # "device")) (ret tt)
  (device <- lift (bidRequest # "device") ;;
   ifM (F (device # "geo"))
     (emit "EQ-Device-022" error "BidRequest.device.geo"
        "device.geo object must be present"
        None (Some "Geo object"))
     (ifM (F (device # "geo" # "country"))
        (emit "EQ-Device-023" error "BidRequest.device.geo.country"
           "device.geo.country must be present"
           None (Some "ISO 3166-1 Alpha-3 country code"))
        (country <- lift (device # "geo" # "country") ;;
         datacenterId <- lift (bidRequest # "ext" #? "auctionDatacenterId") ;;
         validateCountryDatacenterMatch country datacenterId)) ;;
   when (F (device # "make"))
     (emit "EQ-Device-025" error "BidRequest.device.make"
        "device.make must be present"
        None (Some "Device manufacturer string")) ;;
   when (F (device # "model"))
     (emit "EQ-Device-026" error "BidRequest.device.model"
        "device.model must be present"
        None (Some "Device model string")) ;;
   ifM (F (device # "ifa"))
     (emit "EQ-Device-027" error "BidRequest.device.ifa"
        "device.ifa (ID for Advertising) must be present"
        None (Some "Valid advertising identifier"))
     (when (eqS (device # "ifa") zero_ifa &&& neN (device # "ext" #? "truncated_ip") 1)
        (emit "EQ-Device-032" error "BidRequest.device.ext.truncated_ip"
           "truncated_ip flag must be set to 1 when device.ifa is all zeros"
           (Some (device # "ext" #? "truncated_ip")) (Some "1"))) ;;
   when (F (device # "ip") &&& F (device # "ipv6"))
     (emit "EQ-Device-028" error "BidRequest.device"
        "device must contain either ip (IPv4) or ipv6"
        None (Some "Valid IP address")) ;;
   when (T (device # "ip") &&& notR (isValidIPv4 (device # "ip")))
     (emit "EQ-Device-029" error "BidRequest.device.ip"
        "device.ip must be a valid IPv4 address"
        (Some (device # "ip")) (Some "Valid IPv4 address")) ;;
   when (T (device # "ip") &&& isTruncatedIP (device # "ip")
         &&& neN (device # "ext" #? "truncated_ip") 1)
     (emit "EQ-Device-030" error "BidRequest.device.ext.truncated_ip"
        "truncated_ip flag must be set to 1 when device.ip is truncated"
        (Some (device # "ext" #? "truncated_ip")) (Some "1")) ;;
   when (T (device # "ipv6") &&& isTruncatedIPv6 (device # "ipv6")
         &&& neN (device # "ext" #? "truncated_ip") 1)
     (emit "EQ-Device-031" error "BidRequest.device.ext.truncated_ip"
        "truncated_ip flag must be set to 1 when device.ipv6 is truncated"
        (Some (device # "ext" #? "truncated_ip")) (Some "1")) ;;
   when (isU (device # "devicetype"))
     (emit "EQ-Device-033" error "BidRequest.device.devicetype"
        "device.devicetype must be present"
        None (Some "Integer 1-7")) ;;
   when (F (device # "ua"))
     (emit "EQ-Device-034" error "BidRequest.device.ua"
        "device.ua (User Agent) must be present"
        None (Some "User Agent string")) ;;
   when (eqN (device # "ext" #? "is_app") 1 &&& F (bidRequest # "app"))
     (emit "EQ-Device-035" error "BidRequest.device.ext.is_app"
        "device.ext.is_app=1 but no app object present"
        None (Some "App object when is_app=1")) ;;
   when (F (device # "ua") ||| typeIsNot (device # "ua") "string")
     (emit "Core-Device-001" error "BidRequest.device.ua"
        "device.ua (User Agent) must be present and be a string"
        (Some (device # "ua")) (Some "User Agent string")) ;;
   hasIP <- lift (T (device # "ip")) ;;
   hasIPv6 <- lift (T (device # "ipv6")) ;;
   when (Ok (negb hasIP && negb hasIPv6))
     (emit "Core-Device-002" error "BidRequest.device"
        "device must contain either ip (IPv4) or ipv6"
        None (Some "Valid IP address")) ;;
   when (Ok hasIP &&& notR (isValidIPv4 (device # "ip")))
     (emit "Core-Device-003" error "BidRequest.device.ip"
        "device.ip must be a valid IPv4 address"
        (Some (device # "ip")) (Some "Valid IPv4 address")) ;;
   when (Ok hasIPv6 &&& notR (isValidIPv6 (device # "ipv6")))
     (emit "Core-Device-004" error "BidRequest.device.ipv6"
        "device.ipv6 must be a valid IPv6 address"
        (Some (device # "ipv6")) (Some "Valid IPv6 address")) ;;
   when (isU (device # "devicetype") ||| notR (isInt (device # "devicetype"))
         ||| ltR (device # "devicetype") (VNum 1) ||| ltR (VNum 7) (device # "devicetype"))
     (emit "Core-Device-005" error "BidRequest.device.devicetype"
        "device.devicetype must be an integer between 1-7"
        (Some (device # "devicetype")) (Some "Integer 1-7")) ;;
   ifM (F (device # "geo"))
     (emit "Core-Device-006" error "BidRequest.device.geo"
        "device.geo object must be present"
        None (Some "Geo object with country"))
     (ifM (F (device # "geo" # "country") ||| typeIsNot (device # "geo" # "country") "string")
        (emit "Core-Device-007" error "BidRequest.device.geo.country"
           "device.geo.country must be present and be a string"
           (Some (device # "geo" # "country")) (Some "ISO 3166-1 Alpha-3 country code"))
        (when (neN (device # "geo" # "country" # "length") 3)
           (emit "Core-Device-008" error "BidRequest.device.geo.country"
              "device.geo.country must be a valid ISO 3166-1 Alpha-3 code"
              (Some (device # "geo" # "country"))
              (Some ("3-letter country code (e.g., " ++ Str.dq ++ "USA" ++ Str.dq ++ ")"))))) ;;
   when (neN (device # "lmt") 1 &&& (F (device # "ifa") ||| eqS (device # "ifa") zero_ifa))
     (emit "Core-Device-009" warning "BidRequest.device.ifa"
        "device.ifa (ID for Advertising) should be present unless lmt=1"
        (Some (device # "ifa")) (Some "Valid advertising ID"))).

Definition validateVideoImpressionRules (video : value) (impIndex : nat) : M unit :=
  let basePath := "BidRequest.imp[" ++ Str.of_nat impIndex ++ "].video" in
  when (T (video # "minduration") &&& T (video # "maxduration"))
    (durationDiff <- lift (rbind (video # "maxduration") (fun a =>
                           rbind (video # "minduration") (fun b => arith PrimFloat.sub a b))) ;;
     when (Ok (PrimFloat.ltb durationDiff 30))
       (emit "EQ-Video-037" error basePath
          "imp.video.maxduration - imp.video.minduration must be greater than 30 seconds"
          (Some (str (template [val (VNum durationDiff); val (VStr " seconds")])))
          (Some "Greater than 30 seconds"))) ;;
  when (F (video # "playbackmethod"))
    (emit "EQ-Video-038" error (basePath ++ ".playbackmethod")
       "imp.video.playbackmethod must be defined"
       None (Some "Array of playback method integers")) ;;
  when (isU (video # "placement"))
    (emit "EQ-Video-039" error (basePath ++ ".placement")
       "imp.video.placement must be defined"
       None (Some "Integer placement type")) ;;
  when (eqN (video # "placement") 1 &&& T (video # "playbackmethod")
        &&& notR (includes (video # "playbackmethod") (VNum 1)))
    (emit "EQ-Video-040" error (basePath ++ ".playbackmethod")
       "imp.video.playbackmethod must include 1 (Autoplay Sounds On) for In-Stream placement"
       (Some (video # "playbackmethod")) (Some "Array including 1")) ;;
  when (isU (video # "linearity"))
    (emit "EQ-Video-041" error (basePath ++ ".linearity")
       "imp.video.linearity must be defined"
       None (Some "Integer linearity type")) ;;
  when (isU (video # "pos"))
    (emit "EQ-Video-042" error (basePath ++ ".pos")
       "imp.video.pos (position) must be set"
       None (Some "Integer position value")) ;;
  when (F (video # "protocols"))
    (emit "EQ-Video-043" error (basePath ++ ".protocols")
       "imp.video.protocols must be defined"
       None (Some "Array of protocol integers")) ;;
  ifM (F (video # "mimes") ||| notR (isArr (video # "mimes")))
    (emit "EQ-Video-044" error (basePath ++ ".mimes")
       "imp.video.mimes must be defined as an array"
       (Some (video # "mimes")) (Some "Array of MIME type strings"))
    (when (notR (includes (video # "mimes") (VStr "video/mp4")))
       (emit "EQ-Video-045" warning (basePath ++ ".mimes")
          "video/mp4 mime is not set. Usually video bid requests contain video/mp4 mimes"
          (Some (video # "mimes"))
          (Some ("Array including " ++ Str.dq ++ "video/mp4" ++ Str.dq)))) ;;
  when (F (video # "w"))
    (emit "EQ-Video-046" error (basePath ++ ".w")
       "imp.video.w (width) must be defined"
       None (Some "Integer width")) ;;
  when (F (video # "h"))
    (emit "EQ-Video-047" error (basePath ++ ".h")
       "imp.video.h (height) must be defined"
       None (Some "Integer height")) ;;
  ifM (isU (video # "startdelay"))
    (emit "EQ-Video-049" warning (basePath ++ ".startdelay")
       "imp.video.startdelay is recommended"
       None (Some "Integer start delay"))
    (when (notR (isInt (video # "startdelay")))
       (emit "EQ-Video-050" error (basePath ++ ".startdelay")
          "imp.video.startdelay must be an integer (positive, negative or zero)"
          (Some (video # "startdelay")) (Some "Integer value"))).

(** The callback of [validateImpressions]; [impIds] is the set of ids
    seen so far, which the callback shares with the turns before it. *)
Definition validateImpression (impIds : list string) (imp : value) (index : nat)
  : M (list string) :=
  let basePath := "BidRequest.imp[" ++ Str.of_nat index ++ "]" in
  when (notU (imp # "secure") &&& neN (imp # "secure") 0 &&& neN (imp # "secure") 1)
    (emit "EQ-Imp-036" error (basePath ++ ".secure")
       "imp.secure must be either 0 or 1"
       (Some (imp # "secure")) (Some "0 or 1")) ;;
  when (T (imp # "video"))
    (video <- lift (imp # "video") ;; validateVideoImpressionRules video index) ;;
  when (T (imp # "video") &&& F (imp # "ext" #? "wopv"))
    (emit "EQ-Imp-048" warning (basePath ++ ".ext.wopv")
       "imp.ext.wopv is recommended for video impressions"
       None (Some "WOPV (Won on Programmatic Video) flag")) ;;
  impIds' <-
    ifM (F (imp # "id") ||| typeIsNot (imp # "id") "string")
      (emit "Core-Imp-001" error (basePath ++ ".id")
         "Each impression must contain a unique id (string)"
         (Some (imp # "id")) (Some "Non-empty string") ;;
       ret impIds)
      (i <- lift (rbind (imp # "id") toString) ;;
       if mem i impIds then
         emit "Core-Imp-001b" error (basePath ++ ".id")
           "Impression id must be unique within the request"
           (Some (imp # "id")) (Some "Unique string") ;;
         ret impIds
       else ret (impIds ++ [i])%list) ;;
  hasVideo <- lift (T (imp # "video")) ;;
  hasNative <- lift (T (imp # "native")) ;;
  hasBanner <- lift (T (imp # "banner")) ;;
  let mediaCount := List.length (List.filter (fun b => b) [hasVideo; hasNative; hasBanner]) in
  (if Nat.eqb mediaCount 0 then
     emit "Core-Imp-002" error basePath
       "Each impression must contain either video, native, or banner object"
       None (Some "One of: video, native, or banner")
   else
     when (Ok (Nat.ltb 1 mediaCount))
       (emit "Core-Imp-003" error basePath
          "Each impression must contain only one of video, native, or banner"
          (Some (val (VStr "Multiple media types present")))
          (Some "Only one of: video, native, or banner"))) ;;
  when (notU (imp # "bidfloor"))
    (when (typeIsNot (imp # "bidfloor") "number" ||| ltR (imp # "bidfloor") (VNum 0))
       (emit "Core-Imp-004" warning (basePath ++ ".bidfloor")
          "bidfloor must be a non-negative number"
          (Some (imp # "bidfloor")) (Some "Non-negative number")) ;;
     when (F (imp # "bidfloorcur"))
       (emit "Core-Imp-005" error (basePath ++ ".bidfloorcur")
          "bidfloorcur must be present when bidfloor is specified"
          None (Some ("Currency code (e.g., " ++ Str.dq ++ "USD" ++ Str.dq ++ ")")))) ;;
  when (notU (imp # "secure") &&& neN (imp # "secure") 0 &&& neN (imp # "secure") 1)
    (emit "Core-Imp-006" error (basePath ++ ".secure")
       "secure must be 0 or 1"
       (Some (imp # "secure")) (Some "0 or 1")) ;;
  ret impIds'.

Fixpoint validateImpressions_from (l : list value) (index : nat) (impIds : list string)
  : M unit :=
  match l with
  | [] => ret tt
  | imp :: r =>
      impIds' <- validateImpression impIds imp index ;;
      validateImpressions_from r (S index) impIds'
  end.

Definition validateImpressions (bidRequest : value) : M unit :=
  ifM (F (bidRequest # "imp") ||| notR (isArr (bidRequest # "imp"))) (ret tt)
    (l <- lift (elems (bidRequest # "imp")) ;;
     validateImpressions_from l O []).

Definition expectedRatio : float := (16 / 9)%float.
Definition tolerance : float := 0.1%float.

Definition validateCTV (bidRequest : value) : M unit :=
  ifM (F (bidRequest # "device") ||| neN (bidRequest # "device" # "devicetype") 5) (ret tt)
  (when (F (bidRequest # "app"))
     (emit "EQ-CTV-054" error "BidRequest.app"
        "app object must be defined for CTV requests"
        None (Some "App object for CTV application")) ;;
   when (T (bidRequest # "imp"))
     (forEach (bidRequest # "imp") (fun imp index =>
        ifM (F (imp # "video")) (ret tt)
        (video <- lift (imp # "video") ;;
         let basePath := "BidRequest.imp[" ++ Str.of_nat index ++ "].video" in
         ifM (isU (video # "pos"))
           (emit "EQ-CTV-051" error (basePath ++ ".pos")
              "CTV: imp.video.pos must be defined"
              None (Some "Integer position value"))
           (when (neN (video # "pos") 7)
              (emit "EQ-CTV-052" error (basePath ++ ".pos")
                 "CTV: imp.video.pos must be set to 7 (Full Screen)"
                 (Some (video # "pos")) (Some "7"))) ;;
         when (T (video # "w") &&& T (video # "h"))
           (aspectRatio <- lift (rbind (video # "w") (fun a =>
                                 rbind (video # "h") (fun b => arith PrimFloat.div a b))) ;;
            when (Ok (PrimFloat.ltb tolerance
                        (PrimFloat.abs (PrimFloat.sub aspectRatio expectedRatio))))
              (emit "EQ-CTV-053" error basePath
                 "CTV: imp.video.h and imp.video.w should match a 16:9 aspect ratio"
                 (Some (str (template
                    [video # "w"; val (VStr "x"); video # "h"; val (VStr " (");
                     val (VStr (Num.toFixed aspectRatio 2)); val (VStr ":1)")])))
                 (Some "16:9 aspect ratio")))))) ;;
   when (F (bidRequest # "imp")
         ||| notR (rbind (elems (bidRequest # "imp")) (some (fun imp => T (imp # "video")))))
     (emit "CTV-001" error "BidRequest.imp"
        "CTV requests must contain video impressions"
        None (Some "At least one impression with video object")) ;;
   when (F (bidRequest # "app"))
     (emit "CTV-002" error "BidRequest.app"
        "CTV requests must contain app object"
        None (Some "App object for CTV application")) ;;
   device <- lift (bidRequest # "device") ;;
   when (F (device # "ifa") &&& F (device # "ext" #? "ids" #? "idfa")
         &&& F (device # "ext" #? "ids" #? "rida"))
     (emit "CTV-003" error "BidRequest.device"
        "CTV requests must contain device.ifa or equivalent ID"
        None (Some "Valid device identifier")) ;;
   when (F (device # "make") ||| F (device # "model"))
     (emit "CTV-004" error "BidRequest.device"
        "CTV requests must contain device.make and device.model"
        (Some (str (template
           [val (VStr "make: "); device # "make"; val (VStr ", model: "); device # "model"])))
        (Some "Both make and model strings")) ;;
   when (T (bidRequest # "imp"))
     (forEach (bidRequest # "imp") (fun imp index =>
        ifM (F (imp # "video")) (ret tt)
        (video <- lift (imp # "video") ;;
         let basePath := "BidRequest.imp[" ++ Str.of_nat index ++ "].video" in
         when (neN (video # "placement") 1)
           (emit "CTV-005" error (basePath ++ ".placement")
              "CTV video placement must be 1 (In-Stream)"
              (Some (video # "placement")) (Some "1")) ;;
         when (neN (video # "linearity") 1)
           (emit "CTV-006" error (basePath ++ ".linearity")
              "CTV video linearity must be 1 (Linear)"
              (Some (video # "linearity")) (Some "1")) ;;
         when (neN (video # "pos") 7)
           (emit "CTV-007" error (basePath ++ ".pos")
              "CTV video pos must be 7 (Full Screen)"
              (Some (video # "pos")) (Some "7")))))).

Definition validateEquativRules (bidRequest : value) : M unit :=
  when (F (bidRequest # "source" #? "schain") &&& F (bidRequest # "source" #? "ext" #? "schain"))
    (emit "EQ-Source-021" error "BidRequest.source.schain"
       "source.schain must be defined"
       None (Some "Supply chain object")).

Definition validateVideo (bidRequest : value) : M unit :=
  ifM (F (bidRequest # "imp")) (ret tt)
  (forEach (bidRequest # "imp") (fun imp index =>
     ifM (F (imp # "video")) (ret tt)
     (video <- lift (imp # "video") ;;
      let basePath := "BidRequest.imp[" ++ Str.of_nat index ++ "].video" in
      ifM (F (video # "mimes") ||| notR (isArr (video # "mimes"))
           ||| eqN (video # "mimes" # "length") 0)
        (emit "Video-V-001" error (basePath ++ ".mimes")
           "video.mimes must be present and be a non-empty array of strings"
           (Some (video # "mimes"))
           (Some ("Array of MIME types (e.g., [" ++ Str.dq ++ "video/mp4" ++ Str.dq ++ "])")))
        (ifM (notR (rbind (elems (video # "mimes"))
                      (every (fun mime => typeIs mime "string"))))
           (emit "Video-V-002" error (basePath ++ ".mimes")
              "video.mimes must contain only strings"
              (Some (video # "mimes")) (Some "Array of string MIME types"))
           (when (notR (includes (video # "mimes") (VStr "video/mp4")))
              (emit "Video-V-003" warning (basePath ++ ".mimes")
                 ("video.mimes should typically include " ++ Str.dq ++ "video/mp4" ++ Str.dq)
                 (Some (video # "mimes"))
                 (Some ("Array including " ++ Str.dq ++ "video/mp4" ++ Str.dq))))) ;;
      when (isU (video # "minduration") ||| notR (isInt (video # "minduration")))
        (emit "Video-V-004" error (basePath ++ ".minduration")
           "video.minduration must be present and be an integer"
           (Some (video # "minduration")) (Some "Integer (seconds)")) ;;
      when (isU (video # "maxduration") ||| notR (isInt (video # "maxduration")))
        (emit "Video-V-005" error (basePath ++ ".maxduration")
           "video.maxduration must be present and be an integer"
           (Some (video # "maxduration")) (Some "Integer (seconds)")) ;;
      when (T (video # "minduration") &&& T (video # "maxduration")
            &&& ltR (video # "maxduration") (video # "minduration"))
        (emit "Video-V-006" error basePath
           "video.maxduration must be greater than or equal to minduration"
           (Some (str (template
              [val (VStr "min: "); video # "minduration";
               val (VStr ", max: "); video # "maxduration"])))
           (Some "maxduration >= minduration")) ;;
      when (F (video # "protocols") ||| notR (isArr (video # "protocols"))
            ||| eqN (video # "protocols" # "length") 0)
        (emit "Video-V-007" error (basePath ++ ".protocols")
           "video.protocols must be present and be a non-empty array of integers"
           (Some (video # "protocols")) (Some "Array of protocol integers")) ;;
      when (isU (video # "w") ||| notR (isInt (video # "w")) ||| leR (video # "w") (VNum 0))
        (emit "Video-V-008" error (basePath ++ ".w")
           "video.w (width) must be present and be a positive integer"
           (Some (video # "w")) (Some "Positive integer")) ;;
      when (isU (video # "h") ||| notR (isInt (video # "h")) ||| leR (video # "h") (VNum 0))
        (emit "Video-V-009" error (basePath ++ ".h")
           "video.h (height) must be present and be a positive integer"
           (Some (video # "h")) (Some "Positive integer")) ;;
      when (isU (video # "linearity") ||| notR (isInt (video # "linearity")))
        (emit "Video-V-010" error (basePath ++ ".linearity")
           "video.linearity must be present and be an integer"
           (Some (video # "linearity")) (Some "Integer (1=linear, 2=non-linear)")) ;;
      when (isU (video # "placement") ||| notR (isInt (video # "placement")))
        (emit "Video-V-011" error (basePath ++ ".placement")
           "video.placement must be present and be an integer"
           (Some (video # "placement")) (Some "Integer placement type")) ;;
      when (isU (video # "startdelay") ||| notR (isInt (video # "startdelay")))
        (emit "Video-V-012" error (basePath ++ ".startdelay")
           "video.startdelay must be an integer"
           (Some (video # "startdelay")) (Some "Integer start delay"))))).

Definition validateNative (bidRequest : value) : M unit :=
  ifM (F (bidRequest # "imp")) (ret tt)
  (forEach (bidRequest # "imp") (fun imp index =>
     ifM (F (imp # "native")) (ret tt)
     (native <- lift (imp # "native") ;;
      let basePath := "BidRequest.imp[" ++ Str.of_nat index ++ "].native" in
      ifM (F (native # "request") ||| typeIsNot (native # "request") "string")
        (emit "Native-N-001" error (basePath ++ ".request")
           "native.request must be present and be a string"
           (Some (native # "request")) (Some "JSON string"))
        (try_catch
           (nativeRequest <- lift (rbind (rbind (native # "request") toString) Json.parse) ;;
            when (F (nativeRequest # "ver"))
              (emit "Native-N-002" error (basePath ++ ".request.ver")
                 "Native request must contain ver (version string)"
                 None (Some ("Version string (e.g., " ++ Str.dq ++ "1.2" ++ Str.dq ++ ")"))) ;;
            ifM (F (nativeRequest # "assets") ||| notR (isArr (nativeRequest # "assets"))
                 ||| eqN (nativeRequest # "assets" # "length") 0)
              (emit "Native-N-003" error (basePath ++ ".request.assets")
                 "Native request must contain a non-empty assets array"
                 (Some (nativeRequest # "assets")) (Some "Non-empty array of asset objects"))
              (forEach (nativeRequest # "assets") (fun asset assetIndex =>
                 when (F (asset # "id"))
                   (emit "Native-N-004" error
                      (basePath ++ ".request.assets[" ++ Str.of_nat assetIndex ++ "].id")
                      "Each native asset must have an id"
                      None (Some "Integer asset ID")) ;;
                 hasTitle <- lift (T (asset # "title")) ;;
                 hasImg <- lift (T (asset # "img")) ;;
                 hasVideo <- lift (T (asset # "video")) ;;
                 hasData <- lift (T (asset # "data")) ;;
                 let assetTypeCount :=
                   List.length (List.filter (fun b => b) [hasTitle; hasImg; hasVideo; hasData]) in
                 when (Ok (Nat.eqb assetTypeCount 0))
                   (emit "Native-N-005" error
                      (basePath ++ ".request.assets[" ++ Str.of_nat assetIndex ++ "]")
                      "Each asset must have either title, img, video, or data"
                      None (Some "One of: title, img, video, or data object")))))
           (emit "Native-N-006" error (basePath ++ ".request")
              "native.request must be valid JSON"
              (Some (native # "request")) (Some "Valid JSON string")))))).

Definition validateBanner (bidRequest : value) : M unit :=
  ifM (F (bidRequest # "imp")) (ret tt)
  (forEach (bidRequest # "imp") (fun imp index =>
     ifM (F (imp # "banner")) (ret tt)
     (banner <- lift (imp # "banner") ;;
      let basePath := "BidRequest.imp[" ++ Str.of_nat index ++ "].banner" in
      hasWH <- lift (notU (banner # "w") &&& notU (banner # "h")) ;;
      hasFormat <- lift (T (banner # "format") &&& isArr (banner # "format")) ;;
      when (Ok (negb hasWH && negb hasFormat))
        (emit "Banner-B-001" error basePath
           "banner must contain either w/h or format array"
           None (Some "Width/height integers or format array")) ;;
      when (Ok hasFormat)
        (forEach (banner # "format") (fun format formatIndex =>
           when (F (format # "w") ||| F (format # "h"))
             (emit "Banner-B-002" error
                (basePath ++ ".format[" ++ Str.of_nat formatIndex ++ "]")
                "Each format entry must have w and h"
                (Some (val format)) (Some "Object with w and h properties"))))))).

Definition validateUser (bidRequest : value) : M unit :=
  ifM (F (bidRequest # "user")) (ret tt)
  (user <- lift (bidRequest # "user") ;;
   when (F (user # "id"))
     (emit "Core-User-001" warning "BidRequest.user.id"
        "user.id (Exchange User ID) should be present"
        None (Some "String user identifier")) ;;
   when (F (user # "buyeruid"))
     (emit "Core-User-002" warning "BidRequest.user.buyeruid"
        "user.buyeruid (DSP User ID) should be present for DSPs"
        None (Some "DSP-specific user identifier"))).

Definition validateRegs (bidRequest : value) : M unit :=
  ifM (F (bidRequest # "regs")) (ret tt)
  (regs <- lift (bidRequest # "regs") ;;
   when (notU (regs # "coppa") &&& neN (regs # "coppa") 0 &&& neN (regs # "coppa") 1)
     (emit "Core-Regs-001" error "BidRequest.regs.coppa"
        "regs.coppa must be 0 or 1"
        (Some (regs # "coppa")) (Some "0 or 1")) ;;
   when (notU (regs # "ext" #? "gdpr") &&& neN (regs # "ext" # "gdpr") 0
         &&& neN (regs # "ext" # "gdpr") 1)
     (emit "Core-Regs-002" warning "BidRequest.regs.ext.gdpr"
        "regs.ext.gdpr must be 0 or 1"
        (Some (regs # "ext" # "gdpr")) (Some "0 or 1")) ;;
   when (eqN (regs # "ext" #? "gdpr") 1 &&& F (bidRequest # "user" #? "ext" #? "consent"))
     (emit "Core-Regs-003" error "BidRequest.user.ext.consent"
        "user.ext.consent (TCF String) must be present when gdpr=1"
        None (Some "Valid TCF consent string")) ;;
   when (T (regs # "gpp") &&& F (regs # "gpp_sid"))
     (emit "Core-Regs-004" error "BidRequest.regs.gpp_sid"
        "regs.gpp_sid must be present when gpp is specified"
        None (Some "Array of GPP section IDs"))).

Definition validateSource (bidRequest : value) : M unit :=
  ifM (F (bidRequest # "source")) (ret tt)
  (source <- lift (bidRequest # "source") ;;
   ifM (F (source # "schain"))
     (emit "Core-Source-001" error "BidRequest.source.schain"
        "source.schain (SupplyChain Object) must be present"
        None (Some "SupplyChain object"))
     (when (neN (source # "schain" # "complete") 1)
        (emit "Core-Source-002" error "BidRequest.source.schain.complete"
           "schain.complete must be 1"
           (Some (source # "schain" # "complete")) (Some "1")) ;;
      ifM (F (source # "schain" # "nodes") ||| notR (isArr (source # "schain" # "nodes"))
           ||| eqN (source # "schain" # "nodes" # "length") 0)
        (emit "Core-Source-003" error "BidRequest.source.schain.nodes"
           "schain.nodes must be a non-empty array"
           (Some (source # "schain" # "nodes")) (Some "Non-empty array of supply chain nodes"))
        (forEach (source # "schain" # "nodes") (fun node index =>
           when (F (node # "asi") ||| F (node # "sid") ||| isU (node # "hp"))
             (emit "Core-Source-004" error
                ("BidRequest.source.schain.nodes[" ++ Str.of_nat index ++ "]")
                "Each schain node must contain asi, sid, and hp"
                (Some (val node)) (Some "Object with asi, sid, and hp properties")))))).

(** The [dooh] objects of the impressions, in order. *)
Fixpoint imp_doohs (l : list value) : result (list value) :=
  match l with
  | [] => Ok []
  | imp :: r =>
      rbind (imp # "dooh") (fun d =>
      rbind (imp_doohs r) (fun t => Ok (if truthy d then d :: t else t)))
  end.

Definition validateDOOH (bidRequest : value) : M unit :=
  ifM (F (bidRequest # "device") ||| neN (bidRequest # "device" # "devicetype") 6) (ret tt)
  (hasDooh <- lift
     (rbind (bidRequest # "imp") (fun imp =>
        match imp with
        | VUndefined | VNull => Ok false
        | _ => rbind (elems imp) (some (fun i => T (i # "dooh")))
        end)
      ||| T (bidRequest # "dooh")) ;;
   when (Ok (negb hasDooh))
     (emit "DOOH-001" error "BidRequest"
        "DOOH requests must contain dooh object in impression or bid request"
        None (Some "DOOH object with venue information")) ;;
   top <- lift (rbind (bidRequest # "dooh") (fun d => Ok (if truthy d then [d] else []))) ;;
   fromImps <- lift (rbind (T (bidRequest # "imp")) (fun b =>
                 if b then rbind (elems (bidRequest # "imp")) imp_doohs else Ok [])) ;;
   let doohObjects := (top ++ fromImps)%list in
   forEach_from (fun dooh index =>
     when (F (dooh # "venuetype"))
       (emit "DOOH-002" error ("dooh[" ++ Str.of_nat index ++ "].venuetype")
          "DOOH object must contain venuetype"
          None (Some "Venue type identifier")) ;;
     when (F (dooh # "venuetypetax"))
       (emit "DOOH-003" warning ("dooh[" ++ Str.of_nat index ++ "].venuetypetax")
          "DOOH object should contain venuetypetax"
          None (Some "Venue type taxonomy identifier")))
     doohObjects O).

Definition validateAdvanced (bidRequest : value) : M unit :=
  macros <- lift
    (match Json.stringify bidRequest with
     | VStr jsonString => Ok (fresh_match_all macroPattern jsonString)
     | _ => Throw TypeError
     end) ;;
  match macros with
  | Some l =>
      when (Ok (Nat.ltb 0 (List.length l)))
        (emit "Advanced-001" error "BidRequest"
           "Bid request contains un-replaced macros"
           (Some (val (VStr (Str.join ", " l)))) (Some "No macros in bid request"))
  | None => ret tt
  end ;;
  when (eqN (bidRequest # "device" #? "ext" #? "is_app") 1 &&& F (bidRequest # "app"))
    (emit "Advanced-002" error "BidRequest"
       "device.ext.is_app=1 but no app object present"
       None (Some "App object when is_app=1")) ;;
  when (eqN (bidRequest # "device" #? "ext" #? "is_app") 0 &&& F (bidRequest # "site"))
    (emit "Advanced-003" error "BidRequest"
       "device.ext.is_app=0 but no site object present"
       None (Some "Site object when is_app=0")) ;;
  when (T (bidRequest # "user" #? "eids"))
    (ifM (notR (isArr (bidRequest # "user" # "eids")))
       (emit "Advanced-004" warning "BidRequest.user.eids"
          "user.eids must be an array"
          (Some (bidRequest # "user" # "eids")) (Some "Array of EID objects"))
       (forEach (bidRequest # "user" # "eids") (fun eid index =>
          ifM (F (eid # "source") ||| F (eid # "uids"))
            (emit "Advanced-005" error ("BidRequest.user.eids[" ++ Str.of_nat index ++ "]")
               "Each EID must have source and uids"
               (Some (val eid)) (Some "Object with source and uids properties"))
            (when (isArr (eid # "uids"))
               (forEach (eid # "uids") (fun uid uidIndex =>
                  when (F (uid # "id"))
                    (emit "Advanced-006" error
                       ("BidRequest.user.eids[" ++ Str.of_nat index ++ "].uids["
                        ++ Str.of_nat uidIndex ++ "]")
                       "Each UID must have an id"
                       None (Some "Object with id property")))))))).

(** ** The validators that parse URLs, and the orchestrator *)

Section Host.

(** [new URL(s)] is the host's URL parser; [URL_parses s] tells whether
    it accepts [s] (it raises otherwise). *)
Variable URL_parses : string -> bool.

(** [try { new URL(e) } catch { h }], [e] being a string. *)
Definition unless_URL (e : result value) (h : M unit) : M unit :=
  try_catch
    (s <- lift (rbind e toString) ;;
     if URL_parses s then ret tt else lift (Throw TypeError))
    h.

Definition validateApp (bidRequest : value) : M unit :=
  ifM (F (bidRequest # "app")) (ret tt)
  (app <- lift (bidRequest # "app") ;;
   ifM (F (app # "storeurl") ||| typeIsNot (app # "storeurl") "string")
     (emit "EQ-App-007" error "BidRequest.app.storeurl"
        "app.storeurl must be present and be a string"
        (Some (app # "storeurl")) (Some "Valid store URL string"))
   (ifM (F (app # "bundle") ||| typeIsNot (app # "bundle") "string")
     (emit "EQ-App-008" error "BidRequest.app.bundle"
        "app.bundle must be present and be a string"
        (Some (app # "bundle")) (Some "Bundle identifier string"))
   (storeurl <- lift (rbind (app # "storeurl") toString) ;;
    bundle <- lift (rbind (app # "bundle") toString) ;;
    validateStoreUrlAndBundle storeurl bundle ;;
    when (Ok (containsMacros bundle))
      (emit "EQ-App-017" error "BidRequest.app.bundle"
         "app.bundle must not contain un-replaced macros"
         (Some (app # "bundle")) (Some "Bundle without macros")) ;;
    when (Ok (containsMacros storeurl))
      (emit "EQ-App-018" error "BidRequest.app.storeurl"
         "app.storeurl must not contain un-replaced macros"
         (Some (app # "storeurl")) (Some "Store URL without macros")) ;;
    appJson <- lift (toString (Json.stringify app)) ;;
    when (Ok (containsMacros appJson))
      (emit "EQ-App-019" error "BidRequest.app"
         "app object must not contain potential macros"
         None (Some "App object without macros")) ;;
    when (F (app # "id"))
      (emit "EQ-App-020" warning "BidRequest.app.id"
         "app.id is recommended for better identification"
         None (Some "App identifier string")) ;;
    when (F (app # "bundle") ||| typeIsNot (app # "bundle") "string")
      (emit "Core-App-001" error "BidRequest.app.bundle"
         "app.bundle must be present and be a string"
         (Some (app # "bundle"))
         (Some ("String (e.g., " ++ Str.dq ++ "com.example.app" ++ Str.dq ++ ")"))) ;;
    ifM (F (app # "storeurl") ||| typeIsNot (app # "storeurl") "string")
      (emit "Core-App-002" error "BidRequest.app.storeurl"
         "app.storeurl must be present and be a string"
         (Some (app # "storeurl")) (Some "Valid URL string"))
      (unless_URL (app # "storeurl")
         (emit "Core-App-003" error "BidRequest.app.storeurl"
            "app.storeurl must be a valid URL"
            (Some (app # "storeurl")) (Some "Valid URL")) ;;
       when (includes (app # "storeurl") (VStr "{") ||| includes (app # "storeurl") (VStr "["))
         (emit "Core-App-004" error "BidRequest.app.storeurl"
            "app.storeurl contains un-replaced macros"
            (Some (app # "storeurl")) (Some "URL without macros"))) ;;
    ifM (F (app # "publisher"))
      (emit "Core-App-005" error "BidRequest.app.publisher"
         "app.publisher object must be present"
         None (Some "Publisher object with id"))
      (when (F (app # "publisher" # "id") ||| typeIsNot (app # "publisher" # "id") "string")
         (emit "Core-App-006" error "BidRequest.app.publisher.id"
            "app.publisher.id must be present and be a string"
            (Some (app # "publisher" # "id")) (Some "Non-empty string")))))).

Definition validateSite (bidRequest : value) : M unit :=
  ifM (F (bidRequest # "site")) (ret tt)
  (site <- lift (bidRequest # "site") ;;
   ifM (F (site # "page") ||| typeIsNot (site # "page") "string")
     (emit "Core-Site-001" error "BidRequest.site.page"
        "site.page must be present and be a string URL"
        (Some (site # "page")) (Some "Valid URL string"))
     (unless_URL (site # "page")
        (emit "Core-Site-002" error "BidRequest.site.page"
           "site.page must be a valid URL"
           (Some (site # "page")) (Some "Valid URL"))) ;;
   ifM (F (site # "publisher"))
     (emit "Core-Site-003" error "BidRequest.site.publisher"
        "site.publisher object must be present"
        None (Some "Publisher object with id"))
     (when (F (site # "publisher" # "id") ||| typeIsNot (site # "publisher" # "id") "string")
        (emit "Core-Site-004" error "BidRequest.site.publisher.id"
           "site.publisher.id must be present and be a string"
           (Some (site # "publisher" # "id")) (Some "Non-empty string")))).

(** The rule sets, in the order [validateBidRequest] runs them. *)
Definition run_validators (bidRequest : value) : M unit :=
  validateCoreBidRequest bidRequest ;;
  validateImpressions bidRequest ;;
  validateApp bidRequest ;;
  validateSite bidRequest ;;
  validateDevice bidRequest ;;
  validateUser bidRequest ;;
  validateRegs bidRequest ;;
  validateSource bidRequest ;;
  validateVideo bidRequest ;;
  validateNative bidRequest ;;
  validateBanner bidRequest ;;
  validateCTV bidRequest ;;
  validateDOOH bidRequest ;;
  validateAdvanced bidRequest ;;
  validateEquativRules bidRequest.

(** [validateBidRequest]: the outcome of the promise ([Ok] when it is
    fulfilled, [Throw] when it is rejected) and the state the call
    leaves in the pattern objects of the module, [heap] being their
    state when the call starts. *)
Definition validateBidRequest (jsonString : string) (heap : nat -> nat)
  : result BidRequestValidationResult * (nat -> nat) :=
  match Json.parse jsonString with
  | Throw _ => (Throw (Error "Invalid JSON format"), heap)
  | Ok bidRequest =>
      match detectBidRequestCharacteristics bidRequest with
      | Throw e => (Throw e, heap)
      | Ok characteristics =>
          match run_validators bidRequest {| pushed := []; lastIndex := heap |} with
          | (Ok _, s) =>
              (Ok {| detectedCharacteristics := characteristics;
                     issues := pushed s;
                     isValid :=
                       Nat.eqb (List.length (List.filter is_error (pushed s))) 0 |},
               lastIndex s)
          | (Throw e, s) => (Throw e, lastIndex s)
          end
      end
  end.

End Host.

End Validator.

(* ================================================================== *)
(** * Properties *)

Import Js Validator.

Local Open Scope m_scope.

(** ** Every literal pattern lies in the supported fragment *)

Lemma patterns_supported :
  forallb (fun src => match Regex.parse src with Some _ => true | None => false end)
          all_sources = true.
Proof. vm_compute. reflexivity. Qed.

(** No pattern object of the registry carries the [g] flag. *)
Lemma registry_not_global :
  forallb (fun r => negb (Regex.global (lit r))) registry_objects = true.
Proof. vm_compute. reflexivity. Qed.

(** ** Validators behave as writers *)

(** [extend l s]: the store [s] after the issues [l] were pushed. *)
Definition extend (l : list ValidationIssue) (s : Store) : Store :=
  {| pushed := (pushed s ++ l)%list; lastIndex := lastIndex s |}.

(** [writes P m]: whatever the store, [m] ends the same way, appends
    the same issues, all of which satisfy [P], and leaves the pattern
    objects as they were. *)
Definition writes {A : Type} (P : ValidationIssue -> Prop) (m : M A) : Prop :=
  exists (r : result A) (l : list ValidationIssue),
    Forall P l /\ forall s, m s = (r, extend l s).

Lemma extend_nil s : extend [] s = s.
Proof. destruct s; unfold extend; simpl; now rewrite app_nil_r. Qed.

Lemma extend_app l1 l2 s : extend l2 (extend l1 s) = extend (l1 ++ l2) s.
Proof. unfold extend; simpl; now rewrite app_assoc. Qed.

Section Writes.

Context {P : ValidationIssue -> Prop}.

Lemma writes_ret {A} (a : A) : writes P (ret a).
Proof. exists (Ok a), []; split; [constructor | intro s; now rewrite extend_nil]. Qed.

Lemma writes_lift {A} (r : result A) : writes P (lift r).
Proof. exists r, []; split; [constructor | intro s; now rewrite extend_nil]. Qed.

Lemma writes_push i : P i -> writes P (push i).
Proof. intro H; exists (Ok tt), [i]; split; [now repeat constructor | reflexivity]. Qed.

Lemma writes_bind {A B} (m : M A) (f : A -> M B) :
  writes P m -> (forall a, writes P (f a)) -> writes P (bind m f).
Proof.
  intros (r & l & Hl & Hm) Hf. destruct r as [a | e].
  - destruct (Hf a) as (r' & l' & Hl' & Hfa).
    exists r', (l ++ l')%list; split; [now apply Forall_app |].
    intro s; unfold bind; now rewrite Hm, Hfa, extend_app.
  - exists (Throw e), l; split; [assumption |].
    intro s; unfold bind; now rewrite Hm.
Qed.

Lemma writes_seq {A} (m : M unit) (k : M A) :
  writes P m -> writes P k -> writes P (seq m k).
Proof. intros Hm Hk; apply writes_bind; [assumption | intros _; assumption]. Qed.

Lemma writes_ifM {A} (c : result bool) (a b : M A) :
  writes P a -> writes P b -> writes P (ifM c a b).
Proof.
  intros Ha Hb; apply writes_bind; [apply writes_lift | intros []; assumption].
Qed.

Lemma writes_when (c : result bool) (m : M unit) : writes P m -> writes P (when c m).
Proof. intro H; apply writes_ifM; [assumption | apply writes_ret]. Qed.

Lemma writes_try_catch {A} (m h : M A) :
  writes P m -> writes P h -> writes P (try_catch m h).
Proof.
  intros (r & l & Hl & Hm) (r' & l' & Hl' & Hh). destruct r as [a | e].
  - exists (Ok a), l; split; [assumption |].
    intro s; unfold try_catch; now rewrite Hm.
  - exists r', (l ++ l')%list; split; [now apply Forall_app |].
    intro s; unfold try_catch; now rewrite Hm, Hh, extend_app.
Qed.

Lemma writes_emit i sev path msg actual expected :
  (forall a, P {| id := i; severity := sev; fieldPath := path; message := msg;
                  actualValue := a; expectedValue := expected;
                  specReference := None |}) ->
  writes P (emit i sev path msg actual expected).
Proof.
  intro H; apply writes_bind; [apply writes_lift | intro a; now apply writes_push].
Qed.

Lemma writes_forEach_from f l i :
  (forall x j, writes P (f x j)) -> writes P (forEach_from f l i).
Proof.
  intro H; revert i; induction l as [| x l IH]; intro i; simpl.
  - apply writes_ret.
  - apply writes_seq; [apply H | apply IH].
Qed.

Lemma writes_forEach e f : (forall x j, writes P (f x j)) -> writes P (forEach e f).
Proof.
  intro H; apply writes_bind; [apply writes_lift | intro l; now apply writes_forEach_from].
Qed.

(** A pattern without the [g] flag is matched from the start whatever
    its [lastIndex], which it leaves alone. *)
Lemma exec_not_global re li text :
  Regex.exec re false li text = (fst (Regex.exec re false 0 text), li).
Proof.
  unfold Regex.exec; simpl.
  destruct (Regex.search re 0 (Str.chars text)); reflexivity.
Qed.

Lemma writes_exec r text : Regex.global (lit r) = false -> writes P (exec r text).
Proof.
  intro Hg.
  exists (Ok (fst (Regex.exec (Regex.compile (Regex.source (lit r))) false 0 text))), [].
  split; [constructor |].
  intro s; unfold exec; rewrite Hg, exec_not_global, extend_nil; reflexivity.
Qed.

Lemma writes_match_ text r : Regex.global (lit r) = false -> writes P (match_ text r).
Proof. apply writes_exec. Qed.

Lemma writes_test_ r text : Regex.global (lit r) = false -> writes P (test_ r text).
Proof.
  intro H; apply writes_bind; [now apply writes_exec | intro; apply writes_ret].
Qed.

End Writes.

Lemma writes_weaken {A} (P Q : ValidationIssue -> Prop) (m : M A) :
  (forall i, P i -> Q i) -> writes P m -> writes Q m.
Proof.
  intros H (r & l & Hl & Hm); exists r, l; split; [| assumption].
  eapply Forall_impl; eauto.
Qed.

(** One step of a proof that a validator is a writer: the rule of the
    outermost construct. *)
Ltac writes_step :=
  lazymatch goal with
  | |- writes _ (bind _ _) => apply writes_bind; [| intro]
  | |- writes _ (seq _ _) => apply writes_seq
  | |- writes _ (ifM _ _ _) => apply writes_ifM
  | |- writes _ (when _ _) => apply writes_when
  | |- writes _ (ret _) => apply writes_ret
  | |- writes _ (lift _) => apply writes_lift
  | |- writes _ (emit _ _ _ _ _ _) => apply writes_emit; intro; first [exact I | reflexivity]
  | |- writes _ (try_catch _ _) => apply writes_try_catch
  | |- writes _ (forEach _ _) => apply writes_forEach; intros
  | |- writes _ (forEach_from _ _ _) => apply writes_forEach_from; intros
  | |- writes _ (if ?b then _ else _) => destruct b
  | |- writes _ (match ?x with _ => _ end) => destruct x
  end.

Ltac writes_auto := cbv zeta; repeat (writes_step; cbv zeta).

Definition any : ValidationIssue -> Prop := fun _ => True.

(** The issue that reports a bundle differing from the identifier in
    the store URL is the one whose message starts with [Bundle ID
    mismatch]. *)
Definition bundle_mismatch (i : ValidationIssue) : bool :=
  Str.starts_with "Bundle ID mismatch" (message i).

Definition not_mismatch (i : ValidationIssue) : Prop := bundle_mismatch i = false.

Lemma writes_any {A} (P : ValidationIssue -> Prop) (m : M A) : writes P m -> writes any m.
Proof. apply writes_weaken; intros; exact I. Qed.

Lemma validateCoreBidRequest_writes br : writes not_mismatch (validateCoreBidRequest br).
Proof. unfold validateCoreBidRequest; writes_auto. Qed.

Lemma try_patterns_writes platform config ps storeUrl bundle :
  Regex.global (lit (bundlePattern config)) = false ->
  Forall (fun r => Regex.global (lit r) = false) ps ->
  writes any (try_patterns platform config ps storeUrl bundle).
Proof.
  intros Hb Hps; induction Hps as [| pattern rest Hp _ IH]; simpl.
  - apply writes_ret.
  - apply writes_bind; [now apply writes_match_ |].
    intros [mt |]; [| exact IH].
    apply writes_bind; [now apply writes_test_ | intro ok].
    writes_auto.
Qed.

Lemma try_platforms_writes entries storeUrl bundle :
  Forall (fun pc => Regex.global (lit (bundlePattern (snd pc))) = false
                    /\ Forall (fun r => Regex.global (lit r) = false) (patterns (snd pc)))
         entries ->
  writes any (try_platforms entries storeUrl bundle).
Proof.
  intro H; induction H as [| [platform config] rest [Hb Hp] _ IH]; simpl.
  - apply writes_ret.
  - apply writes_bind; [now apply try_patterns_writes |].
    intros []; [apply writes_ret | exact IH].
Qed.

Lemma registry_entries_not_global :
  Forall (fun pc => Regex.global (lit (bundlePattern (snd pc))) = false
                    /\ Forall (fun r => Regex.global (lit r) = false) (patterns (snd pc)))
         STORE_URL_PATTERNS.
Proof. unfold STORE_URL_PATTERNS; repeat constructor. Qed.

Lemma validateStoreUrlAndBundle_writes storeUrl bundle :
  writes any (validateStoreUrlAndBundle storeUrl bundle).
Proof.
  unfold validateStoreUrlAndBundle.
  apply writes_bind; [apply try_platforms_writes, registry_entries_not_global | intro].
  writes_auto.
Qed.

Lemma validateCountryDatacenterMatch_writes country datacenterId :
  writes not_mismatch (validateCountryDatacenterMatch country datacenterId).
Proof. unfold validateCountryDatacenterMatch; writes_auto. Qed.

Lemma validateDevice_writes br : writes not_mismatch (validateDevice br).
Proof.
  unfold validateDevice; writes_auto; apply validateCountryDatacenterMatch_writes.
Qed.

Lemma validateVideoImpressionRules_writes video i :
  writes not_mismatch (validateVideoImpressionRules video i).
Proof. unfold validateVideoImpressionRules; writes_auto. Qed.

Lemma validateImpression_writes ids imp i : writes not_mismatch (validateImpression ids imp i).
Proof.
  unfold validateImpression; writes_auto; apply validateVideoImpressionRules_writes.
Qed.

Lemma validateImpressions_from_writes l i ids : writes not_mismatch (validateImpressions_from l i ids).
Proof.
  revert i ids; induction l as [| imp l IH]; intros i ids; simpl.
  - apply writes_ret.
  - apply writes_bind; [apply validateImpression_writes | intro; apply IH].
Qed.

Lemma validateImpressions_writes br : writes not_mismatch (validateImpressions br).
Proof.
  unfold validateImpressions; writes_auto; apply validateImpressions_from_writes.
Qed.

Lemma validateCTV_writes br : writes not_mismatch (validateCTV br).
Proof. unfold validateCTV; writes_auto. Qed.

Lemma validateEquativRules_writes br : writes not_mismatch (validateEquativRules br).
Proof. unfold validateEquativRules; writes_auto. Qed.

Lemma validateVideo_writes br : writes not_mismatch (validateVideo br).
Proof. unfold validateVideo; writes_auto. Qed.

Lemma validateNative_writes br : writes not_mismatch (validateNative br).
Proof. unfold validateNative; writes_auto. Qed.

Lemma validateBanner_writes br : writes not_mismatch (validateBanner br).
Proof. unfold validateBanner; writes_auto. Qed.

Lemma validateUser_writes br : writes not_mismatch (validateUser br).
Proof. unfold validateUser; writes_auto. Qed.

Lemma validateRegs_writes br : writes not_mismatch (validateRegs br).
Proof. unfold validateRegs; writes_auto. Qed.

Lemma validateSource_writes br : writes not_mismatch (validateSource br).
Proof. unfold validateSource; writes_auto. Qed.

Lemma validateDOOH_writes br : writes not_mismatch (validateDOOH br).
Proof. unfold validateDOOH; writes_auto. Qed.

Lemma validateAdvanced_writes br : writes not_mismatch (validateAdvanced br).
Proof. unfold validateAdvanced; writes_auto. Qed.

Section HostProperties.

Variable URL_parses : string -> bool.

Lemma unless_URL_writes P e h : writes P h -> writes P (unless_URL URL_parses e h).
Proof. intro H; unfold unless_URL; writes_auto; exact H. Qed.

Lemma validateApp_writes br : writes any (validateApp URL_parses br).
Proof.
  unfold validateApp; writes_auto;
    try apply validateStoreUrlAndBundle_writes;
    apply unless_URL_writes; writes_auto.
Qed.

Lemma validateSite_writes br : writes not_mismatch (validateSite URL_parses br).
Proof. unfold validateSite; writes_auto; apply unless_URL_writes; writes_auto. Qed.

End HostProperties.

(** The validators other than [validateApp] are writers of issues that
    are no bundle mismatch. *)
Ltac validator_writes :=
  first [ apply validateCoreBidRequest_writes | apply validateImpressions_writes
        | apply validateSite_writes
        | apply validateDevice_writes | apply validateUser_writes
        | apply validateRegs_writes | apply validateSource_writes
        | apply validateVideo_writes | apply validateNative_writes
        | apply validateBanner_writes | apply validateCTV_writes
        | apply validateDOOH_writes | apply validateAdvanced_writes
        | apply validateEquativRules_writes ].

Ltac chain_writes :=
  repeat (apply writes_seq;
          [first [apply validateApp_writes | eapply writes_any; validator_writes] |]);
  first [apply validateApp_writes | eapply writes_any; validator_writes].

Lemma run_validators_writes URL_parses br : writes any (run_validators URL_parses br).
Proof. unfold run_validators; chain_writes. Qed.

(** ** Concrete inputs *)

(** [quoted s] is [s] between double quotes, as in a JSON text. *)
Definition quoted (s : string) : string := Str.dq ++ s ++ Str.dq.

(** The state of the pattern objects when the module has just loaded. *)
Definition fresh_heap : nat -> nat := fun _ => O.

(** A host whose URL parser accepts every string; the inputs below
    carry no URL. *)
Definition lenient_host : string -> bool := fun _ => true.

Definition sev_eqb (a b : Severity) : bool :=
  match a, b with
  | error, error | warning, warning | info, info => true
  | _, _ => false
  end.

(** [reports sev i path l]: the list [l] holds an issue of severity
    [sev], rule [i] and field path [path]. *)
Definition reports (sev : Severity) (i path : string) (l : list ValidationIssue) : bool :=
  existsb (fun x => sev_eqb (severity x) sev && String.eqb (id x) i
                    && String.eqb (fieldPath x) path) l.

(** ** The pass/fail flag *)

Lemma no_error_count (l : list ValidationIssue) :
  Nat.eqb (List.length (List.filter is_error l)) 0 = true
  <-> forall i, In i l -> severity i <> error.
Proof.
  induction l as [| x l IH]; simpl.
  - split; [intros _ i [] | reflexivity].
  - unfold is_error at 1. destruct (severity x) eqn:E; simpl.
    + split; [discriminate | intro H; exfalso; apply (H x); auto].
    + rewrite IH; split.
      * intros H i [<- | Hi]; [rewrite E; discriminate | auto].
      * intros H i Hi; auto.
    + rewrite IH; split.
      * intros H i [<- | Hi]; [rewrite E; discriminate | auto].
      * intros H i Hi; auto.
Qed.

(** C1.  Whenever [validateBidRequest] returns a result, which it can
    only do on an input that parses as JSON, [isValid] is true if and
    only if no entry of [issues] has severity [error]; warnings and
    infos do not count. *)
Theorem isValid_iff_no_error_issue :
  forall (URL_parses : string -> bool) (jsonString : string) (heap heap' : nat -> nat)
         (r : BidRequestValidationResult),
    validateBidRequest URL_parses jsonString heap = (Ok r, heap') ->
    (exists bidRequest, Json.parse jsonString = Ok bidRequest)
    /\ (isValid r = true <-> forall i, In i (issues r) -> severity i <> error).
Proof.
  intros U s heap heap' r H. unfold validateBidRequest in H.
  destruct (Json.parse s) as [br | e]; [| discriminate].
  split; [now exists br |].
  destruct (detectBidRequestCharacteristics br) as [c | e]; [| discriminate].
  destruct (run_validators U br _) as [[[] | e] st]; [| discriminate].
  injection H as <- _; simpl. apply no_error_count.
Qed.

Lemma isValid_iff_no_error_issue_witness :
  exists r,
    validateBidRequest lenient_host "{}" fresh_heap = (Ok r, fresh_heap)
    /\ (isValid r = true <-> forall i, In i (issues r) -> severity i <> error).
Proof.
  eexists; split; [vm_compute; reflexivity |].
  eapply (isValid_iff_no_error_issue lenient_host "{}" fresh_heap fresh_heap).
  vm_compute; reflexivity.
Defined.

(** ** Malformed input *)

(** C2.  On an input that is not JSON the call is rejected with the
    error [Invalid JSON format]: no result is produced, hence no issue
    list, and no rule has run (the pattern objects are untouched). *)
Theorem invalid_json_is_rejected :
  forall (URL_parses : string -> bool) (jsonString : string) (heap : nat -> nat),
    (forall v, Json.parse jsonString <> Ok v) ->
    validateBidRequest URL_parses jsonString heap
      = (Throw (Error "Invalid JSON format"), heap)
    /\ (forall r h, validateBidRequest URL_parses jsonString heap <> (Ok r, h)).
Proof.
  intros U s heap H. unfold validateBidRequest.
  destruct (Json.parse s) as [v | e]; [now destruct (H v) |].
  split; [reflexivity | intros r h; discriminate].
Qed.

Lemma invalid_json_is_rejected_witness :
  (forall v, Json.parse "{" <> Ok v)
  /\ validateBidRequest lenient_host "{" fresh_heap
       = (Throw (Error "Invalid JSON format"), fresh_heap).
Proof.
  assert (H : forall v, Json.parse "{" <> Ok v) by (intros v; vm_compute; discriminate).
  split; [exact H |].
  exact (proj1 (invalid_json_is_rejected lenient_host "{" fresh_heap H)).
Defined.

(** ** Determinism *)

(** C9.  The outcome of [validateBidRequest] is a function of the input
    text alone: it does not depend on the state earlier calls left in
    the pattern objects, and the call leaves that state as it found
    it.  Hence two calls in a row on one input return identical
    results, issue for issue and characteristic for characteristic. *)
Theorem validateBidRequest_deterministic :
  forall (URL_parses : string -> bool) (jsonString : string) (h1 h2 : nat -> nat),
    fst (validateBidRequest URL_parses jsonString h1)
      = fst (validateBidRequest URL_parses jsonString h2)
    /\ snd (validateBidRequest URL_parses jsonString h1) = h1
    /\ (let first := validateBidRequest URL_parses jsonString h1 in
        let second := validateBidRequest URL_parses jsonString (snd first) in
        fst second = fst first).
Proof.
  intros U s h1 h2.
  assert (K : forall h, validateBidRequest U s h
                        = (fst (validateBidRequest U s fresh_heap), h)).
  { intro h. unfold validateBidRequest.
    destruct (Json.parse s) as [br | e]; [| reflexivity].
    destruct (detectBidRequestCharacteristics br) as [c | e]; [| reflexivity].
    destruct (run_validators_writes U br) as (r & l & _ & Hrun).
    rewrite !Hrun. destruct r as [[] | e]; reflexivity. }
  cbv zeta. rewrite (K h1), (K h2). simpl. rewrite (K h1). auto.
Qed.

(** ** The empty object *)

(** C6.  On the input [{}] a result is returned, and its issues hold
    error entries for the missing [id], [imp], [at], [device],
    [source] and [user], and for having neither [site] nor [app]. *)
Theorem empty_object_report :
  forall (URL_parses : string -> bool) (heap : nat -> nat),
  exists r,
    validateBidRequest URL_parses "{}" heap = (Ok r, heap)
    /\ reports error "Core-BR-001" "BidRequest.id" (issues r) = true
    /\ reports error "EQ-BR-003" "BidRequest.imp" (issues r) = true
    /\ reports error "Core-BR-002" "BidRequest.imp" (issues r) = true
    /\ reports error "Core-BR-004" "BidRequest.at" (issues r) = true
    /\ reports error "EQ-BR-002" "BidRequest.device" (issues r) = true
    /\ reports error "EQ-BR-004" "BidRequest.source" (issues r) = true
    /\ reports error "EQ-BR-005" "BidRequest.user" (issues r) = true
    /\ reports error "EQ-BR-001" "BidRequest" (issues r) = true
    /\ isValid r = false.
Proof.
  intros U heap. eexists. split; [vm_compute; reflexivity |].
  vm_compute. repeat split.
Qed.

(** ** Payloads of unexpected shape *)

Ltac in_list := repeat first [left; reflexivity | right].

(** The text [{"imp": 5}]. *)
Definition non_array_imp : string := "{" ++ quoted "imp" ++ ": 5}".

Definition non_array_imp_payload : value := VObj [("imp", VNum 5)].

(** The same [imp] on a Connected-TV device. *)
Definition ctv_non_array_imp_payload : value :=
  VObj [("device", VObj [("devicetype", VNum 5)]); ("imp", VNum 5)].

(** C3.  The claim fails on the valid JSON text [{"imp": 5}]: the
    call is rejected with a [TypeError] and returns no result.  The
    characteristic detector calls [some] on the number, and
    [validateVideo] and [validateCTV] call [forEach] on it; the video
    rules likewise call [includes] on a [playbackmethod] that is a
    number.  [validateCoreBidRequest] and [validateImpressions], for
    their part, test [Array.isArray] first and report [Core-BR-003] or
    return. *)
Theorem non_array_imp_raises :
  forall (URL_parses : string -> bool) (heap : nat -> nat),
    Json.parse non_array_imp = Ok non_array_imp_payload
    /\ validateBidRequest URL_parses non_array_imp heap = (Throw TypeError, heap)
    /\ detectBidRequestCharacteristics non_array_imp_payload = Throw TypeError
    /\ (forall s, validateVideo non_array_imp_payload s = (Throw TypeError, s))
    /\ (forall s, fst (validateCTV ctv_non_array_imp_payload s) = Throw TypeError)
    /\ (forall s i,
          fst (validateVideoImpressionRules
                 (VObj [("placement", VNum 1); ("playbackmethod", VNum 5)]) i s)
          = Throw TypeError)
    /\ (forall s, fst (validateImpressions non_array_imp_payload s) = Ok tt)
    /\ (forall s, fst (validateCoreBidRequest non_array_imp_payload s) = Ok tt
                  /\ reports error "Core-BR-003" "BidRequest.imp"
                       (pushed (snd (validateCoreBidRequest non_array_imp_payload s)))
                     = true).
Proof.
  intros U heap. repeat split; try (vm_compute; reflexivity).
  destruct s as [p h]. vm_compute.
  induction p as [| x p IH]; [reflexivity |].
  simpl. rewrite IH. apply orb_true_r.
Qed.

(** ** The aspect-ratio rule on a Connected TV *)

(** The text
    [{"device":{"devicetype":5},"imp":[{"video":{"w":640,"h":480}}]}]. *)
Definition ctv_640x480 : string :=
  "{" ++ quoted "device" ++ ":{" ++ quoted "devicetype" ++ ":5},"
      ++ quoted "imp" ++ ":[{" ++ quoted "video" ++ ":{"
      ++ quoted "w" ++ ":640," ++ quoted "h" ++ ":480}}]}".

Definition ctv_640x480_payload : value :=
  VObj [("device", VObj [("devicetype", VNum 5)]);
        ("imp", VArr [VObj [("video", VObj [("w", VNum 640); ("h", VNum 480)])]])].

(** The issue rule 53 raises on it. *)
Definition aspect_ratio_issue : ValidationIssue :=
  {| id := "EQ-CTV-053";
     severity := error;
     fieldPath := "BidRequest.imp[0].video";
     message := "CTV: imp.video.h and imp.video.w should match a 16:9 aspect ratio";
     actualValue := Some (VStr "640x480 (1.33:1)");
     expectedValue := Some "16:9 aspect ratio";
     specReference := None |}.

(** [mentions sub i]: the text [sub] occurs in the message or in the
    reported actual value of [i]. *)
Definition mentions (sub : string) (i : ValidationIssue) : bool :=
  Str.includes sub (message i)
  || match actualValue i with
     | Some (VStr s) => Str.includes sub s
     | _ => false
     end.

(** C5, as stated, fails: on that payload the aspect-ratio error is
    raised, but the ratio it reports is [1.33:1] (640/480), and no
    issue of the result mentions [0.71]. *)
Lemma ctv_640x480_does_not_report_0_71 :
  Json.parse ctv_640x480 = Ok ctv_640x480_payload
  /\ (exists r,
        validateBidRequest lenient_host ctv_640x480 fresh_heap = (Ok r, fresh_heap)
        /\ In aspect_ratio_issue (issues r)
        /\ existsb (mentions "0.71") (issues r) = false)
  /\ existsb (mentions "0.71")
       (pushed (snd (validateCTV ctv_640x480_payload
                       {| pushed := []; lastIndex := fresh_heap |}))) = false.
Proof.
  split; [vm_compute; reflexivity |].
  split; [| vm_compute; reflexivity].
  eexists. split; [vm_compute; reflexivity |].
  split; [simpl; in_list | vm_compute; reflexivity].
Qed.

(** ** The two generations of the [secure] rule *)

(** The text
    [{"imp":[{"secure":2,"video":{"placement":1,"playbackmethod":5}}]}]. *)
Definition secure_then_bad_video : string :=
  "{" ++ quoted "imp" ++ ":[{" ++ quoted "secure" ++ ":2," ++ quoted "video" ++ ":{"
      ++ quoted "placement" ++ ":1," ++ quoted "playbackmethod" ++ ":5}}]}".

Definition secure_then_bad_video_payload : value :=
  VObj [("imp", VArr [VObj [("secure", VNum 2);
                            ("video", VObj [("placement", VNum 1);
                                            ("playbackmethod", VNum 5)])]])].

(** C10.  The claim fails on an impression whose [secure] is 2 and
    whose video has [placement] 1 and the number 5 for
    [playbackmethod]: [EQ-Imp-036] is pushed, then the video rules call
    [includes] on the number and raise, so [Core-Imp-006] is never
    pushed and the whole call is rejected. *)
Theorem secure_rules_cut_short_by_video_rules :
  forall (URL_parses : string -> bool) (heap : nat -> nat),
    Json.parse secure_then_bad_video = Ok secure_then_bad_video_payload
    /\ validateBidRequest URL_parses secure_then_bad_video heap = (Throw TypeError, heap)
    /\ (let out := validateImpressions secure_then_bad_video_payload
                     {| pushed := []; lastIndex := heap |} in
        fst out = Throw TypeError
        /\ reports error "EQ-Imp-036" "BidRequest.imp[0].secure" (pushed (snd out)) = true
        /\ reports error "Core-Imp-006" "BidRequest.imp[0].secure" (pushed (snd out)) = false).
Proof.
  intros U heap. repeat split; vm_compute; reflexivity.
Qed.

(** ** Reasoning about what a validator pushes *)

(** [yields m Q]: whatever the store, [m] ends with an outcome [r]
    after pushing issues [l] such that [Q r l]. *)
Definition yields {A : Type} (m : M A) (Q : result A -> list ValidationIssue -> Prop)
  : Prop :=
  exists r l, Q r l /\ forall s, m s = (r, extend l s).

(** [returns m]: [m] never raises. *)
Definition returns {A : Type} (m : M A) : Prop := yields m (fun r _ => exists a, r = Ok a).

(** [then_has x]: the computation has returned and pushed [x]. *)
Definition then_has {A : Type} (x : ValidationIssue)
  : result A -> list ValidationIssue -> Prop :=
  fun r l => (exists a, r = Ok a) /\ In x l.

Definition member (ps : list (string * value)) (k : string) : value :=
  match assoc k ps with Some x => x | None => object_member k end.

Lemma dot_obj ps k : val (VObj ps) # k = Ok (member ps k).
Proof. unfold dot, val, member; simpl. now destruct (assoc k ps). Qed.

Lemma ifM_Ok {A} (b : bool) (x y : M A) : ifM (Ok b) x y = if b then x else y.
Proof. destruct b; reflexivity. Qed.

Lemma bind_lift_Ok {A B} (a : A) (f : A -> M B) : bind (lift (Ok a)) f = f a.
Proof. reflexivity. Qed.

Lemma returns_ret {A} (a : A) : returns (ret a).
Proof. exists (Ok a), []; split; [now exists a | intro s; now rewrite extend_nil]. Qed.

Lemma returns_emit i sev path msg actual expected :
  match actual with Some e => exists v, e = Ok v | None => True end ->
  returns (emit i sev path msg actual expected).
Proof.
  intro H. destruct actual as [e |].
  - destruct H as [v ->]. eexists (Ok tt), [_]; split; [now exists tt | reflexivity].
  - eexists (Ok tt), [_]; split; [now exists tt | reflexivity].
Qed.

Lemma returns_when c m : (exists b, c = Ok b) -> returns m -> returns (when c m).
Proof.
  intros [b ->] H. unfold when. rewrite ifM_Ok. destruct b; [exact H | apply returns_ret].
Qed.

Lemma returns_seq {A} (m : M unit) (k : M A) : returns m -> returns k -> returns (seq m k).
Proof.
  intros (r & l & [a ->] & Hm) (r' & l' & [a' ->] & Hk).
  exists (Ok a'), (l ++ l')%list; split; [now exists a' |].
  intro s; unfold seq, bind; now rewrite Hm, Hk, extend_app.
Qed.

(** After a head that returns, the tail decides whether [x] is there. *)
Lemma then_has_later {A} (m : M unit) (k : M A) x :
  returns m -> yields k (then_has x) -> yields (seq m k) (then_has x).
Proof.
  intros (r & l & [a ->] & Hm) (r' & l' & [Hr Hx] & Hk).
  exists r', (l ++ l')%list; split; [split; [exact Hr | apply in_or_app; now right] |].
  intro s; unfold seq, bind; now rewrite Hm, Hk, extend_app.
Qed.

(** A head that has pushed [x], followed by a tail that returns. *)
Lemma then_has_now {A} (m : M unit) (k : M A) x :
  yields m (then_has x) -> returns k -> yields (seq m k) (then_has x).
Proof.
  intros (r & l & [[a ->] Hx] & Hm) (r' & l' & [a' ->] & Hk).
  exists (Ok a'), (l ++ l')%list.
  split; [split; [now exists a' | apply in_or_app; now left] |].
  intro s; unfold seq, bind; now rewrite Hm, Hk, extend_app.
Qed.

Lemma then_has_emit c i sev path msg actual a expected :
  c = Ok true ->
  match actual with Some e => e = Ok a | None => True end ->
  yields (when c (emit i sev path msg actual expected))
    (then_has {| id := i; severity := sev; fieldPath := path; message := msg;
                 actualValue := match actual with Some _ => Some a | None => None end;
                 expectedValue := expected; specReference := None |}).
Proof.
  intros -> H. destruct actual as [e |]; [subst e |];
    (eexists (Ok tt), [_]; split; [split; [now exists tt | now left] | reflexivity]).
Qed.

(** A condition over members of objects evaluates without raising. *)
Ltac cond_ok :=
  rewrite ?dot_obj;
  unfold notU, neN, eqN, isU, T, F, test, andR, orR, notR; simpl;
  repeat match goal with |- context [if ?b then _ else _] => destruct b; simpl end;
  eexists; reflexivity.

(** ** Which values can own a property *)

Lemma inherited_not_num own c p k x :
  (forall y, p <> VNum y) -> inherited own c p k <> VNum x.
Proof.
  intro Hp. unfold inherited, object_member.
  repeat match goal with |- context [if ?b then _ else _] => destruct b end;
    first [discriminate | apply Hp].
Qed.

(** A number read under a name other than [length] is an own property
    of an object. *)
Lemma number_member_owner v k x :
  get v k = Ok (VNum x) -> String.eqb k "length" = false -> array_index k = None ->
  exists ps, v = VObj ps.
Proof.
  intros H Hk Hi. destruct v; simpl in H; rewrite ?Hk, ?Hi in H; simpl in H;
    try discriminate.
  all: try (injection H as H; now apply inherited_not_num in H).
  - now exists props.
  - destruct (k =? "name")%string; try discriminate.
    injection H as H; now apply inherited_not_num in H.
Qed.

(** So is an object read under a name other than [__proto__]. *)
Lemma object_member_owner v k ps :
  get v k = Ok (VObj ps) -> String.eqb k "__proto__" = false -> array_index k = None ->
  exists qs, v = VObj qs.
Proof.
  intros H Hk Hi. destruct v; simpl in H; rewrite ?Hi in H; simpl in H;
    try discriminate.
  all: try now eexists.
  all: unfold inherited, object_member in H; rewrite ?Hk in H.
  all: repeat match type of H with context [if ?b then _ else _] => destruct b end;
       discriminate.
Qed.

(** ** GDPR without a consent string *)

Definition consent_issue : ValidationIssue :=
  {| id := "Core-Regs-003";
     severity := error;
     fieldPath := "BidRequest.user.ext.consent";
     message := "user.ext.consent (TCF String) must be present when gdpr=1";
     actualValue := None;
     expectedValue := Some "Valid TCF consent string";
     specReference := None |}.

(** [validateRegs] never raises on a payload whose [regs.ext.gdpr] is 1
    and whose [user.ext.consent] is missing or falsy, and pushes the
    consent error. *)
Lemma validateRegs_requires_consent (bidRequest : value) :
  eqN (bidRequest # "regs" # "ext" # "gdpr") 1 = Ok true ->
  F (bidRequest # "user" #? "ext" #? "consent") = Ok true ->
  yields (validateRegs bidRequest) (then_has consent_issue).
Proof.
  intros Hg Hc.
  unfold eqN, test, dot at 1 2 3, val in Hg; simpl in Hg.
  destruct (get bidRequest "regs") as [regs |] eqn:Hregs; [| discriminate]; simpl in Hg.
  destruct (get regs "ext") as [ext |] eqn:Hext; [| discriminate]; simpl in Hg.
  destruct (get ext "gdpr") as [g |] eqn:Hgdpr; [| discriminate]; simpl in Hg.
  injection Hg as Hg1. destruct g as [| | | x | | | |]; try discriminate.
  destruct (number_member_owner _ _ _ Hgdpr eq_refl eq_refl) as [es ->].
  destruct (object_member_owner _ _ _ Hext eq_refl eq_refl) as [rs ->].
  destruct (object_member_owner _ _ _ Hregs eq_refl eq_refl) as [bs ->].
  assert (E0 : val (VObj bs) # "regs" = Ok (VObj rs)) by exact Hregs.
  assert (E1 : val (VObj rs) # "ext" = Ok (VObj es)) by exact Hext.
  assert (E2 : val (VObj rs) # "ext" #? "gdpr" = Ok (VNum x))
    by (unfold qdot; rewrite E1; exact Hgdpr).
  assert (E3 : val (VObj rs) # "ext" # "gdpr" = Ok (VNum x))
    by (unfold dot at 1; rewrite E1; exact Hgdpr).
  unfold validateRegs. rewrite E0.
  change (F (Ok (VObj rs))) with (Ok (A:=bool) false).
  rewrite ifM_Ok, bind_lift_Ok, E2, E3, Hc.
  apply then_has_later.
  { apply returns_when; [cond_ok | apply returns_emit; rewrite dot_obj; eexists; reflexivity]. }
  apply then_has_later.
  { apply returns_when; [cond_ok | apply returns_emit; eexists; reflexivity]. }
  apply then_has_now.
  - apply (then_has_emit _ _ _ _ _ None VUndefined); [| exact I].
    unfold eqN, test, andR; simpl. simpl in Hg1. now rewrite Hg1.
  - apply returns_when; [cond_ok | apply returns_emit; exact I].
Qed.

(** What a writer pushed stays: later validators only append. *)
Lemma writes_grows {A} (m : M A) s r s' :
  writes any m -> m s = (r, s') -> exists l, s' = extend l s.
Proof.
  intros (r0 & l & _ & Hm) H. rewrite Hm in H. injection H as _ <-. now exists l.
Qed.

Lemma seq_In_right {A} (m : M unit) (k : M A) x s a s' :
  (forall s1 s2, k s1 = (Ok a, s2) -> In x (pushed s2)) ->
  seq m k s = (Ok a, s') -> In x (pushed s').
Proof.
  intros Hk H. unfold seq, bind in H.
  destruct (m s) as [[[] | e] s1]; [| discriminate]. eapply Hk; eassumption.
Qed.

(** [has x]: the issue [x] was pushed, however the computation ended. *)
Definition has {A : Type} (x : ValidationIssue)
  : result A -> list ValidationIssue -> Prop :=
  fun _ l => In x l.

Lemma has_of_then_has {A} (m : M A) x : yields m (then_has x) -> yields m (has x).
Proof. intros (r & l & [_ Hx] & Hm); now exists r, l. Qed.

Lemma seq_In_left {A} (m : M unit) (k : M A) x s a s' :
  yields m (has x) -> writes any k ->
  seq m k s = (Ok a, s') -> In x (pushed s').
Proof.
  intros (r & l & Hx & Hm) Hk H. unfold seq, bind in H. rewrite Hm in H.
  destruct r as [[] | e]; [| discriminate].
  destruct (writes_grows _ _ _ _ Hk H) as [l' ->]. rewrite extend_app; simpl.
  apply in_or_app; right; apply in_or_app; now left.
Qed.

Lemma has_error_not_valid x l :
  In x l -> severity x = error -> Nat.eqb (List.length (List.filter is_error l)) 0 = false.
Proof.
  intros Hx He. destruct (Nat.eqb _ 0) eqn:E; [| reflexivity].
  apply no_error_count with (i := x) in E; [contradiction | assumption].
Qed.

(** C8.  On every payload whose [regs.ext.gdpr] is 1 and whose
    [user.ext.consent] is absent or falsy, [validateRegs] returns and
    pushes an error on the path [BidRequest.user.ext.consent] that
    reports the missing TCF consent string; every result
    [validateBidRequest] returns for such a payload holds that error,
    and is not valid. *)
Theorem gdpr_without_consent_is_reported :
  forall (URL_parses : string -> bool) (jsonString : string) (bidRequest : value)
         (heap : nat -> nat),
    Json.parse jsonString = Ok bidRequest ->
    eqN (bidRequest # "regs" # "ext" # "gdpr") 1 = Ok true ->
    F (bidRequest # "user" #? "ext" #? "consent") = Ok true ->
    (forall s, exists l,
        validateRegs bidRequest s = (Ok tt, extend l s) /\ In consent_issue l)
    /\ (forall r heap',
          validateBidRequest URL_parses jsonString heap = (Ok r, heap') ->
          In consent_issue (issues r) /\ isValid r = false).
Proof.
  intros U text br heap Hp Hg Hc.
  pose proof (validateRegs_requires_consent br Hg Hc) as Y.
  split.
  - intro s. destruct Y as (r & l & [[[] ->] Hx] & Hm). exists l; now rewrite Hm.
  - intros r heap' H. unfold validateBidRequest in H. rewrite Hp in H.
    destruct (detectBidRequestCharacteristics br) as [c | e]; [| discriminate].
    destruct (run_validators U br _) as [[[] | e] st] eqn:Hrun; [| discriminate].
    injection H as <- _; simpl.
    assert (Hin : In consent_issue (pushed st)).
    { revert Hrun. unfold run_validators.
      do 6 (apply seq_In_right; intros ? ?).
      apply seq_In_left; [exact (has_of_then_has _ _ Y) | chain_writes]. }
    split; [exact Hin | now apply (has_error_not_valid consent_issue)].
Qed.

(** The text [{"regs":{"ext":{"gdpr":1}}}]. *)
Definition gdpr_only : string :=
  "{" ++ quoted "regs" ++ ":{" ++ quoted "ext" ++ ":{" ++ quoted "gdpr" ++ ":1}}}".

Definition gdpr_only_payload : value :=
  VObj [("regs", VObj [("ext", VObj [("gdpr", VNum 1)])])].

Lemma gdpr_without_consent_is_reported_witness :
  exists r,
    validateBidRequest lenient_host gdpr_only fresh_heap = (Ok r, fresh_heap)
    /\ In consent_issue (issues r) /\ isValid r = false.
Proof.
  eexists. split; [vm_compute; reflexivity |].
  refine (proj2 (gdpr_without_consent_is_reported lenient_host gdpr_only gdpr_only_payload
                   fresh_heap _ _ _) _ fresh_heap _); vm_compute; reflexivity.
Defined.

(** ** Store URL against bundle *)

Definition apple_store_url : string := "https://apps.apple.com/us/app/id123456789".

(** The issue rule 15 raises for the bundle [999] under that URL. *)
Definition mismatch_999 : ValidationIssue :=
  {| id := "EQ-App-IOS-015";
     severity := error;
     fieldPath := "BidRequest.app";
     message := "Bundle ID mismatch: bundle (999) doesn't match store URL (123456789)";
     actualValue := Some (VStr "999");
     expectedValue := Some "123456789";
     specReference := None |}.

(** The URL matches the third iOS pattern, which captures
    [123456789]: with that bundle nothing is pushed, with [999] the
    mismatch and nothing else. *)
Lemma apple_url_matching_bundle s :
  validateStoreUrlAndBundle apple_store_url "123456789" s = (Ok tt, s).
Proof. destruct s as [p h]. vm_compute. reflexivity. Qed.

Lemma apple_url_other_bundle s :
  validateStoreUrlAndBundle apple_store_url "999" s = (Ok tt, extend [mismatch_999] s).
Proof. destruct s as [p h]. vm_compute. reflexivity. Qed.

Lemma inherited_not_str own c p k x :
  (forall y, p <> VStr y) -> inherited own c p k <> VStr x.
Proof.
  intro Hp. unfold inherited, object_member.
  repeat match goal with |- context [if ?b then _ else _] => destruct b end;
    first [discriminate | apply Hp].
Qed.

(** A string read under a name other than [name] is an own property of
    an object. *)
Lemma string_member_owner v k x :
  get v k = Ok (VStr x) -> String.eqb k "name" = false -> array_index k = None ->
  exists ps, v = VObj ps.
Proof.
  intros H Hk Hi. destruct v; simpl in H; rewrite ?Hk, ?Hi in H; simpl in H;
    try discriminate.
  all: try (injection H as H; now apply inherited_not_str in H).
  - destruct (k =? "length")%string; try discriminate.
    injection H as H; now apply inherited_not_str in H.
  - destruct (k =? "length")%string; try discriminate.
    injection H as H; now apply inherited_not_str in H.
  - now exists props.
Qed.

Lemma present_string_guard s :
  falsy (VStr s) = false ->
  F (Ok (VStr s)) ||| typeIsNot (Ok (VStr s)) "string" = Ok false.
Proof.
  intro H. unfold F, typeIsNot, typeIs, test, orR, notR; simpl. simpl in H. now rewrite H.
Qed.

(** When [app.storeurl] and [app.bundle] are non-empty strings,
    [validateApp] runs the cross-check and then rules that push no
    bundle mismatch. *)
Lemma validateApp_cross_checks (URL_parses : string -> bool) (bidRequest app : value)
    (url b : string) :
  bidRequest # "app" = Ok app ->
  app # "storeurl" = Ok (VStr url) ->
  app # "bundle" = Ok (VStr b) ->
  falsy (VStr url) = false -> falsy (VStr b) = false ->
  exists rest,
    writes not_mismatch rest
    /\ validateApp URL_parses bidRequest = seq (validateStoreUrlAndBundle url b) rest.
Proof.
  intros Ha Hs Hb Tu Tb.
  destruct (string_member_owner _ _ _ Hs eq_refl eq_refl) as [ps ->].
  unfold validateApp. rewrite Ha.
  change (F (Ok (VObj ps))) with (Ok (A:=bool) false).
  rewrite ifM_Ok, bind_lift_Ok, Hs, Hb.
  rewrite !present_string_guard by assumption. rewrite !ifM_Ok.
  change (rbind (Ok (VStr url)) toString) with (Ok url).
  change (rbind (Ok (VStr b)) toString) with (Ok b).
  rewrite !bind_lift_Ok.
  eexists; split; [| reflexivity].
  writes_auto; apply unless_URL_writes; writes_auto.
Qed.

Lemma Forall_not_mismatch l :
  Forall not_mismatch l -> forallb (fun i => negb (bundle_mismatch i)) l = true.
Proof.
  induction 1 as [| x l Hx _ IH]; simpl; [reflexivity |].
  unfold not_mismatch in Hx. now rewrite Hx, IH.
Qed.

(** C7.  For a payload whose [app.storeurl] is
    [https://apps.apple.com/us/app/id123456789]: when [app.bundle] is
    [123456789], no issue of the result is a bundle mismatch; when it
    is [999], the result holds the mismatch error, which names the
    bundle [999] and the identifier [123456789] taken from the URL. *)
Theorem store_url_bundle_cross_check :
  forall (URL_parses : string -> bool) (jsonString : string) (bidRequest app : value)
         (b : string) (heap heap' : nat -> nat) (r : BidRequestValidationResult),
    Json.parse jsonString = Ok bidRequest ->
    bidRequest # "app" = Ok app ->
    app # "storeurl" = Ok (VStr apple_store_url) ->
    app # "bundle" = Ok (VStr b) ->
    validateBidRequest URL_parses jsonString heap = (Ok r, heap') ->
    (b = "123456789" -> forallb (fun i => negb (bundle_mismatch i)) (issues r) = true)
    /\ (b = "999" ->
        In mismatch_999 (issues r) /\ bundle_mismatch mismatch_999 = true
        /\ mentions "(999)" mismatch_999 = true
        /\ mentions "(123456789)" mismatch_999 = true).
Proof.
  intros U text br app b heap heap' r Hp Ha Hs Hb H.
  unfold validateBidRequest in H. rewrite Hp in H.
  destruct (detectBidRequestCharacteristics br) as [c | e]; [| discriminate].
  destruct (run_validators U br _) as [[[] | e] st] eqn:Hrun; [| discriminate].
  injection H as <- _; simpl.
  split; intros ->.
  - destruct (validateApp_cross_checks U br app _ _ Ha Hs Hb eq_refl eq_refl)
      as (rest & Hrest & Happ).
    assert (W : writes not_mismatch (validateApp U br)).
    { rewrite Happ. apply writes_seq; [| exact Hrest].
      exists (Ok tt), []; split; [constructor |].
      intro s; now rewrite apple_url_matching_bundle, extend_nil. }
    assert (R : writes not_mismatch (run_validators U br)).
    { unfold run_validators.
      repeat (apply writes_seq; [first [exact W | validator_writes] |]).
      validator_writes. }
    destruct R as (r0 & l & Hl & Hr). rewrite Hr in Hrun.
    injection Hrun as _ <-. simpl. now apply Forall_not_mismatch.
  - split; [| repeat split; vm_compute; reflexivity].
    destruct (validateApp_cross_checks U br app _ _ Ha Hs Hb eq_refl eq_refl)
      as (rest & Hrest & Happ).
    assert (Y : yields (validateApp U br) (has mismatch_999)).
    { rewrite Happ. destruct Hrest as (r1 & l1 & _ & Hr1).
      exists r1, (mismatch_999 :: l1); split; [now left |].
      intro s. unfold seq, bind.
      now rewrite apple_url_other_bundle, Hr1, extend_app. }
    revert Hrun. unfold run_validators.
    do 2 (apply seq_In_right; intros ? ?).
    apply seq_In_left; [exact Y | chain_writes].
Qed.

(** The texts
    [{"app":{"storeurl":"https://apps.apple.com/us/app/id123456789","bundle":B}}]
    for a bundle [B]. *)
Definition apple_app (b : string) : string :=
  "{" ++ quoted "app" ++ ":{" ++ quoted "storeurl" ++ ":" ++ quoted apple_store_url ++ ","
      ++ quoted "bundle" ++ ":" ++ quoted b ++ "}}".

Definition apple_app_payload (b : string) : value :=
  VObj [("app", VObj [("storeurl", VStr apple_store_url); ("bundle", VStr b)])].

Lemma store_url_bundle_cross_check_witness :
  (exists r,
     validateBidRequest lenient_host (apple_app "123456789") fresh_heap = (Ok r, fresh_heap)
     /\ forallb (fun i => negb (bundle_mismatch i)) (issues r) = true)
  /\ (exists r,
        validateBidRequest lenient_host (apple_app "999") fresh_heap = (Ok r, fresh_heap)
        /\ In mismatch_999 (issues r)).
Proof.
  split; eexists; (split; [vm_compute; reflexivity |]).
  - refine (proj1 (store_url_bundle_cross_check lenient_host (apple_app "123456789")
                     (apple_app_payload "123456789")
                     (VObj [("storeurl", VStr apple_store_url); ("bundle", VStr "123456789")])
                     "123456789" fresh_heap fresh_heap _ _ _ _ _ _) eq_refl);
      vm_compute; reflexivity.
  - refine (proj1 (proj2 (store_url_bundle_cross_check lenient_host (apple_app "999")
                     (apple_app_payload "999")
                     (VObj [("storeurl", VStr apple_store_url); ("bundle", VStr "999")])
                     "999" fresh_heap fresh_heap _ _ _ _ _ _) eq_refl));
      vm_compute; reflexivity.
Defined.

(** ** The primary type *)

(** [carries imp k]: the impression [imp] has a truthy member [k]. *)
Definition carries (imp : value) (k : string) : bool :=
  match get imp k with
  | Ok v => truthy v
  | Throw _ => false
  end.

(** The format labels of one impression, in the order the detector
    tests them. *)
Definition format_labels (imp : value) : list string :=
  ((if carries imp "video" then ["Video"] else [])
   ++ (if carries imp "native" then ["Native"] else [])
   ++ (if carries imp "banner" then ["Display"] else [])
   ++ (if carries imp "audio" then ["Audio"] else []))%list.

Definition joined (labels : list string) : string :=
  match labels with
  | [] => "Unknown"
  | _ => Str.join ", " labels
  end.

(** The primary type as the detector computes it: one label for each
    format of each impression. *)
Definition primaryType_listed (imps : list value) : string :=
  joined (flat_map format_labels imps).

Fixpoint first_seen (l seen : list string) : list string :=
  match l with
  | [] => []
  | x :: r => if mem x seen then first_seen r seen else x :: first_seen r (x :: seen)
  end.

(** The primary type in the words of the specification: the labels
    without repetition, in first-seen order. *)
Definition primaryType_deduplicated (imps : list value) : string :=
  joined (first_seen (flat_map format_labels imps) []).

(** The text [{"imp":[{"video":{}},{"video":{}}]}]. *)
Definition two_videos : string :=
  "{" ++ quoted "imp" ++ ":[{" ++ quoted "video" ++ ":{}},{" ++ quoted "video" ++ ":{}}]}".

Definition video_imp : value := VObj [("video", VObj [])].

Definition two_videos_payload : value := VObj [("imp", VArr [video_imp; video_imp])].

(** C4.  The code departs from the claim: for two impressions that
    both carry a video the primary type is [Video, Video], not the
    deduplicated [Video]. *)
Lemma primaryType_repeats_a_shared_format :
  Json.parse two_videos = Ok two_videos_payload
  /\ (exists c,
        detectBidRequestCharacteristics two_videos_payload = Ok c
        /\ primaryType c = "Video, Video"
        /\ primaryType_deduplicated [video_imp; video_imp] = "Video"
        /\ primaryType c <> primaryType_deduplicated [video_imp; video_imp])
  /\ (exists r,
        validateBidRequest lenient_host two_videos fresh_heap = (Ok r, fresh_heap)
        /\ primaryType (detectedCharacteristics r) = "Video, Video").
Proof.
  split; [vm_compute; reflexivity |].
  split; eexists; (split; [vm_compute; reflexivity |]).
  - repeat split; try (vm_compute; reflexivity). vm_compute. discriminate.
  - reflexivity.
Qed.

Lemma rbind_Ok {A B} (m : result A) (f : A -> result B) b :
  rbind m f = Ok b -> exists a, m = Ok a /\ f a = Ok b.
Proof. destruct m as [a | e]; simpl; [now exists a | discriminate]. Qed.

Lemma T_carries (imp : value) k b : T (imp # k) = Ok b -> carries imp k = b.
Proof.
  unfold T, test, dot, val, carries; simpl.
  destruct (get imp k); simpl; [now intros [= <-] | discriminate].
Qed.

Lemma detect_imp_labels acc imp a :
  detect_imp acc imp = Ok a -> fst a = (fst acc ++ format_labels imp)%list.
Proof.
  destruct acc as [types formats]. unfold detect_imp.
  intro H.
  apply rbind_Ok in H as (hv & Hv & H). apply T_carries in Hv.
  apply rbind_Ok in H as (a1 & H1 & H).
  apply rbind_Ok in H as (hn & Hn & H). apply T_carries in Hn.
  apply rbind_Ok in H as (hb & Hb & H). apply T_carries in Hb.
  apply rbind_Ok in H as (ha & Ha & H). apply T_carries in Ha.
  injection H as <-.
  assert (E1 : fst a1 = (types ++ (if hv then ["Video"] else []))%list).
  { destruct hv.
    - apply rbind_Ok in H1 as (mimes & _ & H1).
      destruct (truthy mimes).
      + apply rbind_Ok in H1 as (m & _ & H1). now injection H1 as <-.
      + now injection H1 as <-.
    - injection H1 as <-. simpl. now rewrite app_nil_r. }
  unfold format_labels. rewrite Hv, Hn, Hb, Ha.
  destruct ha, hb, hn; simpl; rewrite E1, <- ?app_assoc; simpl;
    rewrite ?app_nil_r; reflexivity.
Qed.

Lemma detect_imps_labels l acc a :
  detect_imps l acc = Ok a -> fst a = (fst acc ++ flat_map format_labels l)%list.
Proof.
  revert acc; induction l as [| imp l IH]; intros acc H; simpl in H.
  - injection H as <-. simpl. now rewrite app_nil_r.
  - apply rbind_Ok in H as (a1 & H1 & H).
    apply IH in H. apply detect_imp_labels in H1.
    rewrite H, H1. simpl. now rewrite app_assoc.
Qed.

(** What the detector computes.  For every payload with an [imp] array, the primary
    type the detector returns lists the format labels among Video,
    Native, Display and Audio once for each impression that carries
    the format, impression by impression, joined with commas: a label
    repeats when several impressions share a format.  It is
    [Unknown] when no impression carries any of these formats. *)
Theorem primaryType_lists_formats_per_impression :
  forall (bidRequest : value) (imps : list value) (c : DetectedCharacteristics),
    bidRequest # "imp" = Ok (VArr imps) ->
    detectBidRequestCharacteristics bidRequest = Ok c ->
    primaryType c = primaryType_listed imps
    /\ ((forall imp, In imp imps -> format_labels imp = []) -> primaryType c = "Unknown").
Proof.
  intros br imps c Himp H.
  unfold detectBidRequestCharacteristics in H.
  apply rbind_Ok in H as (formats & Hf & H).
  apply rbind_Ok in H as (plat & _ & H).
  apply rbind_Ok in H as (info & _ & H).
  apply rbind_Ok in H as (signals & _ & H).
  apply rbind_Ok in H as (pod & _ & H).
  injection H as <-; simpl.
  unfold detect_formats in Hf. rewrite Himp in Hf. simpl in Hf.
  apply rbind_Ok in Hf as (a & Ha & Hf). injection Hf as <-; simpl.
  apply detect_imps_labels in Ha. simpl in Ha.
  split.
  - unfold primaryType_listed, joined. rewrite <- Ha. now destruct (fst a).
  - intro Hnone. rewrite Ha.
    assert (Z : flat_map format_labels imps = []).
    { clear -Hnone. induction imps as [| x l IH]; simpl; [reflexivity |].
      rewrite (Hnone x) by now left. apply IH. intros; apply Hnone; now right. }
    now rewrite Z.
Qed.

Lemma primaryType_lists_formats_per_impression_witness :
  exists c,
    detectBidRequestCharacteristics two_videos_payload = Ok c
    /\ primaryType c = primaryType_listed [video_imp; video_imp].
Proof.
  eexists. split; [vm_compute; reflexivity |].
  refine (proj1 (primaryType_lists_formats_per_impression two_videos_payload
                   [video_imp; video_imp] _ _ _)); vm_compute; reflexivity.
Defined.

(** ** Both generations of the [secure] rule, in general *)

Definition secure_issue (rule msg : string) (index : nat) (v : value) : ValidationIssue :=
  {| id := rule;
     severity := error;
     fieldPath := ("BidRequest.imp[" ++ Str.of_nat index ++ "]") ++ ".secure";
     message := msg;
     actualValue := Some v;
     expectedValue := Some "0 or 1";
     specReference := None |}.

(** [if_returned x]: [x] was pushed unless the computation raised. *)
Definition if_returned {A : Type} (x : ValidationIssue)
  : result A -> list ValidationIssue -> Prop :=
  fun r l => (exists a, r = Ok a) -> In x l.

Lemma if_returned_bind {A B} (m : M A) (f : A -> M B) x :
  writes any m -> (forall a, yields (f a) (if_returned x)) ->
  yields (bind m f) (if_returned x).
Proof.
  intros (r & l & _ & Hm) Hf. destruct r as [a | e].
  - destruct (Hf a) as (r' & l' & Hx & Hfa).
    exists r', (l ++ l')%list; split.
    + intro Hr. apply in_or_app; right; now apply Hx.
    + intro s; unfold bind; now rewrite Hm, Hfa, extend_app.
  - exists (Throw e), l; split; [intros [a Ha]; discriminate |].
    intro s; unfold bind; now rewrite Hm.
Qed.

Lemma if_returned_seq {A} (m : M unit) (k : M A) x :
  writes any m -> yields k (if_returned x) -> yields (seq m k) (if_returned x).
Proof. intros Hm Hk; apply if_returned_bind; [exact Hm | intros _; exact Hk]. Qed.

Lemma seq_run {A} (m : M unit) (k : M A) s s1 :
  m s = (Ok tt, s1) -> seq m k s = k s1.
Proof. intro H; unfold seq, bind; now rewrite H. Qed.

Lemma secure_guard (v : value) :
  is_undefined v = false -> eq_num v 0 = false -> eq_num v 1 = false ->
  notU (Ok v) &&& neN (Ok v) 0 &&& neN (Ok v) 1 = Ok true.
Proof.
  intros H1 H2 H3. unfold notU, neN, eqN, isU, test, notR, andR; simpl.
  now rewrite H1, H2, H3.
Qed.

Lemma secure_rules_both_fire (impIds : list string) (imp : value) (index : nat) (v : value) :
  imp # "secure" = Ok v ->
  is_undefined v = false -> eq_num v 0 = false -> eq_num v 1 = false ->
  yields (validateImpression impIds imp index)
    (fun r l =>
       In (secure_issue "EQ-Imp-036" "imp.secure must be either 0 or 1" index v) l
       /\ ((exists a, r = Ok a) ->
           In (secure_issue "Core-Imp-006" "secure must be 0 or 1" index v) l)).
Proof.
  intros Hs H1 H2 H3.
  unfold validateImpression. cbv zeta. rewrite Hs, (secure_guard v H1 H2 H3).
  match goal with |- yields (seq ?m ?k) _ =>
    assert (Hhead : forall s, m s = (Ok tt, extend [secure_issue "EQ-Imp-036" "imp.secure must be either 0 or 1" index v] s)) by reflexivity;
    assert (Htail : yields k (if_returned (secure_issue "Core-Imp-006" "secure must be 0 or 1" index v)))
  end.
  { apply if_returned_seq.
    { writes_auto. eapply writes_any, validateVideoImpressionRules_writes. }
    apply if_returned_seq; [writes_auto |].
    apply if_returned_bind; [writes_auto | intro impIds'].
    apply if_returned_bind; [writes_auto | intro hasVideo].
    apply if_returned_bind; [writes_auto | intro hasNative].
    apply if_returned_bind; [writes_auto | intro hasBanner].
    apply if_returned_seq; [writes_auto |].
    apply if_returned_seq; [writes_auto |].
    eexists (Ok impIds'), [_]; split; [intros _; now left | reflexivity]. }
  destruct Htail as (r & l & Hx & Hk).
  eexists r, (_ :: l); split.
  - split; [now left | intro Hr; right; now apply Hx].
  - intro s. now rewrite (seq_run _ _ _ _ (Hhead s)), Hk, extend_app.
Qed.

(** The text [{"imp":[{"id":"1","secure":2,"banner":{}}]}]: no video,
    and both generations of the rule report the same field. *)
Definition secure_on_banner : string :=
  "{" ++ quoted "imp" ++ ":[{" ++ quoted "id" ++ ":" ++ quoted "1" ++ ","
      ++ quoted "secure" ++ ":2," ++ quoted "banner" ++ ":{}}]}".

Lemma secure_rules_both_fire_example :
  forall (URL_parses : string -> bool) (heap : nat -> nat),
  exists r,
    validateBidRequest URL_parses secure_on_banner heap = (Ok r, heap)
    /\ In (secure_issue "EQ-Imp-036" "imp.secure must be either 0 or 1" 0 (VNum 2)) (issues r)
    /\ In (secure_issue "Core-Imp-006" "secure must be 0 or 1" 0 (VNum 2)) (issues r).
Proof.
  intros U heap. eexists. split; [vm_compute; reflexivity |].
  split; simpl; in_list.
Qed.

(** ** The aspect-ratio rule on every Connected-TV payload *)

(** The issue rule 53 raises on the impression [index] for a video of
    640 by 480. *)
Definition aspect_ratio_issue_at (index : nat) : ValidationIssue :=
  {| id := "EQ-CTV-053";
     severity := error;
     fieldPath := "BidRequest.imp[" ++ Str.of_nat index ++ "].video";
     message := "CTV: imp.video.h and imp.video.w should match a 16:9 aspect ratio";
     actualValue := Some (VStr "640x480 (1.33:1)");
     expectedValue := Some "16:9 aspect ratio";
     specReference := None |}.

(** What a step pushed unless it raised is there when the steps after
    it have run. *)
Lemma if_returned_left {A} (m : M unit) (k : M A) x :
  yields m (if_returned x) -> writes any k -> yields (seq m k) (if_returned x).
Proof.
  intros (r & l & Hx & Hm) (r' & l' & _ & Hk). destruct r as [[] | e].
  - exists r', (l ++ l')%list; split.
    + intros _. apply in_or_app; left. apply Hx. now exists tt.
    + intro s; unfold seq, bind; now rewrite Hm, Hk, extend_app.
  - exists (Throw e), l; split; [intros [a Ha]; discriminate |].
    intro s; unfold seq, bind; now rewrite Hm.
Qed.

(** A loop that returns has run its callback on every element. *)
Lemma forEach_from_if_returned (f : value -> nat -> M unit) x :
  (forall v j, writes any (f v j)) ->
  forall l i start v,
    nth_error l i = Some v ->
    yields (f v (start + i)%nat) (if_returned x) ->
    yields (forEach_from f l start) (if_returned x).
Proof.
  intros Wf. induction l as [| v0 r IH]; intros i start v Hn Hv.
  - destruct i; discriminate.
  - destruct i as [| i]; simpl in Hn.
    + injection Hn as ->. rewrite Nat.add_0_r in Hv. simpl.
      apply if_returned_left; [exact Hv | now apply writes_forEach_from].
    + simpl. apply if_returned_seq; [apply Wf |].
      apply (IH i (S start) v Hn). now rewrite <- Nat.add_succ_comm in Hv.
Qed.

Lemma seq_In_left_returned {A} (m : M unit) (k : M A) x s a s' :
  yields m (if_returned x) -> writes any k ->
  seq m k s = (Ok a, s') -> In x (pushed s').
Proof.
  intros (r & l & Hx & Hm) Hk H. unfold seq, bind in H. rewrite Hm in H.
  destruct r as [[] | e]; [| discriminate].
  destruct (writes_grows _ _ _ _ Hk H) as [l' ->]. rewrite extend_app; simpl.
  apply in_or_app; right; apply in_or_app; left. apply Hx. now exists tt.
Qed.

(** On a Connected-TV payload, [validateCTV] pushes the aspect-ratio
    error for every video impression of 640 by 480 that its first loop
    reaches. *)
Lemma validateCTV_aspect_ratio (bidRequest device imp video : value) (imps : list value)
    (index : nat) :
  bidRequest # "device" = Ok device ->
  device # "devicetype" = Ok (VNum 5) ->
  bidRequest # "imp" = Ok (VArr imps) ->
  nth_error imps index = Some imp ->
  imp # "video" = Ok video ->
  video # "w" = Ok (VNum 640) ->
  video # "h" = Ok (VNum 480) ->
  yields (validateCTV bidRequest) (if_returned (aspect_ratio_issue_at index)).
Proof.
  intros Hd Ht Hi Hn Hv Hw Hh.
  destruct (number_member_owner _ _ _ Ht eq_refl eq_refl) as [ds ->].
  destruct (number_member_owner _ _ _ Hw eq_refl eq_refl) as [vs ->].
  unfold validateCTV. unfold val in *. rewrite !Hd, !Ht, !Hi.
  change (F (Ok (VObj ds)) ||| neN (Ok (VNum 5)) 5) with (Ok (A:=bool) false).
  rewrite ifM_Ok.
  apply if_returned_seq; [writes_auto |].
  change (T (Ok (VArr imps))) with (Ok (A:=bool) true).
  unfold when at 1. rewrite ifM_Ok.
  apply if_returned_left; [| writes_auto].
  unfold forEach. change (elems (Ok (VArr imps))) with (Ok (A:=list value) imps).
  rewrite bind_lift_Ok.
  apply forEach_from_if_returned with (i := index) (v := imp);
    [intros; writes_auto | exact Hn |].
  cbv beta. simpl Nat.add. rewrite !Hv.
  change (F (Ok (VObj vs))) with (Ok (A:=bool) false).
  rewrite ifM_Ok, bind_lift_Ok. cbv zeta. rewrite !Hw, !Hh.
  apply if_returned_seq; [writes_auto |].
  exists (Ok tt), [aspect_ratio_issue_at index]. split; [intros _; now left |].
  intros [p h]. lazy. reflexivity.
Qed.

(** C5, amended.  For every payload whose [device.devicetype] is 5 and
    whose [imp] array holds, at any index, a video impression of 640 by
    480, every result [validateBidRequest] returns holds the
    aspect-ratio error of rule 53 on that impression (the ratio 640/480
    is further than 0.1 from 16/9), its actual value reading
    [640x480 (1.33:1)] against the expected [16:9 aspect ratio], and is
    not valid. *)
Theorem ctv_640x480_reports_aspect_ratio :
  forall (URL_parses : string -> bool) (jsonString : string)
         (bidRequest device imp video : value) (imps : list value) (index : nat)
         (heap heap' : nat -> nat) (r : BidRequestValidationResult),
    Json.parse jsonString = Ok bidRequest ->
    bidRequest # "device" = Ok device ->
    device # "devicetype" = Ok (VNum 5) ->
    bidRequest # "imp" = Ok (VArr imps) ->
    nth_error imps index = Some imp ->
    imp # "video" = Ok video ->
    video # "w" = Ok (VNum 640) ->
    video # "h" = Ok (VNum 480) ->
    validateBidRequest URL_parses jsonString heap = (Ok r, heap') ->
    In (aspect_ratio_issue_at index) (issues r)
    /\ isValid r = false
    /\ PrimFloat.ltb tolerance
         (PrimFloat.abs (PrimFloat.sub (PrimFloat.div 640 480) expectedRatio)) = true
    /\ Num.toFixed (PrimFloat.div 640 480) 2 = "1.33".
Proof.
  intros U text br device imp video imps index heap heap' r Hp Hd Ht Hi Hn Hv Hw Hh H.
  pose proof (validateCTV_aspect_ratio br device imp video imps index Hd Ht Hi Hn Hv Hw Hh)
    as Y.
  unfold validateBidRequest in H. rewrite Hp in H.
  destruct (detectBidRequestCharacteristics br) as [c | e]; [| discriminate].
  destruct (run_validators U br _) as [[[] | e] st] eqn:Hrun; [| discriminate].
  injection H as <- _; simpl.
  assert (Hin : In (aspect_ratio_issue_at index) (pushed st)).
  { revert Hrun. unfold run_validators.
    do 11 (apply seq_In_right; intros ? ?).
    apply seq_In_left_returned; [exact Y | chain_writes]. }
  split; [exact Hin |].
  split; [now apply (has_error_not_valid (aspect_ratio_issue_at index)) |].
  split; vm_compute; reflexivity.
Qed.

(** The text
    [{"device":{"devicetype":5},"imp":[{"banner":{}},{"video":{"w":640,"h":480}}]}]:
    the video is the second impression. *)
Definition ctv_second_imp : string :=
  "{" ++ quoted "device" ++ ":{" ++ quoted "devicetype" ++ ":5},"
      ++ quoted "imp" ++ ":[{" ++ quoted "banner" ++ ":{}},{" ++ quoted "video" ++ ":{"
      ++ quoted "w" ++ ":640," ++ quoted "h" ++ ":480}}]}".

Definition ctv_second_imp_payload : value :=
  VObj [("device", VObj [("devicetype", VNum 5)]);
        ("imp", VArr [VObj [("banner", VObj [])];
                      VObj [("video", VObj [("w", VNum 640); ("h", VNum 480)])]])].

Lemma ctv_640x480_reports_aspect_ratio_witness :
  (exists r,
     validateBidRequest lenient_host ctv_640x480 fresh_heap = (Ok r, fresh_heap)
     /\ In (aspect_ratio_issue_at 0) (issues r) /\ isValid r = false)
  /\ (exists r,
        validateBidRequest lenient_host ctv_second_imp fresh_heap = (Ok r, fresh_heap)
        /\ In (aspect_ratio_issue_at 1) (issues r) /\ isValid r = false).
Proof.
  split; eexists; (split; [vm_compute; reflexivity |]).
  - refine (let H := ctv_640x480_reports_aspect_ratio lenient_host ctv_640x480
                       ctv_640x480_payload (VObj [("devicetype", VNum 5)])
                       (VObj [("video", VObj [("w", VNum 640); ("h", VNum 480)])])
                       (VObj [("w", VNum 640); ("h", VNum 480)])
                       [VObj [("video", VObj [("w", VNum 640); ("h", VNum 480)])]]
                       0 fresh_heap fresh_heap _ _ _ _ _ _ _ _ _ _
            in conj (proj1 H) (proj1 (proj2 H))); vm_compute; reflexivity.
  - refine (let H := ctv_640x480_reports_aspect_ratio lenient_host ctv_second_imp
                       ctv_second_imp_payload (VObj [("devicetype", VNum 5)])
                       (VObj [("video", VObj [("w", VNum 640); ("h", VNum 480)])])
                       (VObj [("w", VNum 640); ("h", VNum 480)])
                       [VObj [("banner", VObj [])];
                        VObj [("video", VObj [("w", VNum 640); ("h", VNum 480)])]]
                       1 fresh_heap fresh_heap _ _ _ _ _ _ _ _ _ _
            in conj (proj1 H) (proj1 (proj2 H))); vm_compute; reflexivity.
Defined.

(** * Further properties of the validator *)

Local Close Scope Z_scope.

(** * What every issue satisfies *)

(** The issue comes from one of the two venue rules of [validateDOOH]. *)
Definition venue_rule (i : ValidationIssue) : bool :=
  String.eqb (id i) "DOOH-002" || String.eqb (id i) "DOOH-003".

(** The field path starts at the request, or at a [dooh] object for the
    venue rules. *)
Definition rooted (i : ValidationIssue) : bool :=
  if venue_rule i then Str.starts_with "dooh[" (fieldPath i)
  else Str.starts_with "BidRequest" (fieldPath i).

(** The issue comes from one of the two rules of [validateApp] that
    repeat the tests of rules 7 and 8 after them. *)
Definition shadowed_rule (i : ValidationIssue) : bool :=
  String.eqb (id i) "Core-App-001" || String.eqb (id i) "Core-App-002".

Definition regular (i : ValidationIssue) : Prop :=
  sev_eqb (severity i) info = false /\ rooted i = true /\ shadowed_rule i = false.

Lemma writes_when_false (P : ValidationIssue -> Prop) (c : result bool) (m : M unit) :
  c = Ok false -> writes P (when c m).
Proof. intros ->. unfold when. rewrite ifM_Ok. apply writes_ret. Qed.

Lemma writes_ifM_case {A} (P : ValidationIssue -> Prop) (c : result bool) (a b : M A) :
  (c = Ok true -> writes P a) -> (c = Ok false -> writes P b) -> writes P (ifM c a b).
Proof.
  intros Ha Hb. destruct c as [[|] | e].
  - rewrite ifM_Ok; auto.
  - rewrite ifM_Ok; auto.
  - exists (Throw e), []; split; [constructor | intro s; now rewrite extend_nil].
Qed.

(** One step of a proof that a validator writes regular issues. *)
Ltac regular_step :=
  lazymatch goal with
  | |- writes _ (emit _ _ _ _ _ _) =>
      apply writes_emit; intro; repeat split; reflexivity
  | |- _ => writes_step
  end.

Ltac regular_auto := cbv zeta; repeat (regular_step; cbv zeta).

Lemma validateCoreBidRequest_regular br : writes regular (validateCoreBidRequest br).
Proof. unfold validateCoreBidRequest; regular_auto. Qed.

Lemma try_patterns_regular platform config ps storeUrl bundle :
  Regex.global (lit (bundlePattern config)) = false ->
  Forall (fun r => Regex.global (lit r) = false) ps ->
  writes regular (try_patterns platform config ps storeUrl bundle).
Proof.
  intros Hb Hps; induction Hps as [| pattern rest Hp _ IH]; simpl.
  - apply writes_ret.
  - apply writes_bind; [now apply writes_match_ |].
    intros [mt |]; [| exact IH].
    apply writes_bind; [now apply writes_test_ | intro ok].
    regular_auto.
Qed.

Lemma try_platforms_regular entries storeUrl bundle :
  Forall (fun pc => Regex.global (lit (bundlePattern (snd pc))) = false
                    /\ Forall (fun r => Regex.global (lit r) = false) (patterns (snd pc)))
         entries ->
  writes regular (try_platforms entries storeUrl bundle).
Proof.
  intro H; induction H as [| [platform config] rest [Hb Hp] _ IH]; simpl.
  - apply writes_ret.
  - apply writes_bind; [now apply try_patterns_regular |].
    intros []; [apply writes_ret | exact IH].
Qed.

Lemma validateStoreUrlAndBundle_regular storeUrl bundle :
  writes regular (validateStoreUrlAndBundle storeUrl bundle).
Proof.
  unfold validateStoreUrlAndBundle.
  apply writes_bind; [apply try_platforms_regular, registry_entries_not_global | intro].
  regular_auto.
Qed.

Lemma validateCountryDatacenterMatch_regular country datacenterId :
  writes regular (validateCountryDatacenterMatch country datacenterId).
Proof. unfold validateCountryDatacenterMatch; regular_auto. Qed.

Lemma validateDevice_regular br : writes regular (validateDevice br).
Proof.
  unfold validateDevice; regular_auto; apply validateCountryDatacenterMatch_regular.
Qed.

Lemma validateVideoImpressionRules_regular video i :
  writes regular (validateVideoImpressionRules video i).
Proof. unfold validateVideoImpressionRules; regular_auto. Qed.

Lemma validateImpression_regular ids imp i : writes regular (validateImpression ids imp i).
Proof.
  unfold validateImpression; regular_auto; apply validateVideoImpressionRules_regular.
Qed.

Lemma validateImpressions_from_regular l i ids :
  writes regular (validateImpressions_from l i ids).
Proof.
  revert i ids; induction l as [| imp l IH]; intros i ids; simpl.
  - apply writes_ret.
  - apply writes_bind; [apply validateImpression_regular | intro; apply IH].
Qed.

Lemma validateImpressions_regular br : writes regular (validateImpressions br).
Proof.
  unfold validateImpressions; regular_auto; apply validateImpressions_from_regular.
Qed.

Lemma validateCTV_regular br : writes regular (validateCTV br).
Proof. unfold validateCTV; regular_auto. Qed.

Lemma validateEquativRules_regular br : writes regular (validateEquativRules br).
Proof. unfold validateEquativRules; regular_auto. Qed.

Lemma validateVideo_regular br : writes regular (validateVideo br).
Proof. unfold validateVideo; regular_auto. Qed.

Lemma validateNative_regular br : writes regular (validateNative br).
Proof. unfold validateNative; regular_auto. Qed.

Lemma validateBanner_regular br : writes regular (validateBanner br).
Proof. unfold validateBanner; regular_auto. Qed.

Lemma validateUser_regular br : writes regular (validateUser br).
Proof. unfold validateUser; regular_auto. Qed.

Lemma validateRegs_regular br : writes regular (validateRegs br).
Proof. unfold validateRegs; regular_auto. Qed.

Lemma validateSource_regular br : writes regular (validateSource br).
Proof. unfold validateSource; regular_auto. Qed.

Lemma validateDOOH_regular br : writes regular (validateDOOH br).
Proof. unfold validateDOOH; regular_auto. Qed.

Lemma validateAdvanced_regular br : writes regular (validateAdvanced br).
Proof. unfold validateAdvanced; regular_auto. Qed.

Lemma validateSite_regular U br : writes regular (validateSite U br).
Proof. unfold validateSite; regular_auto; apply unless_URL_writes; regular_auto. Qed.

(** In [validateApp] the rules [Core-App-001] and [Core-App-002] stand
    after tests of the same conditions that return early: when they
    are reached their conditions are false. *)
Ltac app_step :=
  lazymatch goal with
  | H : ?c = Ok false |- writes _ (when ?c _) => apply writes_when_false; exact H
  | H : ?c = Ok false |- writes _ (ifM ?c _ _) => rewrite H, ifM_Ok
  | |- _ => regular_step
  end.

Lemma validateApp_regular U br : writes regular (validateApp U br).
Proof.
  unfold validateApp.
  apply writes_ifM; [apply writes_ret |].
  apply writes_bind; [apply writes_lift | intro app].
  apply writes_ifM_case; [intros _; regular_step | intro H1].
  apply writes_ifM_case; [intros _; regular_step | intro H2].
  cbv zeta; repeat (app_step; cbv zeta);
    try apply validateStoreUrlAndBundle_regular;
    apply unless_URL_writes; regular_auto.
Qed.

Lemma run_validators_regular U br : writes regular (run_validators U br).
Proof.
  unfold run_validators.
  apply writes_seq; [apply validateCoreBidRequest_regular |].
  apply writes_seq; [apply validateImpressions_regular |].
  apply writes_seq; [apply validateApp_regular |].
  apply writes_seq; [apply validateSite_regular |].
  apply writes_seq; [apply validateDevice_regular |].
  apply writes_seq; [apply validateUser_regular |].
  apply writes_seq; [apply validateRegs_regular |].
  apply writes_seq; [apply validateSource_regular |].
  apply writes_seq; [apply validateVideo_regular |].
  apply writes_seq; [apply validateNative_regular |].
  apply writes_seq; [apply validateBanner_regular |].
  apply writes_seq; [apply validateCTV_regular |].
  apply writes_seq; [apply validateDOOH_regular |].
  apply writes_seq; [apply validateAdvanced_regular |].
  apply validateEquativRules_regular.
Qed.

(** The issues of a result are those the validators pushed. *)
Lemma result_issues (P : ValidationIssue -> Prop) U text heap r heap' :
  (forall br, writes P (run_validators U br)) ->
  validateBidRequest U text heap = (Ok r, heap') -> Forall P (issues r).
Proof.
  intros W H. unfold validateBidRequest in H.
  destruct (Json.parse text) as [br | e]; [| discriminate].
  destruct (detectBidRequestCharacteristics br) as [c | e]; [| discriminate].
  destruct (W br) as (r0 & l & Hl & Hr). rewrite Hr in H.
  destruct r0 as [[] | e]; [| discriminate].
  injection H as <- _; simpl. exact Hl.
Qed.

Lemma run_validators_regular_all U : forall br, writes regular (run_validators U br).
Proof. intro; apply run_validators_regular. Qed.

Lemma no_info_issue_counts U text heap heap' r :
  validateBidRequest U text heap = (Ok r, heap') ->
  (forall i, In i (issues r) -> severity i = error \/ severity i = warning)
  /\ List.length (List.filter (fun i => sev_eqb (severity i) error) (issues r))
     + List.length (List.filter (fun i => sev_eqb (severity i) warning) (issues r))
     = List.length (issues r).
Proof.
  intro H.
  pose proof (result_issues regular U text heap r heap' (run_validators_regular_all U) H) as R.
  clear H. induction R as [| x l [Hx _] _ [IH1 IH2]]; simpl.
  - split; [intros i [] | reflexivity].
  - split.
    + intros i [<- | Hi]; [| auto]. destruct (severity x); auto; discriminate.
    + destruct (severity x); simpl; try discriminate; lia.
Qed.

(** X1.  No result ever holds an issue of severity [info]: each issue is
    an error or a warning, so that the errors and the warnings of a
    result are all its issues. *)
Theorem no_info_issue :
  forall (URL_parses : string -> bool) (jsonString : string) (heap heap' : nat -> nat)
         (r : BidRequestValidationResult),
    validateBidRequest URL_parses jsonString heap = (Ok r, heap') ->
    (forall i, In i (issues r) -> severity i = error \/ severity i = warning)
    /\ List.length (List.filter (fun i => sev_eqb (severity i) error) (issues r))
       + List.length (List.filter (fun i => sev_eqb (severity i) warning) (issues r))
       = List.length (issues r).
Proof. intros U text heap heap' r H. exact (no_info_issue_counts U text heap heap' r H). Qed.

Lemma no_info_issue_witness :
  exists r,
    validateBidRequest lenient_host "{}" fresh_heap = (Ok r, fresh_heap)
    /\ List.length (List.filter (fun i => sev_eqb (severity i) error) (issues r))
       + List.length (List.filter (fun i => sev_eqb (severity i) warning) (issues r))
       = List.length (issues r).
Proof.
  eexists; split; [vm_compute; reflexivity |].
  eapply (no_info_issue lenient_host "{}" fresh_heap fresh_heap).
  vm_compute; reflexivity.
Defined.

(** X2.  The field path of every issue of a result starts with
    [BidRequest], except for the two venue rules of [validateDOOH],
    whose paths start with [dooh[]. *)
Theorem field_paths_are_rooted :
  forall (URL_parses : string -> bool) (jsonString : string) (heap heap' : nat -> nat)
         (r : BidRequestValidationResult),
    validateBidRequest URL_parses jsonString heap = (Ok r, heap') ->
    forall i, In i (issues r) ->
      if String.eqb (id i) "DOOH-002" || String.eqb (id i) "DOOH-003"
      then Str.starts_with "dooh[" (fieldPath i) = true
      else Str.starts_with "BidRequest" (fieldPath i) = true.
Proof.
  intros U text heap heap' r H i Hi.
  pose proof (result_issues regular U text heap r heap' (run_validators_regular_all U) H) as R.
  rewrite Forall_forall in R. destruct (R i Hi) as (_ & Hr & _).
  unfold rooted, venue_rule in Hr.
  destruct (String.eqb (id i) "DOOH-002" || String.eqb (id i) "DOOH-003"); exact Hr.
Qed.

(** The text [{"device":{"devicetype":6},"dooh":{"x":1}}]. *)
Definition dooh_without_venue : string :=
  "{" ++ quoted "device" ++ ":{" ++ quoted "devicetype" ++ ":6},"
      ++ quoted "dooh" ++ ":{" ++ quoted "x" ++ ":1}}".

Definition venuetype_issue : ValidationIssue :=
  {| id := "DOOH-002";
     severity := error;
     fieldPath := "dooh[0].venuetype";
     message := "DOOH object must contain venuetype";
     actualValue := None;
     expectedValue := Some "Venue type identifier";
     specReference := None |}.

Lemma field_paths_are_rooted_witness :
  exists r,
    validateBidRequest lenient_host dooh_without_venue fresh_heap = (Ok r, fresh_heap)
    /\ In venuetype_issue (issues r)
    /\ Str.starts_with "dooh[" (fieldPath venuetype_issue) = true.
Proof.
  eexists; split; [vm_compute; reflexivity |]. split; [simpl; in_list |].
  refine (field_paths_are_rooted lenient_host dooh_without_venue fresh_heap fresh_heap
            _ _ venuetype_issue _); [vm_compute; reflexivity | simpl; in_list].
Defined.

(** X3.  The rules [Core-App-001] and [Core-App-002] of [validateApp]
    never fire: no result holds an issue with one of these ids. *)
Theorem shadowed_app_rules_never_fire :
  forall (URL_parses : string -> bool) (jsonString : string) (heap heap' : nat -> nat)
         (r : BidRequestValidationResult),
    validateBidRequest URL_parses jsonString heap = (Ok r, heap') ->
    forall i, In i (issues r) -> id i <> "Core-App-001" /\ id i <> "Core-App-002".
Proof.
  intros U text heap heap' r H i Hi.
  pose proof (result_issues regular U text heap r heap' (run_validators_regular_all U) H) as R.
  rewrite Forall_forall in R. destruct (R i Hi) as (_ & _ & Hr).
  unfold shadowed_rule in Hr. apply orb_false_iff in Hr as [H1 H2].
  split; intro E; rewrite E in *; discriminate.
Qed.

(** The text [{"app":{"storeurl":"x","bundle":"y"}}]. *)
Definition unknown_store_app : string :=
  "{" ++ quoted "app" ++ ":{" ++ quoted "storeurl" ++ ":" ++ quoted "x" ++ ","
      ++ quoted "bundle" ++ ":" ++ quoted "y" ++ "}}".

Lemma shadowed_app_rules_never_fire_witness :
  exists r,
    validateBidRequest lenient_host unknown_store_app fresh_heap = (Ok r, fresh_heap)
    /\ reports error "EQ-App-016" "BidRequest.app.storeurl" (issues r) = true
    /\ forall i, In i (issues r) -> id i <> "Core-App-001" /\ id i <> "Core-App-002".
Proof.
  eexists; split; [vm_compute; reflexivity |]. split; [vm_compute; reflexivity |].
  apply (shadowed_app_rules_never_fire lenient_host unknown_store_app fresh_heap fresh_heap).
  vm_compute; reflexivity.
Defined.

(** ** The order of the issues *)

(** The store of a call that has pushed nothing yet. *)
Definition blank : Store := {| pushed := []; lastIndex := fresh_heap |}.

(** What a computation pushes when it runs on its own. *)
Definition report {A : Type} (m : M A) : list ValidationIssue := pushed (snd (m blank)).

Lemma writes_report {A} (m : M A) :
  writes any m -> forall s, m s = (fst (m blank), extend (report m) s).
Proof.
  intros (r & l & _ & Hm) s. unfold report. now rewrite (Hm blank), (Hm s).
Qed.

Lemma seq_report {A} (m : M unit) (k : M A) s a s' :
  writes any m -> seq m k s = (Ok a, s') ->
  exists s1, s1 = extend (report m) s /\ k s1 = (Ok a, s').
Proof.
  intros W H. unfold seq, bind in H. rewrite (writes_report m W s) in H.
  destruct (fst (m blank)) as [[] | e]; [| discriminate]. eauto.
Qed.

(** X4.  The issues of a result are, in this order, what each of the
    fifteen rule sets reports when it runs on its own: no rule set
    depends on what the ones before it have pushed. *)
Theorem issues_follow_the_pipeline :
  forall (URL_parses : string -> bool) (jsonString : string) (bidRequest : value)
         (heap heap' : nat -> nat) (r : BidRequestValidationResult),
    Json.parse jsonString = Ok bidRequest ->
    validateBidRequest URL_parses jsonString heap = (Ok r, heap') ->
    issues r
    = (report (validateCoreBidRequest bidRequest)
      ++ report (validateImpressions bidRequest)
      ++ report (validateApp URL_parses bidRequest)
      ++ report (validateSite URL_parses bidRequest)
      ++ report (validateDevice bidRequest)
      ++ report (validateUser bidRequest)
      ++ report (validateRegs bidRequest)
      ++ report (validateSource bidRequest)
      ++ report (validateVideo bidRequest)
      ++ report (validateNative bidRequest)
      ++ report (validateBanner bidRequest)
      ++ report (validateCTV bidRequest)
      ++ report (validateDOOH bidRequest)
      ++ report (validateAdvanced bidRequest)
      ++ report (validateEquativRules bidRequest))%list.
Proof.
  intros U text br heap heap' r Hp H0. unfold validateBidRequest in H0. rewrite Hp in H0.
  destruct (detectBidRequestCharacteristics br) as [c | e]; [| discriminate].
  destruct (run_validators U br _) as [[[] | e] st] eqn:H; [| discriminate].
  injection H0 as <- _; simpl.
  unfold run_validators in H.
  apply (seq_report _ _ _ _ _ (writes_any _ _ (validateCoreBidRequest_regular br))) in H as (? & -> & H).
  apply (seq_report _ _ _ _ _ (writes_any _ _ (validateImpressions_regular br))) in H as (? & -> & H).
  apply (seq_report _ _ _ _ _ (writes_any _ _ (validateApp_regular U br))) in H as (? & -> & H).
  apply (seq_report _ _ _ _ _ (writes_any _ _ (validateSite_regular U br))) in H as (? & -> & H).
  apply (seq_report _ _ _ _ _ (writes_any _ _ (validateDevice_regular br))) in H as (? & -> & H).
  apply (seq_report _ _ _ _ _ (writes_any _ _ (validateUser_regular br))) in H as (? & -> & H).
  apply (seq_report _ _ _ _ _ (writes_any _ _ (validateRegs_regular br))) in H as (? & -> & H).
  apply (seq_report _ _ _ _ _ (writes_any _ _ (validateSource_regular br))) in H as (? & -> & H).
  apply (seq_report _ _ _ _ _ (writes_any _ _ (validateVideo_regular br))) in H as (? & -> & H).
  apply (seq_report _ _ _ _ _ (writes_any _ _ (validateNative_regular br))) in H as (? & -> & H).
  apply (seq_report _ _ _ _ _ (writes_any _ _ (validateBanner_regular br))) in H as (? & -> & H).
  apply (seq_report _ _ _ _ _ (writes_any _ _ (validateCTV_regular br))) in H as (? & -> & H).
  apply (seq_report _ _ _ _ _ (writes_any _ _ (validateDOOH_regular br))) in H as (? & -> & H).
  apply (seq_report _ _ _ _ _ (writes_any _ _ (validateAdvanced_regular br))) in H as (? & -> & H).
  rewrite (writes_report _ (writes_any _ _ (validateEquativRules_regular br))) in H.
  injection H as _ <-. rewrite !extend_app. unfold extend. cbn [pushed].
  rewrite app_nil_l, <- ?app_assoc. reflexivity.
Qed.

Lemma issues_follow_the_pipeline_witness :
  exists r,
    validateBidRequest lenient_host "{}" fresh_heap = (Ok r, fresh_heap)
    /\ issues r
       = (report (validateCoreBidRequest (VObj []))
      ++ report (validateImpressions (VObj []))
      ++ report (validateApp lenient_host (VObj []))
      ++ report (validateSite lenient_host (VObj []))
      ++ report (validateDevice (VObj []))
      ++ report (validateUser (VObj []))
      ++ report (validateRegs (VObj []))
      ++ report (validateSource (VObj []))
      ++ report (validateVideo (VObj []))
      ++ report (validateNative (VObj []))
      ++ report (validateBanner (VObj []))
      ++ report (validateCTV (VObj []))
      ++ report (validateDOOH (VObj []))
      ++ report (validateAdvanced (VObj []))
      ++ report (validateEquativRules (VObj [])))%list.
Proof.
  eexists; split; [vm_compute; reflexivity |].
  apply (issues_follow_the_pipeline lenient_host "{}" (VObj []) fresh_heap fresh_heap);
    vm_compute; reflexivity.
Defined.

(** An issue the head has pushed is there whatever a writer does
    next. *)
Lemma has_seq_left {A} (m : M unit) (k : M A) x :
  yields m (has x) -> writes any k -> yields (seq m k) (has x).
Proof.
  intros (r & l & Hx & Hm) (r' & l' & _ & Hk). destruct r as [[] | e].
  - exists r', (l ++ l')%list; split; [apply in_or_app; now left |].
    intro s; unfold seq, bind; now rewrite Hm, Hk, extend_app.
  - exists (Throw e), l; split; [exact Hx |].
    intro s; unfold seq, bind; now rewrite Hm.
Qed.

(** * What a pattern can match *)

Module Shape.

Import Regex.

Local Open Scope nat_scope.

(** The characters a match of [r] can be made of. *)
Fixpoint alphabet (r : re) (c : ascii) : bool :=
  match r with
  | Eps | Bol | Eol => false
  | Chr d => Ascii.eqb d c
  | Dot => negb (line_terminator c)
  | Cls neg rs => negb (Bool.eqb (in_ranges c rs) neg)
  | Seq a b | Alt a b => alphabet a c || alphabet b c
  | Rep _ _ a | Group _ a => alphabet a c
  end.

(** The least number of characters a match of [r] takes. *)
Fixpoint min_len (r : re) : nat :=
  match r with
  | Eps | Bol | Eol => 0
  | Chr _ | Dot | Cls _ _ => 1
  | Seq a b => min_len a + min_len b
  | Alt a b => Nat.min (min_len a) (min_len b)
  | Rep mn mx a => (match mx with Some m => Nat.min mn m | None => mn end) * min_len a
  | Group _ a => min_len a
  end.

(** The greatest number of characters a match of [r] takes, when there
    is one. *)
Fixpoint max_len (r : re) : option nat :=
  match r with
  | Eps | Bol | Eol => Some 0
  | Chr _ | Dot | Cls _ _ => Some 1
  | Seq a b =>
      match max_len a, max_len b with
      | Some m, Some n => Some (m + n)
      | _, _ => None
      end
  | Alt a b =>
      match max_len a, max_len b with
      | Some m, Some n => Some (Nat.max m n)
      | _, _ => None
      end
  | Rep _ (Some m) a => option_map (Nat.mul m) (max_len a)
  | Rep _ None _ => None
  | Group _ a => max_len a
  end.

(** [r] can only match from the start of the input. *)
Fixpoint bol_first (r : re) : bool :=
  match r with
  | Bol => true
  | Seq a _ | Group _ a => bol_first a
  | Alt a b => bol_first a && bol_first b
  | _ => false
  end.

(** [r] can only match up to the end of the input. *)
Fixpoint eol_last (r : re) : bool :=
  match r with
  | Eol => true
  | Seq _ b => eol_last b
  | Group _ a => eol_last a
  | Alt a b => eol_last a && eol_last b
  | _ => false
  end.

(** [covers r x y w]: a match of [r] that runs from [x] to [y] took the
    characters [w], which fit the shape of [r]. *)
Definition covers (r : re) (x y : mstate) (w : list ascii) : Prop :=
  rest x = (w ++ rest y)%list
  /\ pos y = pos x + List.length w
  /\ forallb (alphabet r) w = true
  /\ min_len r <= List.length w
  /\ (forall n, max_len r = Some n -> List.length w <= n)
  /\ (bol_first r = true -> pos x = 0)
  /\ (eol_last r = true -> rest y = []).

(** The loop of the matcher on a repetition of [a], as [run] has it. *)
Definition rep_loop (a : re) (k : mstate -> option mstate)
  : nat -> nat -> option nat -> mstate -> option mstate :=
  fix loop (fuel mn : nat) (mx : option nat) (x : mstate) {struct fuel}
    : option mstate :=
    match fuel with
    | O => None
    | S f =>
        match mx with
        | Some O => k x
        | _ =>
            let d := fun y =>
              if (mn =? 0) && (pos y =? pos x) then None
              else loop f (Nat.pred mn) (option_map Nat.pred mx) y in
            let xr := clear_caps (groups a) x in
            match mn with
            | S _ => run a d xr
            | O =>
                match run a d xr with
                | Some z => Some z
                | None => k x
                end
            end
        end
    end.

Lemma run_rep mn mx a k x :
  run (Rep mn mx a) k x = rep_loop a k (S (mn + List.length (rest x))) mn mx x.
Proof. reflexivity. Qed.

End Shape.

Section Patterns.

Import Regex Shape.

Local Open Scope nat_scope.

Lemma forallb_weaken {A} (f g : A -> bool) l :
  (forall a, f a = true -> g a = true) -> forallb f l = true -> forallb g l = true.
Proof.
  intros H; induction l as [| a l IH]; simpl; [easy |].
  intro E; apply andb_true_iff in E as [E1 E2]; apply andb_true_iff; split; auto.
Qed.

Lemma covers_nil r x :
  min_len r = 0 -> bol_first r = false -> eol_last r = false -> covers r x x [].
Proof.
  intros H1 H2 H3; unfold covers; rewrite H1, H2, H3; simpl.
  repeat split; try lia; discriminate.
Qed.

Lemma covers_one r x d t :
  rest x = d :: t -> alphabet r d = true -> min_len r = 1 -> max_len r = Some 1 ->
  bol_first r = false -> eol_last r = false ->
  covers r x (advance x t) [d].
Proof.
  intros E H0 H1 H2 H3 H4; unfold covers; simpl; rewrite H0, H1, H2, H3, H4, E.
  split; [reflexivity |]. split; [lia |]. split; [reflexivity |]. split; [lia |].
  split; [intros n [= <-]; lia | split; discriminate].
Qed.

(** Every result of the matcher comes from a match of the pattern of
    the right shape, after which the continuation gave that result. *)
Lemma run_covers (r : re) :
  forall k x z, run r k x = Some z -> exists y w, k y = Some z /\ covers r x y w.
Proof.
  induction r as [| c | | neg rs | a IHa b IHb | a IHa b IHb | mn mx a IHa | i a IHa | |];
    intros k x z H.
  - simpl in H. exists x, []; split; [assumption | now apply covers_nil].
  - simpl in H. destruct (rest x) as [| d t] eqn:E; [discriminate |].
    destruct (Ascii.eqb c d) eqn:Ec; [| discriminate].
    exists (advance x t), [d]; split; [assumption | now apply covers_one].
  - simpl in H. destruct (rest x) as [| d t] eqn:E; [discriminate |].
    destruct (line_terminator d) eqn:Ec; [discriminate |].
    exists (advance x t), [d]; split; [assumption |].
    apply covers_one; simpl; try rewrite Ec; easy.
  - simpl in H. destruct (rest x) as [| d t] eqn:E; [discriminate |].
    destruct (Bool.eqb (in_ranges d rs) neg) eqn:Ec; [discriminate |].
    exists (advance x t), [d]; split; [assumption |].
    apply covers_one; simpl; try rewrite Ec; easy.
  - simpl in H. apply IHa in H as (y1 & w1 & H & C1). apply IHb in H as (y & w2 & H & C2).
    exists y, (w1 ++ w2)%list; split; [assumption |].
    destruct C1 as (R1 & P1 & A1 & L1 & M1 & B1 & _).
    destruct C2 as (R2 & P2 & A2 & L2 & M2 & _ & E2).
    unfold covers; simpl; rewrite length_app, forallb_app.
    split; [now rewrite R1, R2, app_assoc |].
    split; [lia |].
    split.
    { apply andb_true_iff; split;
        [revert A1 | revert A2]; apply forallb_weaken; intros c ->;
        [reflexivity | apply orb_true_r]. }
    split; [lia |].
    split; [| split; assumption].
    destruct (max_len a) as [m |]; [| discriminate].
    destruct (max_len b) as [n' |]; [| discriminate].
    intros n [= <-]. specialize (M1 _ eq_refl); specialize (M2 _ eq_refl); lia.
  - simpl in H. assert (side : forall y w, covers a x y w \/ covers b x y w -> covers (Alt a b) x y w).
    { intros y w [C | C]; destruct C as (R1 & P1 & A1 & L1 & M1 & B1 & E1);
        unfold covers; simpl.
      all: split; [assumption |]; split; [assumption |].
      all: split; [revert A1; apply forallb_weaken; intros c ->;
                   first [reflexivity | apply orb_true_r] |].
      all: split; [lia |].
      all: split; [destruct (max_len a) as [m |]; [| discriminate];
                   destruct (max_len b) as [n' |]; [| discriminate];
                   intros n Hn; injection Hn as <-; specialize (M1 _ eq_refl); lia |].
      all: split; intro E; apply andb_true_iff in E as [Ea Eb]; auto. }
    destruct (run a k x) as [z' |] eqn:Ea.
    + injection H as ->. apply IHa in Ea as (y & w & H & C).
      exists y, w; split; [assumption | apply side; now left].
    + apply IHb in H as (y & w & H & C).
      exists y, w; split; [assumption | apply side; now right].
  - rewrite run_rep in H. revert H. generalize (S (mn + List.length (rest x))) as fuel.
    intro fuel; revert mn mx x.
    induction fuel as [| f IHf]; intros mn mx x H; [discriminate |].
    assert (Hstop : k x = Some z -> (mn = 0 \/ mx = Some 0) ->
                    exists y w, k y = Some z /\ covers (Rep mn mx a) x y w).
    { intros Hk Hz. exists x, []; split; [assumption |].
      unfold covers; simpl. split; [reflexivity |]. split; [lia |].
      split; [reflexivity |]. split; [destruct Hz as [-> | ->]; simpl; [destruct mx |]; lia |].
      split; [| split; discriminate].
      destruct mx as [m |]; [| discriminate].
      destruct (max_len a); [| discriminate]. intros ? _; simpl; lia. }
    assert (Hstep : forall mx', mx = None \/ mx = Some (S mx') ->
              run a (fun y =>
                       if (mn =? 0) && (pos y =? pos x) then None
                       else rep_loop a k f (Nat.pred mn) (option_map Nat.pred mx) y)
                (clear_caps (groups a) x) = Some z ->
              exists y w, k y = Some z /\ covers (Rep mn mx a) x y w).
    { intros mx' Hmx Hr. apply IHa in Hr as (y1 & w1 & Hd & C1).
      destruct ((mn =? 0) && (pos y1 =? pos x)); [discriminate |].
      apply IHf in Hd as (y & w2 & Hk & C2).
      exists y, (w1 ++ w2)%list; split; [assumption |].
      destruct C1 as (R1 & P1 & A1 & L1 & M1 & _ & _).
      destruct C2 as (R2 & P2 & A2 & L2 & M2 & _ & _).
      simpl in *.
      unfold covers; simpl; rewrite length_app, forallb_app.
      split; [now rewrite R1, R2, app_assoc |].
      split; [lia |].
      split; [apply andb_true_iff; split; assumption |].
      split.
      { destruct Hmx as [-> | ->]; simpl in *; destruct mn; simpl in *; nia. }
      split; [| split; discriminate].
      destruct Hmx as [-> | ->]; [discriminate |]. simpl in *.
      destruct (max_len a) as [m |]; [| discriminate]. simpl in *.
      intros n [= <-]. specialize (M1 _ eq_refl); specialize (M2 _ eq_refl). nia. }
    simpl in H.
    destruct mx as [[| mx'] |].
    + apply Hstop; auto.
    + destruct mn as [| mn'].
      * match type of H with match ?e with _ => _ end = _ => destruct e eqn:Er end.
        -- injection H as ->. apply (Hstep mx'); auto.
        -- apply Hstop; auto.
      * apply (Hstep mx'); auto.
    + destruct mn as [| mn'].
      * match type of H with match ?e with _ => _ end = _ => destruct e eqn:Er end.
        -- injection H as ->. apply (Hstep 0); auto.
        -- apply Hstop; auto.
      * apply (Hstep 0); auto.
  - simpl in H. apply IHa in H as (y & w & H & C).
    exists (set_cap i (Str.of_chars (firstn (pos y - pos x) (rest x))) y), w.
    split; [assumption | exact C].
  - simpl in H. destruct (pos x =? 0) eqn:E; [| discriminate].
    exists x, []; split; [assumption |].
    unfold covers; simpl. apply Nat.eqb_eq in E.
    repeat split; try lia; try discriminate; try (intros n [= <-]; lia).
  - simpl in H. destruct (rest x) eqn:E; [| discriminate].
    exists x, []; split; [assumption |].
    unfold covers; simpl.
    repeat split; try lia; try discriminate; try (intros n [= <-]; lia).
    intros _; assumption.
Qed.

(** A pattern that starts with [^] matches at the first position only. *)
Lemma search_bol r l :
  bol_first r = true -> forall i, 0 < i -> search r i l = None.
Proof.
  intro Hb; induction l as [| c l IH]; intros i Hi; simpl.
  - destruct (run r Some _) as [y |] eqn:E; [| reflexivity].
    apply run_covers in E as (y' & w & _ & C).
    destruct C as (_ & _ & _ & _ & _ & B & _). specialize (B Hb); simpl in B; lia.
  - destruct (run r Some _) as [y |] eqn:E.
    + apply run_covers in E as (y' & w & _ & C).
      destruct C as (_ & _ & _ & _ & _ & B & _). specialize (B Hb); simpl in B; lia.
    + apply IH; lia.
Qed.

Lemma chars_length s : List.length (Str.chars s) = String.length s.
Proof. induction s; simpl; [reflexivity | now f_equal]. Qed.

(** What a pattern anchored at both ends accepts: whole texts of the
    pattern's shape. *)
Lemma anchored_test src s :
  bol_first (compile src) = true -> eol_last (compile src) = true ->
  fresh_test src false s = true ->
  forallb (alphabet (compile src)) (Str.chars s) = true
  /\ min_len (compile src) <= String.length s
  /\ (forall n, max_len (compile src) = Some n -> String.length s <= n).
Proof.
  intros Hb He. unfold fresh_test, test, exec; simpl.
  set (r := compile src) in *.
  assert (Hs : search r 0 (Str.chars s) <> None ->
               exists y w, Some y = Some y /\ covers r {| pos := 0; rest := Str.chars s; caps := [] |} y w).
  { destruct (Str.chars s) as [| c l] eqn:El; simpl.
    - destruct (run r Some _) as [y |] eqn:E; [| congruence].
      intros _. apply run_covers in E as (y' & w & E' & C). now exists y', w.
    - destruct (run r Some _) as [y |] eqn:E.
      + intros _. apply run_covers in E as (y' & w & E' & C). now exists y', w.
      + rewrite (search_bol r l Hb 1); [congruence | lia]. }
  destruct (search r 0 (Str.chars s)) as [m |] eqn:E; [| discriminate].
  intros _. destruct Hs as (y & w & _ & C); [discriminate |].
  destruct C as (R & _ & A & L & M & _ & E0). specialize (E0 He).
  simpl in R. rewrite E0, app_nil_r in R. subst w.
  rewrite chars_length in *. auto.
Qed.

Definition all_ascii : list ascii := map ascii_of_nat (List.seq 0 256).

Lemma all_ascii_complete c : In c all_ascii.
Proof.
  unfold all_ascii. rewrite <- (ascii_nat_embedding c).
  apply in_map, in_seq. pose proof (nat_ascii_bounded c); lia.
Qed.

Lemma ascii_forall (f : ascii -> bool) :
  forallb f all_ascii = true -> forall c, f c = true.
Proof.
  intros H c. rewrite forallb_forall in H. apply H, all_ascii_complete.
Qed.

(** The characters of a dotted IPv4 address and of an IPv6 address. *)
Definition dotted_digit (c : ascii) : bool := Str.is_digit c || Ascii.eqb c ".".

Definition is_hex (c : ascii) : bool :=
  Str.is_digit c
  || ((nat_of_ascii "a" <=? nat_of_ascii c) && (nat_of_ascii c <=? nat_of_ascii "f"))
  || ((nat_of_ascii "A" <=? nat_of_ascii c) && (nat_of_ascii c <=? nat_of_ascii "F")).

Definition hex_or_colon (c : ascii) : bool := is_hex c || Ascii.eqb c ":".

Lemma ipv4_shape s :
  fresh_test ipv4Regex false s = true ->
  7 <= String.length s <= 15 /\ forallb dotted_digit (Str.chars s) = true.
Proof.
  intro H. apply anchored_test in H as (A & L & M); [| vm_compute; reflexivity ..].
  split; [split; [exact L | apply M; vm_compute; reflexivity] |].
  revert A; apply forallb_weaken.
  assert (E : forallb (fun c => implb (alphabet (compile ipv4Regex) c) (dotted_digit c))
                all_ascii = true) by (vm_compute; reflexivity).
  intros c Hc. pose proof (ascii_forall _ E c) as Hi. cbv beta in Hi.
  rewrite Hc in Hi. exact Hi.
Qed.

Lemma ipv6_shape s :
  fresh_test ipv6Regex false s = true ->
  15 <= String.length s <= 39 /\ forallb hex_or_colon (Str.chars s) = true.
Proof.
  intro H. apply anchored_test in H as (A & L & M); [| vm_compute; reflexivity ..].
  split; [split; [exact L | apply M; vm_compute; reflexivity] |].
  revert A; apply forallb_weaken.
  assert (E : forallb (fun c => implb (alphabet (compile ipv6Regex) c) (hex_or_colon c))
                all_ascii = true) by (vm_compute; reflexivity).
  intros c Hc. pose proof (ascii_forall _ E c) as Hi. cbv beta in Hi.
  rewrite Hc in Hi. exact Hi.
Qed.

(** X5.  Whatever value [isValidIPv4] is handed, it accepts it only when
    its string form is 7 to 15 characters long and made of digits and
    dots. *)
Theorem isValidIPv4_accepts_only_dotted_digits :
  forall v : value,
    isValidIPv4 (Ok v) = Ok true ->
    exists s, Js.toString v = Ok s
              /\ 7 <= String.length s <= 15
              /\ forallb dotted_digit (Str.chars s) = true.
Proof.
  intros v H. unfold isValidIPv4 in H; simpl in H.
  destruct (Js.toString v) as [s | e] eqn:Es; [| discriminate].
  simpl in H. injection H as H. exists s; split; [reflexivity | now apply ipv4_shape].
Qed.

Lemma isValidIPv4_accepts_only_dotted_digits_witness :
  exists s, Js.toString (VStr "192.168.1.1") = Ok s
            /\ 7 <= String.length s <= 15
            /\ forallb dotted_digit (Str.chars s) = true.
Proof.
  apply (isValidIPv4_accepts_only_dotted_digits (VStr "192.168.1.1")).
  vm_compute; reflexivity.
Defined.



Lemma not_below_15 n : 15 <= n <= 39 -> PrimFloat.ltb (Num.of_nat n) 15 = false.
Proof.
  intro H. do 40 (destruct n as [| n]; [try lia; vm_compute; reflexivity |]). lia.
Qed.

(** X7.  An address that [isTruncatedIPv6] flags (it holds [::] and is
    shorter than 15 characters) is never one [isValidIPv6] accepts. *)
Theorem truncated_ipv6_is_not_valid :
  forall s : string,
    isTruncatedIPv6 (Ok (VStr s)) = Ok true -> isValidIPv6 (Ok (VStr s)) = Ok false.
Proof.
  intros s H. unfold isValidIPv6; simpl.
  destruct (fresh_test ipv6Regex false s) eqn:E; [| reflexivity].
  apply ipv6_shape in E as [L _].
  unfold isTruncatedIPv6, includes, andR, ltR, dot, val in H; simpl in H.
  destruct (Str.includes "::" s); [| discriminate].
  simpl in H. unfold lt in H; simpl in H. rewrite (not_below_15 _ L) in H. discriminate.
Qed.

Lemma truncated_ipv6_is_not_valid_witness :
  isValidIPv6 (Ok (VStr "2001:db8::1")) = Ok false.
Proof.
  apply (truncated_ipv6_is_not_valid "2001:db8::1"). vm_compute; reflexivity.
Defined.

(** ** Completeness of the macro pattern *)

(** The characters of [\w]. *)
Definition word_char (c : ascii) : bool :=
  Str.is_lower c || Str.is_upper c || Str.is_digit c || Ascii.eqb c "_".

(** The class [[\w_]] as the pattern reader builds it. *)
Definition macro_class : list (ascii * ascii) :=
  [("a", "z"); ("A", "Z"); ("0", "9"); ("_", "_"); ("_", "_")]%char.

Lemma macro_class_word c : word_char c = true -> in_ranges c macro_class = true.
Proof.
  assert (E : forallb (fun c => implb (word_char c) (in_ranges c macro_class)) all_ascii = true)
    by (vm_compute; reflexivity).
  intro H. pose proof (ascii_forall _ E c) as Hi. cbv beta in Hi. now rewrite H in Hi.
Qed.

Lemma rep_loop_S a k f mn mx x :
  rep_loop a k (S f) mn mx x
  = match mx with
    | Some O => k x
    | _ =>
        let d := fun y =>
          if (mn =? 0) && (pos y =? pos x) then None
          else rep_loop a k f (Nat.pred mn) (option_map Nat.pred mx) y in
        let xr := clear_caps (groups a) x in
        match mn with
        | S _ => run a d xr
        | O => match run a d xr with Some z => Some z | None => k x end
        end
    end.
Proof. reflexivity. Qed.

Lemma run_cls_hit rs k x c t :
  rest x = c :: t -> in_ranges c rs = true -> run (Cls false rs) k x = k (advance x t).
Proof. intros E H; simpl; now rewrite E, H. Qed.

Lemma run_cls_miss rs k x c t :
  rest x = c :: t -> in_ranges c rs = false -> run (Cls false rs) k x = None.
Proof. intros E H; simpl; now rewrite E, H. Qed.

Lemma run_chr_hit c k x t : rest x = c :: t -> run (Chr c) k x = k (advance x t).
Proof. intros E; simpl; now rewrite E, Ascii.eqb_refl. Qed.

(** The greedy loop over a run of word characters that the closing
    character [e] follows: it goes through. *)
Lemma rep_loop_word (e : ascii) (w post : list ascii) :
  in_ranges e macro_class = false ->
  forallb word_char w = true ->
  forall fuel mn x,
    rest x = (w ++ e :: post)%list -> mn <= List.length w -> List.length w < fuel ->
    exists z, rep_loop (Cls false macro_class) (fun y => run (Chr e) Some y) fuel mn None x
              = Some z.
Proof.
  intros He. induction w as [| c w IH]; intros Hw fuel mn x Hr Hmn Hf.
  - destruct fuel as [| f]; [simpl in Hf; lia |].
    assert (mn = 0) as -> by (simpl in Hmn; lia).
    simpl in Hr. rewrite rep_loop_S. cbv zeta.
    rewrite (run_cls_miss _ _ _ e post), (run_chr_hit _ _ _ post); auto.
    eexists; reflexivity.
  - destruct fuel as [| f]; [simpl in Hf; lia |].
    simpl in Hw. apply andb_true_iff in Hw as [Hc Hw].
    simpl in Hr, Hmn, Hf.
    destruct (IH Hw f (Nat.pred mn)
                (advance (clear_caps [] x) (w ++ e :: post)%list)) as [z Hz];
      [reflexivity | lia | lia |].
    exists z. rewrite rep_loop_S. cbv zeta.
    rewrite (run_cls_hit _ _ _ c (w ++ e :: post)%list);
      [| exact Hr | now apply macro_class_word].
    replace (pos (advance (clear_caps (groups (Cls false macro_class)) x)
                    (w ++ e :: post)%list) =? pos x)
      with false by (symmetry; apply Nat.eqb_neq; simpl; lia).
    rewrite andb_false_r. change (groups (Cls false macro_class)) with (@nil nat).
    simpl option_map. rewrite Hz. now destruct mn.
Qed.

Lemma run_seq a b k x : run (Seq a b) k x = run a (fun y => run b k y) x.
Proof. reflexivity. Qed.

Lemma run_alt a b k x :
  run (Alt a b) k x = match run a k x with Some z => Some z | None => run b k x end.
Proof. reflexivity. Qed.

Lemma run_chr_miss c d k x t :
  rest x = d :: t -> Ascii.eqb c d = false -> run (Chr c) k x = None.
Proof. intros E H; simpl; now rewrite E, H. Qed.

(** The macro pattern matches at a bracketed or braced word. *)
Lemma macro_at (o e : ascii) (w post : list ascii) x :
  (o = "[" /\ e = "]")%char \/ (o = "{" /\ e = "}")%char ->
  w <> [] -> forallb word_char w = true ->
  rest x = (o :: w ++ e :: post)%list ->
  exists z, run (compile macroPattern) Some x = Some z.
Proof.
  intros Hoe Hne Hw Hr.
  replace (compile macroPattern) with
    (Alt (Seq (Chr "[") (Seq (Rep 1 None (Cls false macro_class)) (Chr "]")))
         (Seq (Chr "{") (Seq (Rep 1 None (Cls false macro_class)) (Chr "}"))))
    by (vm_compute; reflexivity).
  assert (Hl : 1 <= List.length w) by (destruct w; [contradiction | simpl; lia]).
  rewrite run_alt, !run_seq.
  destruct Hoe as [[-> ->] | [-> ->]].
  - destruct (rep_loop_word "]" w post eq_refl Hw
                (S (1 + List.length (w ++ "]"%char :: post))) 1
                (advance x (w ++ "]"%char :: post)%list)) as [z Hz];
      [reflexivity | exact Hl | rewrite length_app; simpl; lia |].
    exists z. rewrite (run_chr_hit _ _ _ _ Hr), run_seq, run_rep.
    cbn [rest advance]. now rewrite Hz.
  - destruct (rep_loop_word "}" w post eq_refl Hw
                (S (1 + List.length (w ++ "}"%char :: post))) 1
                (advance x (w ++ "}"%char :: post)%list)) as [z Hz];
      [reflexivity | exact Hl | rewrite length_app; simpl; lia |].
    exists z. rewrite (run_chr_miss "[" "{" _ _ _ Hr eq_refl).
    rewrite (run_chr_hit _ _ _ _ Hr), run_seq, run_rep.
    cbn [rest advance]. now rewrite Hz.
Qed.

(** The search finds a match that starts further on, unless it finds
    one before. *)
Lemma search_later r (pre l : list ascii) i :
  (exists z, run r Some {| pos := i + List.length pre; rest := l; caps := [] |} = Some z) ->
  exists m, search r i (pre ++ l) = Some m.
Proof.
  revert i; induction pre as [| c pre IH]; intros i [z Hz].
  - simpl in *. rewrite Nat.add_0_r in Hz.
    destruct l; simpl; rewrite Hz; eexists; reflexivity.
  - simpl.
    destruct (run r Some {| pos := i; rest := c :: (pre ++ l)%list; caps := [] |});
      [eexists; reflexivity |].
    apply IH. exists z. now replace (S i + List.length pre) with (i + List.length (c :: pre))
      by (simpl; lia).
Qed.

Lemma chars_app a b : Str.chars (a ++ b) = (Str.chars a ++ Str.chars b)%list.
Proof. induction a; simpl; [reflexivity | now f_equal]. Qed.

Lemma chars_nonempty w : w <> EmptyString -> Str.chars w <> [].
Proof. destruct w; [contradiction | discriminate]. Qed.

(** A text that holds a bracketed or braced word holds a match of the
    macro pattern. *)
Lemma macro_search (o e : ascii) (pre w post : string) :
  (o = "[" /\ e = "]")%char \/ (o = "{" /\ e = "}")%char ->
  w <> EmptyString -> forallb word_char (Str.chars w) = true ->
  exists m,
    search (compile macroPattern) 0
      (Str.chars (pre ++ String o (w ++ String e post))) = Some m.
Proof.
  intros Hoe Hne Hw. rewrite chars_app.
  apply search_later.
  apply (macro_at o e (Str.chars w) (Str.chars post)); auto using chars_nonempty.
  simpl. now rewrite chars_app.
Qed.

(** X8.  Every [{word}] and every [[word]], wherever it stands in a text, is
    a macro for [containsMacros]. *)
Theorem containsMacros_finds_every_macro :
  forall pre w post : string,
    w <> EmptyString -> forallb word_char (Str.chars w) = true ->
    containsMacros (pre ++ "{" ++ w ++ "}" ++ post) = true
    /\ containsMacros (pre ++ "[" ++ w ++ "]" ++ post) = true.
Proof.
  intros pre w post Hne Hw.
  split; unfold containsMacros, fresh_test, test, exec;
    cbn [Regex.global Regex.source Nat.ltb Nat.leb skipn].
  - destruct (macro_search "{" "}" pre w post) as [m Hm]; auto.
    change (pre ++ String "{" (w ++ String "}" post))
      with (pre ++ "{" ++ w ++ "}" ++ post) in Hm.
    now rewrite Hm.
  - destruct (macro_search "[" "]" pre w post) as [m Hm]; auto.
    change (pre ++ String "[" (w ++ String "]" post))
      with (pre ++ "[" ++ w ++ "]" ++ post) in Hm.
    now rewrite Hm.
Qed.

Lemma containsMacros_finds_every_macro_witness :
  containsMacros ("https://play.google.com/store/apps/details?id=" ++ "{" ++ "BUNDLE_ID" ++ "}"
                  ++ "&hl=en") = true
  /\ containsMacros ("https://play.google.com/store/apps/details?id=" ++ "[" ++ "BUNDLE_ID" ++ "]"
                     ++ "&hl=en") = true.
Proof.
  apply (containsMacros_finds_every_macro
           "https://play.google.com/store/apps/details?id=" "BUNDLE_ID" "&hl=en");
    [discriminate | vm_compute; reflexivity].
Defined.

Lemma fresh_match_all_macro (o e : ascii) (pre w post : string) :
  (o = "[" /\ e = "]")%char \/ (o = "{" /\ e = "}")%char ->
  w <> EmptyString -> forallb word_char (Str.chars w) = true ->
  exists x l,
    fresh_match_all macroPattern (pre ++ String o (w ++ String e post)) = Some (x :: l).
Proof.
  intros Hoe Hne Hw. destruct (macro_search o e pre w post Hoe Hne Hw) as [m Hm].
  unfold fresh_match_all. cbn [match_all]. unfold exec; simpl.
  rewrite Hm. eexists _, _; reflexivity.
Qed.

End Patterns.

(** ** The macro rule of [validateAdvanced] *)

(** The issue of rule 115, [found] being the matches of the macro
    pattern in the text of the request. *)
Definition macros_issue (found : list string) : ValidationIssue :=
  {| id := "Advanced-001";
     severity := error;
     fieldPath := "BidRequest";
     message := "Bid request contains un-replaced macros";
     actualValue := Some (VStr (Str.join ", " found));
     expectedValue := Some "No macros in bid request";
     specReference := None |}.

Lemma validateAdvanced_macros (bidRequest : value) (text x : string) (l : list string) :
  Json.stringify bidRequest = VStr text ->
  fresh_match_all macroPattern text = Some (x :: l) ->
  yields (validateAdvanced bidRequest) (has (macros_issue (x :: l))).
Proof.
  intros Hs Hm. unfold validateAdvanced. rewrite Hs, Hm, bind_lift_Ok.
  apply has_seq_left.
  - eexists (Ok tt), [_]; split; [now left | reflexivity].
  - writes_auto.
Qed.

Lemma yields_has_snd {A} (m : M A) x s : yields m (has x) -> In x (pushed (snd (m s))).
Proof.
  intros (r & l & Hx & Hm). rewrite Hm; simpl. apply in_or_app; now right.
Qed.

Lemma In_reports x l :
  In x l -> reports (severity x) (id x) (fieldPath x) l = true.
Proof.
  intro H. unfold reports. apply existsb_exists. exists x; split; [assumption |].
  rewrite !String.eqb_refl. now destruct (severity x).
Qed.

(** X9.  Every request whose JSON text holds a word in square brackets
    or in braces, an array with one number such as [[1]] included, has
    [validateAdvanced] push the macro error [Advanced-001]: the result
    of [validateBidRequest] reports it and is not valid. *)
Theorem validateAdvanced_flags_bracketed_words :
  forall (URL_parses : string -> bool) (jsonString : string) (bidRequest : value)
         (pre w post : string) (heap : nat -> nat),
    Json.parse jsonString = Ok bidRequest ->
    w <> EmptyString -> forallb word_char (Str.chars w) = true ->
    Json.stringify bidRequest = VStr (pre ++ "[" ++ w ++ "]" ++ post)
    \/ Json.stringify bidRequest = VStr (pre ++ "{" ++ w ++ "}" ++ post) ->
    (exists found,
        forall s, In (macros_issue found) (pushed (snd (validateAdvanced bidRequest s))))
    /\ (forall r heap',
          validateBidRequest URL_parses jsonString heap = (Ok r, heap') ->
          reports error "Advanced-001" "BidRequest" (issues r) = true
          /\ isValid r = false).
Proof.
  intros U text br pre w post heap Hp Hne Hw Hs.
  assert (Y : exists found, yields (validateAdvanced br) (has (macros_issue found))).
  { destruct Hs as [Hs | Hs].
    - destruct (fresh_match_all_macro "[" "]" pre w post) as (x & l & Hm); auto.
      exists (x :: l). eapply validateAdvanced_macros; eassumption.
    - destruct (fresh_match_all_macro "{" "}" pre w post) as (x & l & Hm); auto.
      exists (x :: l). eapply validateAdvanced_macros; eassumption. }
  destruct Y as [found Y]. split.
  - exists found. intro s. now apply yields_has_snd.
  - intros r heap' H. unfold validateBidRequest in H. rewrite Hp in H.
    destruct (detectBidRequestCharacteristics br) as [c | e]; [| discriminate].
    destruct (run_validators U br _) as [[[] | e] st] eqn:Hrun; [| discriminate].
    injection H as <- _; simpl.
    assert (Hin : In (macros_issue found) (pushed st)).
    { revert Hrun. unfold run_validators.
      do 13 (apply seq_In_right; intros ? ?).
      apply seq_In_left; [exact Y | eapply writes_any; apply validateEquativRules_writes]. }
    split; [exact (In_reports _ _ Hin) | now apply (has_error_not_valid (macros_issue found))].
Qed.

(** The text [{"imp":[{"video":{"playbackmethod":[1]}}]}]. *)
Definition autoplay_only : string :=
  "{" ++ quoted "imp" ++ ":[{" ++ quoted "video" ++ ":{" ++ quoted "playbackmethod"
      ++ ":[1]}}]}".

Definition autoplay_only_payload : value :=
  VObj [("imp", VArr [VObj [("video", VObj [("playbackmethod", VArr [VNum 1])])]])].

Lemma validateAdvanced_flags_bracketed_words_witness :
  exists r,
    validateBidRequest lenient_host autoplay_only fresh_heap = (Ok r, fresh_heap)
    /\ reports error "Advanced-001" "BidRequest" (issues r) = true
    /\ isValid r = false.
Proof.
  eexists. split; [vm_compute; reflexivity |].
  refine (proj2 (validateAdvanced_flags_bracketed_words lenient_host autoplay_only
                   autoplay_only_payload
                   ("{" ++ quoted "imp" ++ ":[{" ++ quoted "video" ++ ":{"
                        ++ quoted "playbackmethod" ++ ":")
                   "1" "}}]}" fresh_heap _ _ _ _) _ fresh_heap _);
    [vm_compute; reflexivity | discriminate | vm_compute; reflexivity
    | left; vm_compute; reflexivity | vm_compute; reflexivity].
Defined.

(** * Validators that never raise *)

(** [safe P m]: whatever the store, [m] returns, after pushing the same
    issues, all of which satisfy [P]. *)
Definition safe {A : Type} (P : ValidationIssue -> Prop) (m : M A) : Prop :=
  exists (a : A) (l : list ValidationIssue),
    Forall P l /\ forall s, m s = (Ok a, extend l s).

Section Safe.

Context {P : ValidationIssue -> Prop}.

Lemma safe_ret {A} (a : A) : safe P (ret a).
Proof. exists a, []; split; [constructor | intro s; now rewrite extend_nil]. Qed.

Lemma safe_bind {A B} (m : M A) (f : A -> M B) :
  safe P m -> (forall a, safe P (f a)) -> safe P (bind m f).
Proof.
  intros (a & l & Hl & Hm) Hf. destruct (Hf a) as (b & l' & Hl' & Hfa).
  exists b, (l ++ l')%list; split; [now apply Forall_app |].
  intro s; unfold bind; now rewrite Hm, Hfa, extend_app.
Qed.

Lemma safe_seq {A} (m : M unit) (k : M A) : safe P m -> safe P k -> safe P (seq m k).
Proof. intros Hm Hk; apply safe_bind; [assumption | intros _; assumption]. Qed.

Lemma safe_lift {A B} (r : result A) (f : A -> M B) :
  (exists a, r = Ok a /\ safe P (f a)) -> safe P (bind (lift r) f).
Proof. intros (a & -> & H). now rewrite bind_lift_Ok. Qed.

Lemma safe_ifM {A} (c : result bool) (x y : M A) :
  (exists b, c = Ok b) -> (c = Ok true -> safe P x) -> (c = Ok false -> safe P y) ->
  safe P (ifM c x y).
Proof. intros [[|] ->] Hx Hy; rewrite ifM_Ok; auto. Qed.

Lemma safe_when (c : result bool) (m : M unit) :
  (exists b, c = Ok b) -> (c = Ok true -> safe P m) -> safe P (when c m).
Proof. intros Hc Hm; apply safe_ifM; [assumption | assumption | intros _; apply safe_ret]. Qed.

Lemma safe_emit i sev path msg actual expected :
  match actual with Some e => exists v, e = Ok v | None => True end ->
  (forall a, P {| id := i; severity := sev; fieldPath := path; message := msg;
                  actualValue := a; expectedValue := expected;
                  specReference := None |}) ->
  safe P (emit i sev path msg actual expected).
Proof.
  intros H HP. destruct actual as [e |].
  - destruct H as [v ->]. eexists tt, [_]; split; [repeat constructor; apply HP | reflexivity].
  - eexists tt, [_]; split; [repeat constructor; apply HP | reflexivity].
Qed.

(** A handler that returns makes the whole [try] return. *)
Lemma safe_try_catch {A} (m h : M A) :
  writes P m -> safe P h -> safe P (try_catch m h).
Proof.
  intros (r & l & Hl & Hm) (a' & l' & Hl' & Hh). destruct r as [a | e].
  - exists a, l; split; [assumption |].
    intro s; unfold try_catch; now rewrite Hm.
  - exists a', (l ++ l')%list; split; [now apply Forall_app |].
    intro s; unfold try_catch; now rewrite Hm, Hh, extend_app.
Qed.

Lemma safe_forEach_from f l i :
  (forall x j, In x l -> safe P (f x j)) -> safe P (forEach_from f l i).
Proof.
  revert i; induction l as [| x l IH]; intros i H; simpl.
  - apply safe_ret.
  - apply safe_seq; [apply H; now left | apply IH; intros; apply H; now right].
Qed.

End Safe.

Lemma safe_any_of {A} P (m : M A) : safe P m -> safe any m.
Proof.
  intros (a & l & _ & Hm); exists a, l; split; [| exact Hm].
  apply Forall_forall; intros; exact I.
Qed.

Lemma safe_writes {A} P (m : M A) : safe P m -> writes P m.
Proof. intros (a & l & Hl & Hm); now exists (Ok a), l. Qed.

(** [null] and [undefined], which have no members. *)
Definition nullish (v : value) : bool :=
  match v with VUndefined | VNull => true | _ => false end.

Lemma truthy_not_nullish v : truthy v = true -> nullish v = false.
Proof. now destruct v. Qed.

Lemma F_false e : F e = Ok false -> exists v, e = Ok v /\ truthy v = true.
Proof.
  destruct e as [v | x]; [| discriminate]. unfold F, test; simpl. intros [= H].
  exists v; split; [reflexivity |]. unfold falsy in H. now destruct (truthy v).
Qed.

Lemma T_true e : T e = Ok true -> exists v, e = Ok v /\ truthy v = true.
Proof.
  destruct e as [v | x]; [| discriminate]. unfold T, test; simpl. intros [= H]. eauto.
Qed.

(** A condition over members of values that are at hand evaluates
    without raising: by cases on the values that own the members. *)
Ltac crack_step :=
  match goal with
  | H : truthy ?v = true |- _ => is_var v; destruct v; simpl in H; try discriminate H
  | H : nullish ?v = false |- _ => is_var v; destruct v; simpl in H; try discriminate H
  | |- context [get ?v _] => is_var v; destruct v
  | |- context [getOpt ?v _] => is_var v; destruct v
  | |- context [match assoc ?k ?ps with _ => _ end] => destruct (assoc k ps)
  | |- context [match ?v with
                | VUndefined => _ | VNull => _ | VBool _ => _ | VNum _ => _
                | VStr _ => _ | VArr _ => _ | VObj _ => _ | VFun _ => _
                end] => is_var v; destruct v
  | |- context [if ?b then _ else _] =>
      first [ match b with
              | context [?v] => is_var v; lazymatch type of v with value => destruct v end
              end
            | destruct b ]
  end.

Ltac crack :=
  unfold notU, neN, eqN, isU, T, F, typeIs, typeIsNot, isArr, isInt, test,
         andR, orR, notR, dot, qdot, val, trimIsEmpty, includes, endsWith,
         ltR, leR, elems in *;
  simpl in *;
  repeat (crack_step; simpl in *; try discriminate);
  first [eexists; reflexivity | exact I].

Ltac safe_step P_tac :=
  lazymatch goal with
  | |- safe _ (seq _ _) => apply safe_seq
  | |- safe _ (when _ _) => apply safe_when; [crack | intros ?]
  | |- safe _ (ifM _ _ _) => apply safe_ifM; [crack | intros ? | intros ?]
  | |- safe _ (ret _) => apply safe_ret
  | |- safe _ (emit _ _ _ _ _ _) => apply safe_emit; [crack | intro; P_tac]
  | |- safe _ (bind (lift _) _) => apply safe_lift; eexists; split; [crack |]
  end.

Definition is_warning (i : ValidationIssue) : Prop := severity i = warning.

Lemma validateUser_safe br :
  nullish br = false -> safe is_warning (validateUser br).
Proof.
  intro Hn. unfold validateUser.
  apply safe_ifM; [crack | intros _; apply safe_ret | intro Hu].
  apply F_false in Hu as (user & Hu & Ht). rewrite Hu, bind_lift_Ok.
  repeat safe_step ltac:(reflexivity).
Qed.

Lemma validateRegs_safe br : nullish br = false -> safe any (validateRegs br).
Proof.
  intro Hn. unfold validateRegs.
  apply safe_ifM; [crack | intros _; apply safe_ret | intro Hu].
  apply F_false in Hu as (regs & Hu & Ht). rewrite Hu, bind_lift_Ok.
  repeat safe_step ltac:(exact I).
Qed.

Lemma validateEquativRules_safe br : nullish br = false -> safe any (validateEquativRules br).
Proof. intro Hn. unfold validateEquativRules. repeat safe_step ltac:(exact I). Qed.

Lemma unless_URL_safe {P} U e h : safe P h -> safe P (unless_URL U e h).
Proof.
  intro H. unfold unless_URL. apply safe_try_catch; [| exact H].
  writes_auto.
Qed.

Lemma validateSite_safe U br : nullish br = false -> safe any (validateSite U br).
Proof.
  intro Hn. unfold validateSite.
  apply safe_ifM; [crack | intros _; apply safe_ret | intro Hu].
  apply F_false in Hu as (site & Hu & Ht). rewrite Hu, bind_lift_Ok.
  repeat first [safe_step ltac:(exact I) | apply unless_URL_safe].
Qed.

(** ** The store URL check *)

(** [bounded n P m]: [m] returns after pushing at most [n] issues, all
    of which satisfy [P]. *)
Definition bounded {A : Type} (n : nat) (P : ValidationIssue -> Prop) (m : M A) : Prop :=
  exists (a : A) (l : list ValidationIssue),
    List.length l <= n /\ Forall P l /\ forall s, m s = (Ok a, extend l s).

Lemma bounded_ret {A} P (a : A) : bounded 0 P (ret a).
Proof.
  exists a, []; split; [simpl; lia | split; [constructor | intro s; now rewrite extend_nil]].
Qed.

Lemma bounded_bind {A B} n1 n2 P (m : M A) (f : A -> M B) :
  bounded n1 P m -> (forall a, bounded n2 P (f a)) -> bounded (n1 + n2) P (bind m f).
Proof.
  intros (a & l & Hn & Hl & Hm) Hf. destruct (Hf a) as (b & l' & Hn' & Hl' & Hfa).
  exists b, (l ++ l')%list. split; [rewrite length_app; lia |].
  split; [now apply Forall_app |].
  intro s; unfold bind; now rewrite Hm, Hfa, extend_app.
Qed.

Lemma bounded_seq {A} n1 n2 P (m : M unit) (k : M A) :
  bounded n1 P m -> bounded n2 P k -> bounded (n1 + n2) P (seq m k).
Proof. intros Hm Hk; apply bounded_bind; [assumption | intros _; assumption]. Qed.

Lemma bounded_weaken {A} n n' P (m : M A) : n <= n' -> bounded n P m -> bounded n' P m.
Proof. intros H (a & l & Hn & R); exists a, l; split; [lia | exact R]. Qed.

Lemma bounded_when_emit P (b : bool) i sev path msg (actual : option value) expected :
  P {| id := i; severity := sev; fieldPath := path; message := msg;
       actualValue := actual; expectedValue := expected; specReference := None |} ->
  bounded 1 P (when (Ok b) (emit i sev path msg (option_map val actual) expected)).
Proof.
  intro HP. unfold when. rewrite ifM_Ok. destruct b.
  - destruct actual as [v |];
      (eexists tt, [_]; split; [simpl; lia | split; [repeat constructor; exact HP | reflexivity]]).
  - apply (bounded_weaken 0); [lia | apply bounded_ret].
Qed.

(** A pattern object without the [g] flag is matched from the start,
    and its state is left alone. *)
Lemma exec_pure r text :
  Regex.global (lit r) = false ->
  forall s, exec r text s
            = (Ok (fst (Regex.exec (Regex.compile (Regex.source (lit r))) false 0 text)), s).
Proof.
  intros Hg s. unfold exec. rewrite Hg, exec_not_global. reflexivity.
Qed.

(** An error of the store URL check about the bundle: one that is not
    on the path of the store URL. *)
Definition store_error (i : ValidationIssue) : Prop :=
  severity i = error /\ String.eqb (fieldPath i) "BidRequest.app.storeurl" = false.

Lemma group_cases m i :
  (exists s, Regex.group m i = VStr s) \/ Regex.group m i = VUndefined.
Proof.
  unfold Regex.group. destruct i; [left; eauto |].
  destruct (find _ _); [left; eauto | now right].
Qed.

(** [gives a n P m]: [m] returns [a] after pushing at most [n] issues,
    all of which satisfy [P]. *)
Definition gives {A : Type} (a : A) (n : nat) (P : ValidationIssue -> Prop) (m : M A)
  : Prop :=
  exists l : list ValidationIssue,
    List.length l <= n /\ Forall P l /\ forall s, m s = (Ok a, extend l s).

Lemma gives_ret {A} P (a : A) : gives a 0 P (ret a).
Proof.
  exists []; split; [simpl; lia | split; [constructor | intro s; now rewrite extend_nil]].
Qed.

Lemma gives_bind {A B} (b : B) n1 n2 P (m : M A) (f : A -> M B) :
  bounded n1 P m -> (forall a, gives b n2 P (f a)) -> gives b (n1 + n2) P (bind m f).
Proof.
  intros (a & l & Hn & Hl & Hm) Hf. destruct (Hf a) as (l' & Hn' & Hl' & Hfa).
  exists (l ++ l')%list. split; [rewrite length_app; lia |].
  split; [now apply Forall_app |].
  intro s; unfold bind; now rewrite Hm, Hfa, extend_app.
Qed.

Lemma gives_seq {A} (a : A) n1 n2 P (m : M unit) (k : M A) :
  bounded n1 P m -> gives a n2 P k -> gives a (n1 + n2) P (seq m k).
Proof. intros Hm Hk; apply gives_bind; [assumption | intros _; assumption]. Qed.

Lemma try_patterns_bounded platform config ps storeUrl bundle :
  Regex.global (lit (bundlePattern config)) = false ->
  Forall (fun r => Regex.global (lit r) = false) ps ->
  exists (found : bool) (l : list ValidationIssue),
    List.length l <= 2 /\ Forall store_error l /\ (found = false -> l = [])
    /\ forall s, try_patterns platform config ps storeUrl bundle s = (Ok found, extend l s).
Proof.
  intros Hb Hps; induction Hps as [| pattern rest Hp _ IH]; simpl.
  - exists false, []. split; [simpl; lia |]. split; [constructor |].
    split; [reflexivity | intro s; now rewrite extend_nil].
  - unfold match_, bind at 1.
    destruct (fst (Regex.exec (Regex.compile (Regex.source (lit pattern))) false 0 storeUrl))
      as [mt |] eqn:Em.
    + assert (B : gives true 2 store_error
                (ok <- test_ (bundlePattern config) bundle ;;
                 when (Ok (negb ok))
                   (emit ("EQ-App-" ++ Str.toUpperCase platform ++ "-010") error
                      "BidRequest.app.bundle"
                      (platform ++ ": bundle must match store-specific pattern")
                      (Some (val (VStr bundle)))
                      (Some ("Pattern: " ++ Regex.source (lit (bundlePattern config))))) ;;
                 when (Ok (negb (eq_str (Regex.group mt 1) bundle)))
                   (msg <- lift (template [val (VStr "Bundle ID mismatch: bundle (");
                                           val (VStr bundle);
                                           val (VStr ") doesn't match store URL (");
                                           val (Regex.group mt 1); val (VStr ")")]) ;;
                    emit ("EQ-App-" ++ Str.toUpperCase platform ++ "-015") error "BidRequest.app"
                      msg
                      (Some (val (VStr bundle)))
                      (match Regex.group mt 1 with VStr s => Some s | _ => None end)) ;;
                 ret true)).
      { apply (gives_bind true 0 2).
        { eexists _, []; split; [simpl; lia | split; [constructor |]].
          intro s. unfold test_, bind. rewrite (exec_pure _ _ Hb), extend_nil. reflexivity. }
        intro ok. apply (gives_seq true 1 1).
        { apply (bounded_when_emit _ _ _ _ _ _ (Some (VStr bundle))). now split. }
        apply (gives_seq true 1 0); [| apply gives_ret].
        destruct (group_cases mt 1) as [[g ->] | ->]; simpl template; rewrite bind_lift_Ok.
        - apply (bounded_when_emit _ _ _ _ _ _ (Some (VStr bundle))). now split.
        - apply (bounded_when_emit _ _ _ _ _ _ (Some (VStr bundle))). now split. }
      destruct B as (l & Hn & Hl & Hm).
      exists true, l. split; [exact Hn |]. split; [exact Hl |].
      split; [discriminate |].
      intro s. rewrite (exec_pure _ _ Hp s), Em. apply Hm.
    + destruct IH as (found & l & Hn & Hl & Hf & Hm).
      exists found, l. repeat (split; [assumption |]).
      intro s. rewrite (exec_pure _ _ Hp s), Em. apply Hm.
Qed.

Lemma try_platforms_bounded entries storeUrl bundle :
  Forall (fun pc => Regex.global (lit (bundlePattern (snd pc))) = false
                    /\ Forall (fun r => Regex.global (lit r) = false) (patterns (snd pc)))
         entries ->
  exists (found : bool) (l : list ValidationIssue),
    List.length l <= 2 /\ Forall store_error l /\ (found = false -> l = [])
    /\ forall s, try_platforms entries storeUrl bundle s = (Ok found, extend l s).
Proof.
  intro H; induction H as [| [platform config] rest [Hb Hp] _ IH]; simpl.
  - exists false, []. split; [simpl; lia |]. split; [constructor |].
    split; [reflexivity | intro s; now rewrite extend_nil].
  - destruct (try_patterns_bounded platform config (patterns config) storeUrl bundle Hb Hp)
      as (found & l & Hn & Hl & Hf & Hm).
    destruct found.
    + exists true, l. split; [exact Hn |]. split; [exact Hl |]. split; [discriminate |].
      intro s. unfold bind. now rewrite Hm.
    + destruct IH as (found' & l' & Hn' & Hl' & Hf' & Hm').
      exists found', l'. repeat (split; [assumption |]).
      intro s. unfold bind. rewrite Hm, (Hf eq_refl), extend_nil. apply Hm'.
Qed.

(** The issue of rule 16. *)
Definition unknown_store (storeUrl : string) : ValidationIssue :=
  {| id := "EQ-App-016";
     severity := error;
     fieldPath := "BidRequest.app.storeurl";
     message := "Store URL does not match any known platform patterns";
     actualValue := Some (VStr storeUrl);
     expectedValue := Some "Valid store URL for supported platforms";
     specReference := None |}.

(** The match of a pattern of the registry (none has the [g] flag) on
    a text. *)
Definition first_match (r : RegExp) (text : string) : option Regex.found :=
  fst (Regex.exec (Regex.compile (Regex.source (lit r))) false 0 text).

(** The pairs of a platform and one of its patterns, in the order in
    which the two loops of [validateStoreUrlAndBundle] visit them. *)
Definition candidates_of (entries : list (string * StoreConfig))
  : list (string * StoreConfig * RegExp) :=
  flat_map (fun pc => map (fun p => (fst pc, snd pc, p)) (patterns (snd pc))) entries.

Definition candidates : list (string * StoreConfig * RegExp) :=
  candidates_of STORE_URL_PATTERNS.

(** The issue of rule 10. *)
Definition bundle_format_issue (platform : string) (config : StoreConfig) (bundle : string)
  : ValidationIssue :=
  {| id := "EQ-App-" ++ Str.toUpperCase platform ++ "-010";
     severity := error;
     fieldPath := "BidRequest.app.bundle";
     message := platform ++ ": bundle must match store-specific pattern";
     actualValue := Some (VStr bundle);
     expectedValue := Some ("Pattern: " ++ Regex.source (lit (bundlePattern config)));
     specReference := None |}.

(** The text a template literal shows for the first group of a match. *)
Definition shown (extracted : value) : string :=
  match extracted with VStr s => s | _ => "undefined" end.

(** The issue of rule 15, [extracted] being the first group of the
    match. *)
Definition bundle_mismatch_issue (platform bundle : string) (extracted : value)
  : ValidationIssue :=
  {| id := "EQ-App-" ++ Str.toUpperCase platform ++ "-015";
     severity := error;
     fieldPath := "BidRequest.app";
     message := "Bundle ID mismatch: bundle (" ++ bundle ++ ") doesn't match store URL ("
                ++ shown extracted ++ ")";
     actualValue := Some (VStr bundle);
     expectedValue := match extracted with VStr s => Some s | _ => None end;
     specReference := None |}.

(** What the body of the inner loop pushes for the match [mt] of a
    pattern of [platform]. *)
Definition bundle_issues (platform : string) (config : StoreConfig) (mt : Regex.found)
    (bundle : string) : list ValidationIssue :=
  ((match first_match (bundlePattern config) bundle with
    | Some _ => []
    | None => [bundle_format_issue platform config bundle]
    end)
   ++ (if eq_str (Regex.group mt 1) bundle then []
       else [bundle_mismatch_issue platform bundle (Regex.group mt 1)]))%list.

(** The first candidate that matches, with its match. *)
Fixpoint first_hit (cs : list (string * StoreConfig * RegExp)) (storeUrl : string)
  : option (string * StoreConfig * Regex.found) :=
  match cs with
  | [] => None
  | (platform, config, p) :: r =>
      match first_match p storeUrl with
      | Some mt => Some (platform, config, mt)
      | None => first_hit r storeUrl
      end
  end.

Lemma first_hit_app a b storeUrl :
  first_hit (a ++ b) storeUrl
  = match first_hit a storeUrl with Some h => Some h | None => first_hit b storeUrl end.
Proof.
  induction a as [| [[pl cf] p] a IH]; simpl; [reflexivity |].
  now destruct (first_match p storeUrl).
Qed.

Lemma first_hit_none cs storeUrl :
  (forall c, In c cs -> first_match (snd c) storeUrl = None) -> first_hit cs storeUrl = None.
Proof.
  induction cs as [| [[pl cf] p] cs IH]; intro H; simpl; [reflexivity |].
  pose proof (H (pl, cf, p) (or_introl eq_refl)) as E. simpl in E. rewrite E. apply IH. intros c Hc. apply H. now right.
Qed.

Lemma first_hit_at before platform config p after storeUrl mt :
  (forall c, In c before -> first_match (snd c) storeUrl = None) ->
  first_match p storeUrl = Some mt ->
  first_hit (before ++ (platform, config, p) :: after) storeUrl = Some (platform, config, mt).
Proof.
  intros Hb Hm. rewrite first_hit_app, (first_hit_none _ _ Hb). simpl. now rewrite Hm.
Qed.

Lemma when_run (b : bool) (m : M unit) (l : list ValidationIssue) (s : Store) :
  (b = true -> m s = (Ok tt, extend l s)) ->
  when (Ok b) m s = (Ok tt, extend (if b then l else []) s).
Proof.
  intro H. unfold when. rewrite ifM_Ok. destruct b; [now apply H |].
  now rewrite extend_nil.
Qed.

(** The run of the body of the inner loop. *)
Lemma matched_body platform config (mt : Regex.found) bundle :
  Regex.global (lit (bundlePattern config)) = false ->
  forall s,
    (ok <- test_ (bundlePattern config) bundle ;;
     when (Ok (negb ok))
       (emit ("EQ-App-" ++ Str.toUpperCase platform ++ "-010") error "BidRequest.app.bundle"
          (platform ++ ": bundle must match store-specific pattern")
          (Some (val (VStr bundle)))
          (Some ("Pattern: " ++ Regex.source (lit (bundlePattern config))))) ;;
     when (Ok (negb (eq_str (Regex.group mt 1) bundle)))
       (msg <- lift (template [val (VStr "Bundle ID mismatch: bundle ("); val (VStr bundle);
                               val (VStr ") doesn't match store URL (");
                               val (Regex.group mt 1); val (VStr ")")]) ;;
        emit ("EQ-App-" ++ Str.toUpperCase platform ++ "-015") error "BidRequest.app"
          msg
          (Some (val (VStr bundle)))
          (match Regex.group mt 1 with VStr s => Some s | _ => None end)) ;;
     ret true) s
    = (Ok true, extend (bundle_issues platform config mt bundle) s).
Proof.
  intros Hb s. unfold test_, bind at 1 2. rewrite (exec_pure _ _ Hb s).
  unfold bundle_issues. fold (first_match (bundlePattern config) bundle).
  unfold ret at 1.
  rewrite (seq_run _ _ _ _
             (when_run _ _ [bundle_format_issue platform config bundle] s
                (fun _ => eq_refl))).
  assert (E : forall s1,
             (msg <- lift (template [val (VStr "Bundle ID mismatch: bundle (");
                                     val (VStr bundle);
                                     val (VStr ") doesn't match store URL (");
                                     val (Regex.group mt 1); val (VStr ")")]) ;;
              emit ("EQ-App-" ++ Str.toUpperCase platform ++ "-015") error "BidRequest.app"
                msg
                (Some (val (VStr bundle)))
                (match Regex.group mt 1 with VStr s => Some s | _ => None end)) s1
             = (Ok tt, extend [bundle_mismatch_issue platform bundle (Regex.group mt 1)] s1)).
  { intro s1. destruct (group_cases mt 1) as [[g ->] | ->]; reflexivity. }
  rewrite (seq_run _ _ _ _ (when_run _ _ _ _ (fun _ => E _))).
  unfold ret. rewrite extend_app.
  destruct (first_match (bundlePattern config) bundle);
    destruct (eq_str (Regex.group mt 1) bundle); reflexivity.
Qed.

Lemma try_patterns_hit platform config ps storeUrl bundle :
  Regex.global (lit (bundlePattern config)) = false ->
  Forall (fun r => Regex.global (lit r) = false) ps ->
  forall s,
    try_patterns platform config ps storeUrl bundle s
    = match first_hit (map (fun p => (platform, config, p)) ps) storeUrl with
      | Some (pl, cf, mt) => (Ok true, extend (bundle_issues pl cf mt bundle) s)
      | None => (Ok false, s)
      end.
Proof.
  intros Hb Hps; induction Hps as [| p rest Hp _ IH]; intro s; simpl; [reflexivity |].
  unfold match_, bind at 1. rewrite (exec_pure _ _ Hp s).
  fold (first_match p storeUrl).
  destruct (first_match p storeUrl) as [mt |]; [| apply IH].
  now apply matched_body.
Qed.

Lemma try_platforms_hit entries storeUrl bundle :
  Forall (fun pc => Regex.global (lit (bundlePattern (snd pc))) = false
                    /\ Forall (fun r => Regex.global (lit r) = false) (patterns (snd pc)))
         entries ->
  forall s,
    try_platforms entries storeUrl bundle s
    = match first_hit (candidates_of entries) storeUrl with
      | Some (pl, cf, mt) => (Ok true, extend (bundle_issues pl cf mt bundle) s)
      | None => (Ok false, s)
      end.
Proof.
  intro H; induction H as [| [platform config] rest [Hb Hp] _ IH]; intro s; simpl;
    [reflexivity |].
  simpl in Hb, Hp.
  unfold bind. rewrite (try_patterns_hit platform config _ storeUrl bundle Hb Hp s).
  rewrite first_hit_app.
  destruct (first_hit (map _ (patterns config)) storeUrl) as [[[pl cf] mt] |];
    [reflexivity | apply IH].
Qed.

Lemma validateStoreUrlAndBundle_hit storeUrl bundle s :
  validateStoreUrlAndBundle storeUrl bundle s
  = (Ok tt,
     extend (match first_hit candidates storeUrl with
             | Some (pl, cf, mt) => bundle_issues pl cf mt bundle
             | None => [unknown_store storeUrl]
             end) s).
Proof.
  unfold validateStoreUrlAndBundle, bind.
  rewrite (try_platforms_hit _ storeUrl bundle registry_entries_not_global s).
  fold candidates.
  destruct (first_hit candidates storeUrl) as [[[pl cf] mt] |].
  - unfold when. rewrite ifM_Ok. reflexivity.
  - destruct s as [p h]. reflexivity.
Qed.

(** X10.  [validateStoreUrlAndBundle] never raises, and what it pushes
    is decided by the first pattern of the registry, in the order of
    the platforms and of their patterns, that matches the store URL.
    When none matches it pushes [EQ-App-016] alone.  Otherwise it
    pushes, for that platform and in this order, the format error of
    rule 10 exactly when the bundle does not match the bundle pattern
    of the platform, and the mismatch error of rule 15 exactly when
    the first group of the match is not the bundle; later patterns are
    not tried. *)
Theorem validateStoreUrlAndBundle_reports :
  forall storeUrl bundle : string,
    ((forall c, In c candidates -> first_match (snd c) storeUrl = None) ->
     forall s,
       validateStoreUrlAndBundle storeUrl bundle s
       = (Ok tt, extend [unknown_store storeUrl] s))
    /\ (forall before after platform config p mt,
          candidates = (before ++ (platform, config, p) :: after)%list ->
          (forall c, In c before -> first_match (snd c) storeUrl = None) ->
          first_match p storeUrl = Some mt ->
          forall s,
            validateStoreUrlAndBundle storeUrl bundle s
            = (Ok tt,
               extend
                 ((match first_match (bundlePattern config) bundle with
                   | Some _ => []
                   | None => [bundle_format_issue platform config bundle]
                   end)
                  ++ (if eq_str (Regex.group mt 1) bundle then []
                      else [bundle_mismatch_issue platform bundle (Regex.group mt 1)]))%list
                 s)).
Proof.
  intros storeUrl bundle. split.
  - intros Hn s. rewrite validateStoreUrlAndBundle_hit.
    now rewrite (first_hit_none _ _ Hn).
  - intros before after platform config p mt Hc Hb Hm s.
    rewrite validateStoreUrlAndBundle_hit, Hc.
    now rewrite (first_hit_at before platform config p after storeUrl mt Hb Hm).
Qed.

(** No pattern matches [x]; the third iOS pattern is the first to match
    [https://apps.apple.com/us/app/id123456789], whose group is not the
    bundle [999], which is a well-formed iOS bundle. *)
Lemma validateStoreUrlAndBundle_reports_witness :
  validateStoreUrlAndBundle "x" "y" blank = (Ok tt, extend [unknown_store "x"] blank)
  /\ validateStoreUrlAndBundle apple_store_url "999" blank
     = (Ok tt, extend [bundle_mismatch_issue "ios" "999" (VStr "123456789")] blank).
Proof.
  split.
  - apply (proj1 (validateStoreUrlAndBundle_reports "x" "y")).
    intros c Hc. vm_compute in Hc.
    repeat (destruct Hc as [<- | Hc]; [vm_compute; reflexivity |]). contradiction.
  - refine (eq_trans
              (proj2 (validateStoreUrlAndBundle_reports apple_store_url "999")
                 (firstn 2 candidates) (skipn 3 candidates) _ _ _ _ _ _ _ blank) _).
    + cbv. reflexivity.
    + intros c Hc. vm_compute in Hc.
      repeat (destruct Hc as [<- | Hc]; [vm_compute; reflexivity |]). contradiction.
    + vm_compute. reflexivity.
    + vm_compute. reflexivity.
Defined.

Lemma validateStoreUrlAndBundle_safe storeUrl bundle :
  safe any (validateStoreUrlAndBundle storeUrl bundle).
Proof.
  destruct (try_platforms_bounded STORE_URL_PATTERNS storeUrl bundle
              registry_entries_not_global) as (found & l & Hn & Hl & Hf & Hm).
  unfold validateStoreUrlAndBundle. apply safe_bind.
  - exists found, l. split; [| exact Hm]. apply Forall_forall; intros; exact I.
  - intros []; unfold when; rewrite ifM_Ok; [apply safe_ret |].
    apply safe_emit; [eexists; reflexivity | intro; exact I].
Qed.

Lemma toString_stringify v : exists s, Js.toString (Json.stringify v) = Ok s.
Proof. unfold Json.stringify. destruct (Json.serialize v); eexists; reflexivity. Qed.

Lemma F_or_typeIsNot_string_false e :
  F e ||| typeIsNot e "string" = Ok false -> exists s, e = Ok (VStr s).
Proof.
  destruct e as [v | x]; [| discriminate].
  destruct v; unfold F, typeIsNot, typeIs, test, orR, notR; simpl;
    try discriminate; try (destruct (falsy _); discriminate).
  intros _; eauto.
Qed.

Lemma validateApp_safe U br : nullish br = false -> safe any (validateApp U br).
Proof.
  intro Hn. unfold validateApp.
  apply safe_ifM; [crack | intros _; apply safe_ret | intro Hu].
  apply F_false in Hu as (app & Hu & Ht). rewrite Hu, bind_lift_Ok.
  apply safe_ifM; [crack | intros _; safe_step ltac:(exact I) | intro H1].
  apply safe_ifM; [crack | intros _; safe_step ltac:(exact I) | intro H2].
  destruct (F_or_typeIsNot_string_false _ H1) as [storeurl E1].
  destruct (F_or_typeIsNot_string_false _ H2) as [bundle E2].
  rewrite E1, E2 in *. simpl rbind. rewrite !bind_lift_Ok.
  apply safe_seq; [apply validateStoreUrlAndBundle_safe |].
  apply safe_seq; [apply safe_when; [eexists; reflexivity | intros _];
                   apply safe_emit; [eexists; reflexivity | intro; exact I] |].
  apply safe_seq; [apply safe_when; [eexists; reflexivity | intros _];
                   apply safe_emit; [eexists; reflexivity | intro; exact I] |].
  destruct (toString_stringify app) as [appJson ->]. rewrite bind_lift_Ok.
  repeat first [safe_step ltac:(exact I) | apply unless_URL_safe].
Qed.

(** ** Rules of [validateCoreBidRequest] *)

Lemma yields_and {A} (m : M A) Q1 Q2 :
  yields m Q1 -> yields m Q2 -> yields m (fun r l => Q1 r l /\ Q2 r l).
Proof.
  intros (r1 & l1 & H1 & E1) (r2 & l2 & H2 & E2).
  assert (E : (r1, extend l1 blank) = (r2, extend l2 blank)) by now rewrite <- E1, <- E2.
  injection E as -> E. subst l2.
  now exists r2, l1.
Qed.

Lemma yields_of_writes {A} P (m : M A) :
  writes P m -> yields m (fun _ l => Forall P l).
Proof. intros (r & l & H & E); now exists r, l. Qed.

Lemma yields_impl {A} (m : M A) (Q1 Q2 : result A -> list ValidationIssue -> Prop) :
  (forall r l, Q1 r l -> Q2 r l) -> yields m Q1 -> yields m Q2.
Proof. intros H (r & l & H1 & E); exists r, l; auto. Qed.

Lemma returns_of_safe {A} P (m : M A) : safe P m -> returns m.
Proof. intros (a & l & _ & E); exists (Ok a), l; split; [now exists a | exact E]. Qed.

Lemma has_later {A} (m : M unit) (k : M A) x :
  returns m -> yields k (has x) -> yields (seq m k) (has x).
Proof.
  intros (r & l & [a ->] & Hm) (r' & l' & Hx & Hk).
  exists r', (l ++ l')%list; split; [apply in_or_app; now right |].
  intro s; unfold seq, bind; now rewrite Hm, Hk, extend_app.
Qed.

Lemma has_emit {A} c i sev path msg actual a expected (k : M A) :
  c = Ok true ->
  match actual with Some e => e = Ok a | None => True end ->
  writes any k ->
  yields (when c (emit i sev path msg actual expected) ;; k)
    (has {| id := i; severity := sev; fieldPath := path; message := msg;
            actualValue := match actual with Some _ => Some a | None => None end;
            expectedValue := expected; specReference := None |}).
Proof.
  intros Hc Ha Hk. apply has_seq_left; [| exact Hk].
  apply has_of_then_has. now apply then_has_emit.
Qed.

(** The issues with the id [i]. *)
Definition with_id (i : string) (l : list ValidationIssue) : list ValidationIssue :=
  List.filter (fun x => String.eqb (id x) i) l.

Definition other_id (i : string) (x : ValidationIssue) : Prop := String.eqb (id x) i = false.

Lemma with_id_none i l : Forall (other_id i) l -> with_id i l = [].
Proof.
  induction 1 as [| x l Hx _ IH]; [reflexivity |].
  unfold with_id in *; simpl. unfold other_id in Hx. now rewrite Hx.
Qed.

Lemma with_id_some i x l : In x l -> id x = i -> with_id i l <> [].
Proof.
  intros Hin Hid E. assert (H : In x (with_id i l)).
  { apply filter_In; split; [assumption |]. rewrite Hid. apply String.eqb_refl. }
  rewrite E in H. exact H.
Qed.

(** A step whose condition is false pushes nothing; otherwise the
    step of the outermost construct. *)
Ltac other_step :=
  lazymatch goal with
  | H : ?c = Ok false |- writes _ (when ?c _) => apply writes_when_false; exact H
  | H : ?c = Ok false |- writes _ (ifM ?c _ _) => rewrite H, ifM_Ok
  | H : ?c = Ok true |- writes _ (ifM ?c _ _) => rewrite H, ifM_Ok
  | |- writes _ (when (Ok false) _) => apply writes_when_false; reflexivity
  | |- writes _ (emit _ _ _ _ _ _) =>
      apply writes_emit; intro; first [exact I | unfold other_id; reflexivity]
  | |- _ => writes_step
  end.

Ltac other_auto := cbv zeta; repeat (other_step; cbv zeta).

Ltac step_returns :=
  first [ apply returns_when; [crack | apply returns_emit; crack]
        | apply (returns_of_safe any); repeat safe_step ltac:(exact I) ].

(** [tagged i m L]: among the issues [m] pushes, those with the id [i]
    are [L]. *)
Definition tagged {A : Type} (i : string) (m : M A) (L : list ValidationIssue) : Prop :=
  yields m (fun _ l => with_id i l = L).

Lemma with_id_app i l1 l2 : with_id i (l1 ++ l2) = (with_id i l1 ++ with_id i l2)%list.
Proof. apply filter_app. Qed.

(** A step that returns and pushes none of them leaves them to the
    rest. *)
Lemma tagged_skip {A} i (m : M unit) (k : M A) L :
  safe (other_id i) m -> tagged i k L -> tagged i (seq m k) L.
Proof.
  intros (a & l & Hl & Hm) (r' & l' & HL & Hk).
  exists r', (l ++ l')%list. split.
  - now rewrite with_id_app, (with_id_none _ _ Hl), HL.
  - intro s; unfold seq, bind; now rewrite Hm, Hk, extend_app.
Qed.

(** The step that pushes them, when it returns and the rest pushes
    none. *)
Lemma tagged_here {A} i (m : M unit) (k : M A) :
  safe any m -> writes (other_id i) k -> tagged i (seq m k) (with_id i (report m)).
Proof.
  intros (a & l & _ & Hm) (r' & l' & Hl' & Hk).
  exists r', (l ++ l')%list. split.
  - rewrite with_id_app, (with_id_none _ _ Hl'), app_nil_r.
    unfold report. now rewrite Hm.
  - intro s; unfold seq, bind; now rewrite Hm, Hk, extend_app.
Qed.

Lemma tagged_last i (m : M unit) :
  writes any m -> tagged i m (with_id i (report m)).
Proof.
  intros (r & l & _ & Hm). exists r, l. split; [| exact Hm].
  unfold report. now rewrite Hm.
Qed.

Ltac solve_safe := repeat safe_step ltac:(first [exact I | unfold other_id; reflexivity]).

Tactic Notation "locate" constr(i) integer(n) :=
  do n (apply (tagged_skip i); [solve_safe |]);
  apply (tagged_here i); [solve_safe | other_auto].

Definition neither_site_nor_app : ValidationIssue :=
  {| id := "EQ-BR-001";
     severity := error;
     fieldPath := "BidRequest";
     message := "BidRequest must contain either a site or an app object";
     actualValue := None;
     expectedValue := Some "Either site or app object";
     specReference := None |}.

Definition both_site_and_app : ValidationIssue :=
  {| id := "Core-BR-006";
     severity := error;
     fieldPath := "BidRequest";
     message := "BidRequest must not contain both site and app objects";
     actualValue := Some (VStr "Both site and app present");
     expectedValue := Some "Either site or app, not both";
     specReference := None |}.

Lemma core_site_app (br site app : value) :
  val br # "site" = Ok site -> val br # "app" = Ok app ->
  tagged "EQ-BR-001" (validateCoreBidRequest br)
    (if negb (truthy site) && negb (truthy app) then [neither_site_nor_app] else [])
  /\ tagged "Core-BR-006" (validateCoreBidRequest br)
       (if truthy site && truthy app then [both_site_and_app] else []).
Proof.
  intros Hs Ha.
  assert (Hn : nullish br = false).
  { destruct br; try reflexivity; discriminate. }
  unfold validateCoreBidRequest. rewrite Hs, Ha. simpl T.
  unfold T, test; simpl rbind. rewrite !bind_lift_Ok.
  split.
  - eapply yields_impl; [| locate "EQ-BR-001" 0].
    intros r l ->. destruct (truthy site), (truthy app); reflexivity.
  - eapply yields_impl; [| locate "Core-BR-006" 9].
    intros r l ->. destruct (truthy site), (truthy app); reflexivity.
Qed.

(** X11.  The two rules on [site] and [app]: [EQ-BR-001] fires, once,
    exactly when the request has neither, and [Core-BR-006], once,
    exactly when it has both. *)
Theorem site_and_app_rules :
  forall bidRequest site app : value,
    val bidRequest # "site" = Ok site -> val bidRequest # "app" = Ok app ->
    exists r l,
      (forall s, validateCoreBidRequest bidRequest s = (r, extend l s))
      /\ with_id "EQ-BR-001" l
         = (if negb (truthy site) && negb (truthy app) then [neither_site_nor_app] else [])
      /\ with_id "Core-BR-006" l
         = (if truthy site && truthy app then [both_site_and_app] else []).
Proof.
  intros br site app Hs Ha.
  destruct (core_site_app br site app Hs Ha) as [H1 H6].
  destruct (yields_and _ _ _ H1 H6) as (r & l & [E1 E6] & Hrun).
  now exists r, l.
Qed.

Lemma site_and_app_rules_witness :
  exists r l,
    (forall s, validateCoreBidRequest
                 (VObj [("site", VObj []); ("app", VObj [])]) s = (r, extend l s))
    /\ with_id "EQ-BR-001" l = []
    /\ with_id "Core-BR-006" l = [both_site_and_app].
Proof.
  exact (site_and_app_rules (VObj [("site", VObj []); ("app", VObj [])])
           (VObj []) (VObj []) eq_refl eq_refl).
Defined.

(** The member [k] of a value that is neither [null] nor [undefined]. *)
Definition field (v : value) (k : string) : value :=
  match get v k with Ok x => x | Throw _ => VUndefined end.

Lemma dot_field v k : nullish v = false -> val v # k = Ok (field v k).
Proof.
  intro H. unfold dot, val, field; simpl.
  destruct v; try discriminate; simpl;
    repeat match goal with
           | |- context [match ?x with _ => _ end] => destruct x
           end; reflexivity.
Qed.

Definition imp_required : ValidationIssue :=
  {| id := "EQ-BR-003";
     severity := error;
     fieldPath := "BidRequest.imp";
     message := "BidRequest must contain a non-empty impression array";
     actualValue := None;
     expectedValue := Some "Non-empty array of impressions";
     specReference := None |}.

Definition imp_missing : ValidationIssue :=
  {| id := "Core-BR-002";
     severity := error;
     fieldPath := "BidRequest.imp";
     message := "BidRequest.imp array must be present";
     actualValue := None;
     expectedValue := Some "Array of impression objects";
     specReference := None |}.

Definition imp_not_an_array (imp : value) : ValidationIssue :=
  {| id := "Core-BR-003";
     severity := error;
     fieldPath := "BidRequest.imp";
     message := "BidRequest.imp must be a non-empty array";
     actualValue := Some imp;
     expectedValue := Some "Non-empty array";
     specReference := None |}.

(** The steps of [validateCoreBidRequest] on [imp]. *)
Definition imp_step_3 (imp : value) : M unit :=
  when (F (Ok imp) ||| notR (isArr (Ok imp)) ||| eqN (val imp # "length") 0)
    (emit "EQ-BR-003" error "BidRequest.imp"
       "BidRequest must contain a non-empty impression array"
       None (Some "Non-empty array of impressions")).

Definition imp_step_8 (imp : value) : M unit :=
  ifM (F (Ok imp))
    (emit "Core-BR-002" error "BidRequest.imp"
       "BidRequest.imp array must be present"
       None (Some "Array of impression objects"))
    (when (notR (isArr (Ok imp)) ||| eqN (val imp # "length") 0)
       (emit "Core-BR-003" error "BidRequest.imp"
          "BidRequest.imp must be a non-empty array"
          (Some (val imp)) (Some "Non-empty array"))).

Lemma core_imp (br imp : value) :
  val br # "imp" = Ok imp ->
  tagged "EQ-BR-003" (validateCoreBidRequest br) (with_id "EQ-BR-003" (report (imp_step_3 imp)))
  /\ tagged "Core-BR-002" (validateCoreBidRequest br)
       (with_id "Core-BR-002" (report (imp_step_8 imp)))
  /\ tagged "Core-BR-003" (validateCoreBidRequest br)
       (with_id "Core-BR-003" (report (imp_step_8 imp))).
Proof.
  intros Hi.
  assert (Hn : nullish br = false).
  { destruct br; try reflexivity; discriminate. }
  unfold validateCoreBidRequest, imp_step_3, imp_step_8.
  rewrite (dot_field br "site" Hn), (dot_field br "app" Hn), !Hi.
  unfold T at 1 2, test; simpl rbind. rewrite !bind_lift_Ok.
  split; [| split].
  - locate "EQ-BR-003" 2.
  - locate "Core-BR-002" 7.
  - locate "Core-BR-003" 7.
Qed.

Lemma imp_steps_agree imp :
  List.length (with_id "EQ-BR-003" (report (imp_step_3 imp)))
  = List.length (with_id "Core-BR-002" (report (imp_step_8 imp)))
    + List.length (with_id "Core-BR-003" (report (imp_step_8 imp)))
  /\ List.length (with_id "EQ-BR-003" (report (imp_step_3 imp))) <= 1.
Proof.
  unfold imp_step_3, imp_step_8, F, isArr, notR, test; simpl rbind.
  destruct (falsy imp); [split; lazy; [reflexivity | lia] |].
  destruct imp as [| | b | x | s | l | ps | n];
    try (split; lazy; [reflexivity | lia]).
  change (val (VArr l) # "length") with (val (VNum (Num.of_nat (List.length l)))).
  generalize (Num.of_nat (List.length l)); intro f.
  unfold eqN, test, eq_num; simpl rbind.
  destruct (PrimFloat.eqb f 0); split; lazy; try reflexivity; lia.
Qed.

(** [!imp || !Array.isArray(imp) || imp.length === 0] *)
Definition no_impressions (imp : value) : bool :=
  falsy imp || negb (isArray imp) || eq_num (field imp "length") 0.

(** An [imp] that is missing, not an array, or an empty array. *)
Lemma no_impressions_cases (imp : value) :
  match imp with
  | VArr (_ :: _) => True
  | _ => no_impressions imp = true
  end.
Proof.
  destruct imp as [| | b | x | s | l | ps | n]; try reflexivity.
  - unfold no_impressions. now rewrite orb_true_r.
  - unfold no_impressions. now rewrite orb_true_r.
  - unfold no_impressions. now rewrite orb_true_r.
  - destruct l; [reflexivity | exact I].
Qed.

Lemma imp_steps_lists imp :
  with_id "EQ-BR-003" (report (imp_step_3 imp))
  = (if no_impressions imp then [imp_required] else [])
  /\ with_id "Core-BR-002" (report (imp_step_8 imp))
     = (if falsy imp then [imp_missing] else [])
  /\ with_id "Core-BR-003" (report (imp_step_8 imp))
     = (if negb (falsy imp) && (negb (isArray imp) || eq_num (field imp "length") 0)
        then [imp_not_an_array imp] else []).
Proof.
  unfold no_impressions, imp_step_3, imp_step_8, F, isArr, notR, test; simpl rbind.
  destruct (falsy imp) eqn:Ef; [repeat split; lazy; reflexivity |].
  destruct imp as [| | b | x | s | l | ps | n];
    try (repeat split; lazy; reflexivity); try discriminate.
  change (field (VArr l) "length") with (VNum (Num.of_nat (List.length l))).
  change (val (VArr l) # "length") with (val (VNum (Num.of_nat (List.length l)))).
  generalize (Num.of_nat (List.length l)); intro f.
  unfold eqN, test, eq_num; simpl rbind.
  destruct (PrimFloat.eqb f 0); repeat split; lazy; reflexivity.
Qed.

(** X12.  The two generations of the rule on [imp] in
    [validateCoreBidRequest], whether or not the function goes on to
    raise.  [EQ-BR-003] is pushed, once, exactly when [imp] is falsy,
    not an array or of length 0; [Core-BR-002], once, exactly when
    [imp] is falsy; [Core-BR-003], once and with [imp] as actual value,
    exactly when [imp] is truthy but not an array or of length 0.  So
    an [imp] that is missing, not an array or an empty array is always
    reported twice, and [EQ-BR-003] fires as often as the two others
    together. *)
Theorem imp_rules_fire_together :
  forall bidRequest imp : value,
    val bidRequest # "imp" = Ok imp ->
    exists r l,
      (forall s, validateCoreBidRequest bidRequest s = (r, extend l s))
      /\ with_id "EQ-BR-003" l = (if no_impressions imp then [imp_required] else [])
      /\ with_id "Core-BR-002" l = (if falsy imp then [imp_missing] else [])
      /\ with_id "Core-BR-003" l
         = (if negb (falsy imp) && (negb (isArray imp) || eq_num (field imp "length") 0)
            then [imp_not_an_array imp] else [])
      /\ match imp with
         | VArr (_ :: _) => True
         | _ => no_impressions imp = true
         end
      /\ List.length (with_id "EQ-BR-003" l)
         = List.length (with_id "Core-BR-002" l) + List.length (with_id "Core-BR-003" l)
      /\ List.length (with_id "EQ-BR-003" l) <= 1.
Proof.
  intros br imp Hi.
  destruct (core_imp br imp Hi) as (H3 & H2 & H3').
  destruct (yields_and _ _ _ H3 (yields_and _ _ _ H2 H3')) as (r & l & (E1 & E2 & E3) & Hrun).
  destruct (imp_steps_lists imp) as (L1 & L2 & L3).
  exists r, l. split; [exact Hrun |].
  split; [now rewrite E1 |]. split; [now rewrite E2 |]. split; [now rewrite E3 |].
  split; [apply no_impressions_cases |].
  rewrite E1, E2, E3. apply imp_steps_agree.
Qed.

Lemma imp_rules_fire_together_witness :
  (exists r l,
     (forall s, validateCoreBidRequest (VObj [("imp", VArr [])]) s = (r, extend l s))
     /\ with_id "EQ-BR-003" l = [imp_required]
     /\ with_id "Core-BR-002" l = []
     /\ with_id "Core-BR-003" l = [imp_not_an_array (VArr [])])
  /\ (exists r l,
        (forall s, validateCoreBidRequest (VObj []) s = (r, extend l s))
        /\ with_id "EQ-BR-003" l = [imp_required]
        /\ with_id "Core-BR-002" l = [imp_missing]
        /\ with_id "Core-BR-003" l = [])
  /\ (exists r l,
        (forall s, validateCoreBidRequest (VObj [("imp", VArr [VNull])]) s = (r, extend l s))
        /\ with_id "EQ-BR-003" l = []
        /\ with_id "Core-BR-002" l = []
        /\ with_id "Core-BR-003" l = []).
Proof.
  split; [| split].
  - destruct (imp_rules_fire_together (VObj [("imp", VArr [])]) (VArr []) eq_refl)
      as (r & l & H & E1 & E2 & E3 & _).
    exists r, l. repeat split; assumption.
  - destruct (imp_rules_fire_together (VObj []) VUndefined eq_refl)
      as (r & l & H & E1 & E2 & E3 & _).
    exists r, l. repeat split; assumption.
  - destruct (imp_rules_fire_together (VObj [("imp", VArr [VNull])]) (VArr [VNull]) eq_refl)
      as (r & l & H & E1 & E2 & E3 & _).
    exists r, l. repeat split; assumption.
Defined.

(** ** Which validators return on every request *)

(** A value that is not an object, an array or a function. *)
Definition primitive (v : value) : bool :=
  match v with VArr _ | VObj _ | VFun _ => false | _ => true end.

Lemma validateCoreBidRequest_safe br tmax :
  val br # "tmax" = Ok tmax -> primitive tmax = true ->
  safe any (validateCoreBidRequest br).
Proof.
  intros Ht Hp.
  assert (Hn : nullish br = false).
  { destruct br; try reflexivity; discriminate. }
  unfold validateCoreBidRequest.
  rewrite (dot_field br "site" Hn), (dot_field br "app" Hn), !Ht.
  unfold T at 1 2, test; simpl rbind. rewrite !bind_lift_Ok.
  do 11 (apply safe_seq; [solve_safe |]).
  apply safe_when; [| intros _; apply safe_emit; [eexists; reflexivity | intro; exact I]].
  unfold F, leR, test, orR; simpl rbind.
  destruct (falsy tmax); [eexists; reflexivity |].
  destruct tmax; try discriminate; unfold Js.le, toPrimitive, toNumber; cbn [rbind];
    eexists; reflexivity.
Qed.

(** X13.  [validateCoreBidRequest] returns on every request that is not
    [null] and whose [tmax] is absent or a primitive value. *)
Theorem validateCoreBidRequest_returns :
  forall bidRequest tmax : value,
    val bidRequest # "tmax" = Ok tmax -> primitive tmax = true ->
    exists l, forall s, validateCoreBidRequest bidRequest s = (Ok tt, extend l s).
Proof.
  intros br tmax Ht Hp.
  destruct (validateCoreBidRequest_safe br tmax Ht Hp) as ([] & l & _ & H). now exists l.
Qed.

Lemma validateCoreBidRequest_returns_witness :
  exists l, forall s, validateCoreBidRequest (VNum 5) s = (Ok tt, extend l s).
Proof.
  exact (validateCoreBidRequest_returns (VNum 5) VUndefined eq_refl eq_refl).
Defined.

(** X14.  [validateApp], [validateSite], [validateUser], [validateRegs]
    and [validateEquativRules] return on every request that is not
    [null], whatever the shapes of its members. *)
Theorem guarded_validators_return :
  forall (URL_parses : string -> bool) (bidRequest : value),
    nullish bidRequest = false ->
    (exists l, forall s, validateApp URL_parses bidRequest s = (Ok tt, extend l s))
    /\ (exists l, forall s, validateSite URL_parses bidRequest s = (Ok tt, extend l s))
    /\ (exists l, forall s, validateUser bidRequest s = (Ok tt, extend l s))
    /\ (exists l, forall s, validateRegs bidRequest s = (Ok tt, extend l s))
    /\ (exists l, forall s, validateEquativRules bidRequest s = (Ok tt, extend l s)).
Proof.
  intros U br Hn.
  destruct (validateApp_safe U br Hn) as ([] & l1 & _ & H1).
  destruct (validateSite_safe U br Hn) as ([] & l2 & _ & H2).
  destruct (validateUser_safe br Hn) as ([] & l3 & _ & H3).
  destruct (validateRegs_safe br Hn) as ([] & l4 & _ & H4).
  destruct (validateEquativRules_safe br Hn) as ([] & l5 & _ & H5).
  repeat split; eexists; eassumption.
Qed.

(** A request whose members have none of the expected shapes. *)
Definition misshapen : value :=
  VObj [("app", VNum 1); ("site", VStr "x"); ("user", VArr [VNull]);
        ("regs", VBool true); ("source", VNum 2)].

Lemma guarded_validators_return_witness :
  (exists l, forall s, validateApp lenient_host misshapen s = (Ok tt, extend l s))
  /\ (exists l, forall s, validateSite lenient_host misshapen s = (Ok tt, extend l s))
  /\ (exists l, forall s, validateUser misshapen s = (Ok tt, extend l s))
  /\ (exists l, forall s, validateRegs misshapen s = (Ok tt, extend l s))
  /\ (exists l, forall s, validateEquativRules misshapen s = (Ok tt, extend l s)).
Proof. exact (guarded_validators_return lenient_host misshapen eq_refl). Defined.

(** X15.  [validateUser] returns on every request that is not [null]
    or [undefined], and every issue it pushes is a warning. *)
Theorem validateUser_only_warns :
  forall bidRequest : value,
    nullish bidRequest = false ->
    exists l,
      (forall s, validateUser bidRequest s = (Ok tt, extend l s))
      /\ Forall (fun i => severity i = warning) l.
Proof.
  intros br Hn. destruct (validateUser_safe br Hn) as ([] & l & Hl & H).
  exists l; split; [exact H | exact Hl].
Qed.

Lemma validateUser_only_warns_witness :
  exists l,
    (forall s, validateUser (VObj [("user", VObj [])]) s = (Ok tt, extend l s))
    /\ Forall (fun i => severity i = warning) l.
Proof. exact (validateUser_only_warns (VObj [("user", VObj [])]) eq_refl). Defined.

(** ** The duration rule of the video impressions *)

(** The issue of rule 37 on impression [index], [d] being the
    difference of the two durations. *)
Definition duration_issue (index : nat) (d : float) : ValidationIssue :=
  {| id := "EQ-Video-037";
     severity := error;
     fieldPath := "BidRequest.imp[" ++ Str.of_nat index ++ "].video";
     message := "imp.video.maxduration - imp.video.minduration must be greater than 30 seconds";
     actualValue := Some (VStr (Num.toString d ++ " seconds"));
     expectedValue := Some "Greater than 30 seconds";
     specReference := None |}.

(** The first step of [validateVideoImpressionRules] on durations that
    are numbers. *)
Definition duration_step (index : nat) (a b : float) : M unit :=
  when (T (Ok (VNum a)) &&& T (Ok (VNum b)))
    (durationDiff <- lift (rbind (Ok (VNum b)) (fun x =>
                           rbind (Ok (VNum a)) (fun y => arith PrimFloat.sub x y))) ;;
     when (Ok (PrimFloat.ltb durationDiff 30))
       (emit "EQ-Video-037" error ("BidRequest.imp[" ++ Str.of_nat index ++ "].video")
          "imp.video.maxduration - imp.video.minduration must be greater than 30 seconds"
          (Some (str (template [val (VNum durationDiff); val (VStr " seconds")])))
          (Some "Greater than 30 seconds"))).

Lemma duration_step_runs index a b :
  forall s, duration_step index a b s
            = (Ok tt,
               extend (if truthy (VNum a) && truthy (VNum b)
                          && PrimFloat.ltb (PrimFloat.sub b a) 30
                       then [duration_issue index (PrimFloat.sub b a)] else []) s).
Proof.
  intro s. unfold duration_step, T, test, andR; cbn [rbind].
  destruct (truthy (VNum a)); cbn [andb rbind];
    [| rewrite extend_nil; reflexivity].
  destruct (truthy (VNum b)); cbn [andb];
    [| rewrite extend_nil; reflexivity].
  unfold when at 1. rewrite ifM_Ok. unfold arith, toNumber; cbn [rbind].
  rewrite bind_lift_Ok. unfold when. rewrite ifM_Ok.
  destruct (PrimFloat.ltb (PrimFloat.sub b a) 30); [| rewrite extend_nil; reflexivity].
  reflexivity.
Qed.

Lemma video_duration (video : value) (index : nat) (a b : float) :
  val video # "minduration" = Ok (VNum a) ->
  val video # "maxduration" = Ok (VNum b) ->
  tagged "EQ-Video-037" (validateVideoImpressionRules video index)
    (if truthy (VNum a) && truthy (VNum b) && PrimFloat.ltb (PrimFloat.sub b a) 30
     then [duration_issue index (PrimFloat.sub b a)] else []).
Proof.
  intros Ha Hb. unfold validateVideoImpressionRules. cbv zeta. rewrite !Ha, !Hb.
  fold (duration_step index a b).
  eapply yields_impl; [| apply (tagged_here "EQ-Video-037")].
  - intros r l ->. unfold report. rewrite duration_step_runs.
    destruct (truthy (VNum a) && truthy (VNum b) && PrimFloat.ltb (PrimFloat.sub b a) 30);
      reflexivity.
  - eexists tt, _. split; [| apply duration_step_runs].
    apply Forall_forall; intros; exact I.
  - other_auto.
Qed.

(** X16.  Rule 37 fires on a video whose two durations are numbers
    exactly when both are truthy and their difference is below 30; it
    then reports the difference. *)
Theorem duration_rule_fires_below_30 :
  forall (video : value) (index : nat) (a b : float),
    val video # "minduration" = Ok (VNum a) ->
    val video # "maxduration" = Ok (VNum b) ->
    exists r l,
      (forall s, validateVideoImpressionRules video index s = (r, extend l s))
      /\ with_id "EQ-Video-037" l
         = (if truthy (VNum a) && truthy (VNum b) && PrimFloat.ltb (PrimFloat.sub b a) 30
            then [duration_issue index (PrimFloat.sub b a)] else []).
Proof.
  intros video index a b Ha Hb.
  destruct (video_duration video index a b Ha Hb) as (r & l & E & Hrun).
  now exists r, l.
Qed.

(** A difference of exactly 30 seconds passes, and so does any pair of
    durations whose minimum is 0. *)
Lemma duration_rule_fires_below_30_witness :
  (exists r l,
     (forall s, validateVideoImpressionRules
                  (VObj [("minduration", VNum 15); ("maxduration", VNum 45)]) 0 s
                = (r, extend l s))
     /\ with_id "EQ-Video-037" l = [])
  /\ (exists r l,
        (forall s, validateVideoImpressionRules
                     (VObj [("minduration", VNum 0); ("maxduration", VNum 10)]) 0 s
                   = (r, extend l s))
        /\ with_id "EQ-Video-037" l = []).
Proof.
  split.
  - exact (duration_rule_fires_below_30
             (VObj [("minduration", VNum 15); ("maxduration", VNum 45)]) 0 15 45
             eq_refl eq_refl).
  - exact (duration_rule_fires_below_30
             (VObj [("minduration", VNum 0); ("maxduration", VNum 10)]) 0 0 10
             eq_refl eq_refl).
Defined.

(** ** Native impressions *)

Lemma native_callback_safe (imp : value) (index : nat) :
  nullish imp = false ->
  safe any
    (ifM (F (imp # "native")) (ret tt)
     (native <- lift (imp # "native") ;;
      let basePath := "BidRequest.imp[" ++ Str.of_nat index ++ "].native" in
      ifM (F (native # "request") ||| typeIsNot (native # "request") "string")
        (emit "Native-N-001" error (basePath ++ ".request")
           "native.request must be present and be a string"
           (Some (native # "request")) (Some "JSON string"))
        (try_catch
           (nativeRequest <- lift (rbind (rbind (native # "request") toString) Json.parse) ;;
            when (F (nativeRequest # "ver"))
              (emit "Native-N-002" error (basePath ++ ".request.ver")
                 "Native request must contain ver (version string)"
                 None (Some ("Version string (e.g., " ++ Str.dq ++ "1.2" ++ Str.dq ++ ")"))) ;;
            ifM (F (nativeRequest # "assets") ||| notR (isArr (nativeRequest # "assets"))
                 ||| eqN (nativeRequest # "assets" # "length") 0)
              (emit "Native-N-003" error (basePath ++ ".request.assets")
                 "Native request must contain a non-empty assets array"
                 (Some (nativeRequest # "assets")) (Some "Non-empty array of asset objects"))
              (forEach (nativeRequest # "assets") (fun asset assetIndex =>
                 when (F (asset # "id"))
                   (emit "Native-N-004" error
                      (basePath ++ ".request.assets[" ++ Str.of_nat assetIndex ++ "].id")
                      "Each native asset must have an id"
                      None (Some "Integer asset ID")) ;;
                 hasTitle <- lift (T (asset # "title")) ;;
                 hasImg <- lift (T (asset # "img")) ;;
                 hasVideo <- lift (T (asset # "video")) ;;
                 hasData <- lift (T (asset # "data")) ;;
                 let assetTypeCount :=
                   List.length (List.filter (fun b => b) [hasTitle; hasImg; hasVideo; hasData]) in
                 when (Ok (Nat.eqb assetTypeCount 0))
                   (emit "Native-N-005" error
                      (basePath ++ ".request.assets[" ++ Str.of_nat assetIndex ++ "]")
                      "Each asset must have either title, img, video, or data"
                      None (Some "One of: title, img, video, or data object")))))
           (emit "Native-N-006" error (basePath ++ ".request")
              "native.request must be valid JSON"
              (Some (native # "request")) (Some "Valid JSON string"))))).
Proof.
  intro Hn.
  apply safe_ifM; [crack | intros _; apply safe_ret | intro Hu].
  apply F_false in Hu as (native & Hu & Ht). rewrite Hu, bind_lift_Ok. cbv zeta.
  apply safe_ifM; [crack | intros _; solve_safe | intro H1].
  destruct (F_or_typeIsNot_string_false _ H1) as [request E1]. rewrite E1.
  apply safe_try_catch; [writes_auto |].
  apply safe_emit; [eexists; reflexivity | intro; exact I].
Qed.

(** X17.  [validateNative] returns on every request whose [imp] is an
    array that holds no [null]: whatever goes wrong inside a native
    request is caught and reported. *)
Theorem validateNative_returns :
  forall (bidRequest : value) (imps : list value),
    val bidRequest # "imp" = Ok (VArr imps) ->
    Forall (fun imp => nullish imp = false) imps ->
    exists l, forall s, validateNative bidRequest s = (Ok tt, extend l s).
Proof.
  intros br imps Hi Hn.
  assert (S : safe any (validateNative br)).
  { unfold validateNative. rewrite Hi.
    apply safe_ifM; [eexists; reflexivity | discriminate | intros _].
    unfold forEach. apply safe_lift. exists imps. split; [reflexivity |].
    apply safe_forEach_from. intros imp j Hin.
    apply native_callback_safe. rewrite Forall_forall in Hn. now apply Hn. }
  destruct S as ([] & l & _ & H). now exists l.
Qed.

(** A native request that is JSON, with an asset that is [null]. *)
Definition null_asset : value :=
  VObj [("imp",
         VArr [VObj [("native",
                      VObj [("request",
                             VStr ("{" ++ quoted "ver" ++ ":1," ++ quoted "assets"
                                       ++ ":[null]}"))])]])].

Lemma validateNative_returns_witness :
  exists l,
    (forall s, validateNative null_asset s = (Ok tt, extend l s))
    /\ reports error "Native-N-006" "BidRequest.imp[0].native.request"
         (report (validateNative null_asset)) = true.
Proof.
  destruct (validateNative_returns null_asset
              [VObj [("native",
                      VObj [("request",
                             VStr ("{" ++ quoted "ver" ++ ":1," ++ quoted "assets"
                                       ++ ":[null]}"))])]]
              eq_refl ltac:(repeat constructor)) as [l Hl].
  exists l. split; [exact Hl | vm_compute; reflexivity].
Defined.

(** * The detected characteristics *)

(** ** Media formats *)

(** A number equal to zero is one of the two zeros, which compare
    alike with every number. *)
Lemma zero_compares_alike (x y : float) :
  PrimFloat.eqb x 0 = true -> PrimFloat.eqb x y = PrimFloat.eqb 0 y /\ is_nan x = false.
Proof.
  intro H. unfold is_nan. rewrite !eqb_spec in *.
  change (Prim2SF 0) with (S754_zero false) in *.
  destruct (Prim2SF x) as [s | s | | s m e]; try discriminate;
    try (destruct s; discriminate).
  split; [| reflexivity]. now destruct (Prim2SF y).
Qed.

Lemma sameValueZero_set_key x y : sameValueZero (set_key x) y = sameValueZero x y.
Proof.
  destruct x as [| | b | f | s | l | ps | n]; try reflexivity. simpl.
  destruct (PrimFloat.eqb f 0) eqn:E; [| reflexivity].
  destruct y as [| | b | g | s | l | ps | n]; try reflexivity. simpl.
  destruct (zero_compares_alike f g E) as [-> ->]. reflexivity.
Qed.

Lemma existsb_set_key x seen :
  existsb (fun y => sameValueZero (set_key x) y) seen
  = existsb (fun y => sameValueZero x y) seen.
Proof.
  induction seen as [| y seen IH]; simpl; [reflexivity |].
  now rewrite sameValueZero_set_key, IH.
Qed.

Lemma dedupe_fresh l : forall seen z,
  In z (dedupe l seen) -> existsb (fun y => sameValueZero z y) seen = false.
Proof.
  induction l as [| x r IH]; intros seen z Hz; simpl in Hz; [contradiction |].
  destruct (existsb (fun y => sameValueZero x y) seen) eqn:E.
  - now apply IH.
  - destruct Hz as [<- | Hz].
    + now rewrite existsb_set_key.
    + apply IH in Hz. simpl in Hz. now apply orb_false_iff in Hz.
Qed.

Lemma dedupe_distinct l : forall seen,
  ForallOrdPairs (fun x y => sameValueZero y x = false) (dedupe l seen).
Proof.
  induction l as [| x r IH]; intro seen; simpl; [constructor |].
  destruct (existsb (fun y => sameValueZero x y) seen); [apply IH |].
  constructor; [| apply IH].
  apply Forall_forall. intros z Hz. apply dedupe_fresh in Hz. simpl in Hz.
  now apply orb_false_iff in Hz.
Qed.

(** What the set yields are the values handed to it, as it stores
    them. *)
Lemma dedupe_incl l : forall seen z, In z (dedupe l seen) -> exists x, In x l /\ z = set_key x.
Proof.
  induction l as [| x r IH]; intros seen z Hz; simpl in Hz; [contradiction |].
  destruct (existsb (fun y => sameValueZero x y) seen).
  - destruct (IH _ _ Hz) as (x' & Hx & E). exists x'; split; [now right | exact E].
  - destruct Hz as [<- | Hz]; [exists x; split; [now left | reflexivity] |].
    destruct (IH _ _ Hz) as (x' & Hx & E). exists x'; split; [now right | exact E].
Qed.

(** X18.  The media formats of a result hold no value twice: an entry
    never equals (SameValueZero) one before it. *)
Theorem mediaFormats_are_distinct :
  forall (bidRequest : value) (c : DetectedCharacteristics) (formats : list value),
    detectBidRequestCharacteristics bidRequest = Ok c ->
    mediaFormats c = Some formats ->
    ForallOrdPairs (fun x y => sameValueZero y x = false) formats.
Proof.
  intros br c formats H Hf. unfold detectBidRequestCharacteristics in H.
  destruct (detect_formats br) as [fm |] eqn:Ef; simpl in H; [| discriminate].
  destruct (detect_platform br); simpl in H; [| discriminate].
  destruct (detect_device br); simpl in H; [| discriminate].
  destruct (detect_privacy br); simpl in H; [| discriminate].
  destruct (detect_pod br); simpl in H; [| discriminate].
  injection H as <-. simpl in Hf. subst.
  unfold detect_formats in Ef.
  destruct (T (br # "imp") &&& isArr (br # "imp")) as [[|] |]; simpl in Ef; try discriminate.
  - apply rbind_Ok in Ef as (l & _ & Ef). apply rbind_Ok in Ef as (a' & _ & Ef).
    injection Ef as <-. simpl in Hf. injection Hf as <-. apply dedupe_distinct.
  - injection Ef as <-. discriminate.
Qed.

(** The request [{"imp":[{"video":{"mimes":["video/mp4","video/webm"]}},
    {"video":{"mimes":["video/mp4"]}}]}]. *)
Definition shared_mime : value :=
  VObj [("imp",
         VArr [VObj [("video", VObj [("mimes", VArr [VStr "video/mp4"; VStr "video/webm"])])];
               VObj [("video", VObj [("mimes", VArr [VStr "video/mp4"])])]])].

Lemma mediaFormats_are_distinct_witness :
  exists c,
    detectBidRequestCharacteristics shared_mime = Ok c
    /\ mediaFormats c = Some [VStr "video/mp4"; VStr "video/webm"]
    /\ primaryType c = "Video, Video"
    /\ ForallOrdPairs (fun x y => sameValueZero y x = false)
         [VStr "video/mp4"; VStr "video/webm"].
Proof.
  eexists. split; [vm_compute; reflexivity |].
  split; [reflexivity |]. split; [reflexivity |].
  eapply (mediaFormats_are_distinct shared_mime); [vm_compute; reflexivity | reflexivity].
Defined.

(** ** Ad pods *)

Lemma filter_length f l t : filter f l = Ok t -> List.length t <= List.length l.
Proof.
  revert t; induction l as [| x r IH]; intros t H; simpl in H.
  - injection H as <-; simpl; lia.
  - apply rbind_Ok in H as (b & _ & H). apply rbind_Ok in H as (t' & Ht & H).
    injection H as <-. specialize (IH _ Ht). destruct b; simpl; lia.
Qed.

Lemma some_filter f l t : some f l = Ok true -> filter f l = Ok t -> 1 <= List.length t.
Proof.
  revert t; induction l as [| x r IH]; intros t Hs H; simpl in Hs, H; [discriminate |].
  apply rbind_Ok in H as (b & Hb & H). apply rbind_Ok in H as (t' & Ht & H).
  injection H as <-. rewrite Hb in Hs; simpl in Hs.
  destruct b; simpl; [lia | now apply IH].
Qed.

(** X19.  A result is flagged as an ad pod or not flagged at all, never
    flagged with [false]; when it is, the pod details are there and
    count at least one slot and at most one per impression. *)
Theorem ad_pod_has_slots :
  forall (bidRequest : value) (c : DetectedCharacteristics),
    detectBidRequestCharacteristics bidRequest = Ok c ->
    (isAdPod c = None /\ adPodDetails c = None)
    \/ (isAdPod c = Some true
        /\ exists d imps,
             adPodDetails c = Some d
             /\ val bidRequest # "imp" = Ok (VArr imps)
             /\ 1 <= slots d <= List.length imps).
Proof.
  intros br c H. unfold detectBidRequestCharacteristics in H.
  apply rbind_Ok in H as (fm & _ & H). apply rbind_Ok in H as (plat & _ & H).
  apply rbind_Ok in H as (info & _ & H). apply rbind_Ok in H as (signals & _ & H).
  apply rbind_Ok in H as (pod & Hp & H). injection H as <-. simpl.
  unfold detect_pod in Hp. apply rbind_Ok in Hp as (b & Hb & Hp).
  destruct b; [| injection Hp as <-; now left].
  right. apply rbind_Ok in Hp as (l & Hl & Hp). apply rbind_Ok in Hp as (withId & Hw & Hp).
  apply rbind_Ok in Hp as (l' & _ & Hp). apply rbind_Ok in Hp as (withDur & _ & Hp).
  apply rbind_Ok in Hp as (total & _ & Hp). injection Hp as <-. simpl.
  split; [reflexivity |].
  exists {| slots := List.length withId; totalDuration := total |}, l.
  split; [reflexivity |].
  unfold elems in Hl. apply rbind_Ok in Hl as (v & Hv & Hl).
  destruct v; try discriminate. injection Hl as ->.
  split; [exact Hv |]. simpl.
  unfold andR in Hb. apply rbind_Ok in Hb as (b1 & _ & Hb).
  destruct b1; [| discriminate].
  unfold elems in Hb. rewrite Hv in Hb. simpl in Hb.
  split; [eapply some_filter; eassumption | eapply filter_length; eassumption].
Qed.

(** The request [{"imp":[{"video":{"podid":"p","poddur":30}},{"banner":{}}]}]. *)
Definition one_pod_slot : value :=
  VObj [("imp", VArr [VObj [("video", VObj [("podid", VStr "p"); ("poddur", VNum 30)])];
                      VObj [("banner", VObj [])]])].

Lemma ad_pod_has_slots_witness :
  exists c,
    detectBidRequestCharacteristics one_pod_slot = Ok c
    /\ ((isAdPod c = None /\ adPodDetails c = None)
        \/ (isAdPod c = Some true
            /\ exists d imps,
                 adPodDetails c = Some d
                 /\ val one_pod_slot # "imp" = Ok (VArr imps)
                 /\ 1 <= slots d <= List.length imps)).
Proof.
  eexists. split; [vm_compute; reflexivity |].
  apply (ad_pod_has_slots one_pod_slot). vm_compute; reflexivity.
Defined.

(** * The page that calls the validator *)

(** [BidVerificator.tsx]: the state of the component, the handler of
    the Analyze button and the filter of the issue list.  A handler is
    a function from the state in which it is called to the state once
    its updates are applied, together with the toasts it shows. *)
Module Page.

Record Toast : Type := {
  title : string;
  description : string;
  variant : option string
}.

Record State : Type := {
  jsonInput : string;
  validationResult : option BidRequestValidationResult;
  isValidating : bool;
  selectedExample : string;
  issueFilter : string;
  highlightedPath : option string
}.

Definition count (sev : Severity) (l : list ValidationIssue) : nat :=
  List.length (List.filter (fun i => sev_eqb (severity i) sev) l).

Section Host.

Variable URL_parses : string -> bool.

(** [handleAnalyze]; the third component is the state the call leaves
    in the pattern objects of the validator. *)
Definition handleAnalyze (st : State) (heap : nat -> nat)
  : State * list Toast * (nat -> nat) :=
  if String.eqb (Str.trim (jsonInput st)) EmptyString then
    (st,
     [{| title := "No Input";
         description := "Please paste a bid request JSON or upload a file";
         variant := Some "destructive" |}],
     heap)
  else
    match validateBidRequest URL_parses (jsonInput st) heap with
    | (Ok result, heap') =>
        let errorCount := count error (issues result) in
        let warningCount := count warning (issues result) in
        ({| jsonInput := jsonInput st;
            validationResult := Some result;
            isValidating := false;
            selectedExample := selectedExample st;
            issueFilter := issueFilter st;
            highlightedPath := highlightedPath st |},
         [{| title := "Validation Complete";
             description := "Found " ++ Str.of_nat errorCount ++ " errors and "
                            ++ Str.of_nat warningCount ++ " warnings";
             variant := Some (if Nat.ltb 0 errorCount then "destructive" else "default") |}],
         heap')
    | (Throw _, heap') =>
        ({| jsonInput := jsonInput st;
            validationResult := validationResult st;
            isValidating := false;
            selectedExample := selectedExample st;
            issueFilter := issueFilter st;
            highlightedPath := highlightedPath st |},
         [{| title := "Validation Error";
             description := "Failed to validate bid request. Please check your JSON format.";
             variant := Some "destructive" |}],
         heap')
    end.

End Host.

(** [handleClear] *)
Definition handleClear (st : State) : State :=
  {| jsonInput := EmptyString;
     validationResult := None;
     isValidating := isValidating st;
     selectedExample := EmptyString;
     issueFilter := issueFilter st;
     highlightedPath := None |}.

(** [setIssueFilter], the setter the filter buttons call. *)
Definition setIssueFilter (f : string) (st : State) : State :=
  {| jsonInput := jsonInput st;
     validationResult := validationResult st;
     isValidating := isValidating st;
     selectedExample := selectedExample st;
     issueFilter := f;
     highlightedPath := highlightedPath st |}.

(** [getFilteredIssues] *)
Definition getFilteredIssues (st : State) : list ValidationIssue :=
  match validationResult st with
  | None => []
  | Some r =>
      if String.eqb (issueFilter st) "errors" then
        List.filter (fun i => sev_eqb (severity i) error) (issues r)
      else if String.eqb (issueFilter st) "warnings" then
        List.filter (fun i => sev_eqb (severity i) warning) (issues r)
      else if String.eqb (issueFilter st) "info" then
        List.filter (fun i => sev_eqb (severity i) info) (issues r)
      else issues r
  end.

End Page.



(** The page when it has just loaded, with [text] typed in. *)
Definition typed (text : string) : Page.State :=
  {| Page.jsonInput := text;
     Page.validationResult := None;
     Page.isValidating := false;
     Page.selectedExample := EmptyString;
     Page.issueFilter := "all";
     Page.highlightedPath := None |}.


(** X21.  For a result of the validator, the Errors view and the
    Warnings view of the issue list share out all its issues, the Info
    view is empty, and any other filter shows the whole list. *)
Theorem filtered_views_share_out_the_issues :
  forall (URL_parses : string -> bool) (jsonString : string) (heap heap' : nat -> nat)
         (r : BidRequestValidationResult) (st : Page.State),
    validateBidRequest URL_parses jsonString heap = (Ok r, heap') ->
    Page.validationResult st = Some r ->
    Page.getFilteredIssues (Page.setIssueFilter "info" st) = []
    /\ Page.getFilteredIssues (Page.setIssueFilter "all" st) = issues r
    /\ List.length (Page.getFilteredIssues (Page.setIssueFilter "errors" st))
       + List.length (Page.getFilteredIssues (Page.setIssueFilter "warnings" st))
       = List.length (issues r)
    /\ (forall i, In i (issues r) ->
          In i (Page.getFilteredIssues (Page.setIssueFilter "errors" st))
          \/ In i (Page.getFilteredIssues (Page.setIssueFilter "warnings" st))).
Proof.
  intros U text heap heap' r st Hv Hr.
  destruct (no_info_issue_counts U _ _ _ _ Hv) as [Hs Hc].
  unfold Page.getFilteredIssues, Page.setIssueFilter; simpl. rewrite Hr.
  split; [| split; [reflexivity | split; [exact Hc |]]].
  - clear Hc. induction (issues r) as [| x l IH]; [reflexivity |]. simpl.
    destruct (Hs x (or_introl eq_refl)) as [-> | ->]; simpl;
      apply IH; intros; apply Hs; now right.
  - intros i Hi. destruct (Hs i Hi) as [E | E].
    + left. apply filter_In. split; [exact Hi | now rewrite E].
    + right. apply filter_In. split; [exact Hi | now rewrite E].
Qed.

Lemma filtered_views_share_out_the_issues_witness :
  exists r,
    validateBidRequest lenient_host "{}" fresh_heap = (Ok r, fresh_heap)
    /\ Page.getFilteredIssues
         (Page.setIssueFilter "info"
            (fst (fst (Page.handleAnalyze lenient_host (typed "{}") fresh_heap)))) = []
    /\ List.length
         (Page.getFilteredIssues
            (Page.setIssueFilter "errors"
               (fst (fst (Page.handleAnalyze lenient_host (typed "{}") fresh_heap)))))
       + List.length
           (Page.getFilteredIssues
              (Page.setIssueFilter "warnings"
                 (fst (fst (Page.handleAnalyze lenient_host (typed "{}") fresh_heap)))))
       = List.length (issues r).
Proof.
  eexists. split; [vm_compute; reflexivity |].
  destruct (filtered_views_share_out_the_issues lenient_host "{}" fresh_heap fresh_heap _
              (fst (fst (Page.handleAnalyze lenient_host (typed "{}") fresh_heap)))
              ltac:(vm_compute; reflexivity) ltac:(vm_compute; reflexivity))
    as (H1 & _ & H3 & _).
  split; [exact H1 | exact H3].
Defined.

(** * Requests with missing members *)

Lemma F_member ps k : truthy (member ps k) = false -> F (val (VObj ps) # k) = Ok true.
Proof. intro H. rewrite dot_obj. unfold F, test, falsy; simpl. now rewrite H. Qed.

Lemma guard_safe {P} ps k (m : M unit) :
  truthy (member ps k) = false -> safe P (ifM (F (val (VObj ps) # k)) (ret tt) m).
Proof. intro H. rewrite (F_member _ _ H), ifM_Ok. apply safe_ret. Qed.

Lemma guard_or_safe {P} ps k c (m : M unit) :
  truthy (member ps k) = false -> safe P (ifM (F (val (VObj ps) # k) ||| c) (ret tt) m).
Proof. intro H. rewrite (F_member _ _ H). simpl orR. rewrite ifM_Ok. apply safe_ret. Qed.

Lemma qdot_ok v k : exists x, Ok v #? k = Ok x.
Proof.
  unfold qdot, val; simpl. destruct (nullish v) eqn:E.
  - destruct v; try discriminate; eexists; reflexivity.
  - pose proof (dot_field v k E) as H. unfold dot, val in H; simpl in H.
    exists (field v k). destruct v; try discriminate; exact H.
Qed.

Lemma qdot2_ok v k1 k2 : exists x, Ok v #? k1 #? k2 = Ok x.
Proof. destruct (qdot_ok v k1) as [x ->]. apply qdot_ok. Qed.

Section Missing.

Variable URL_parses : string -> bool.
Variable ps : list (string * value).

Hypothesis no_imp : truthy (member ps "imp") = false.
Hypothesis no_device : truthy (member ps "device") = false.
Hypothesis no_source : truthy (member ps "source") = false.
Hypothesis no_eids : F (val (VObj ps) # "user" #? "eids") = Ok true.
Hypothesis plain_tmax : primitive (member ps "tmax") = true.

Lemma detect_returns : exists c, detectBidRequestCharacteristics (VObj ps) = Ok c.
Proof.
  unfold detectBidRequestCharacteristics.
  assert (E1 : detect_formats (VObj ps) = Ok ("Unknown", None)).
  { unfold detect_formats. rewrite dot_obj. unfold T, test, andR; simpl.
    now rewrite no_imp. }
  assert (E2 : exists p, detect_platform (VObj ps) = Ok p).
  { unfold detect_platform. rewrite !dot_obj. unfold T, test; simpl.
    destruct (truthy (member ps "app")); eexists; reflexivity. }
  assert (E3 : detect_device (VObj ps) = Ok None).
  { unfold detect_device. rewrite dot_obj. unfold T, test; simpl. now rewrite no_device. }
  assert (E4 : exists p, detect_privacy (VObj ps) = Ok p).
  { unfold detect_privacy. rewrite !dot_obj.
    destruct (qdot2_ok (member ps "regs") "ext" "gdpr") as [x1 ->].
    destruct (qdot2_ok (member ps "user") "ext" "consent") as [x2 ->].
    destruct (qdot2_ok (member ps "regs") "ext" "us_privacy") as [x3 ->].
    destruct (qdot_ok (member ps "regs") "gpp") as [x4 ->].
    eexists; reflexivity. }
  assert (E5 : detect_pod (VObj ps) = Ok (None, None)).
  { unfold detect_pod. rewrite dot_obj. unfold T, test, andR; simpl.
    now rewrite no_imp. }
  destruct E2 as [p2 E2], E4 as [p4 E4]. rewrite E1, E2, E3, E4, E5. simpl.
  eexists; reflexivity.
Qed.

Lemma validateAdvanced_missing : safe any (validateAdvanced (VObj ps)).
Proof.
  unfold validateAdvanced.
  apply safe_lift. eexists; split; [reflexivity |].
  apply safe_seq.
  { destruct (fresh_match_all _ _); [| apply safe_ret].
    apply safe_when; [eexists; reflexivity | intros _].
    apply safe_emit; [eexists; reflexivity | intro; exact I]. }
  apply safe_seq; [solve_safe |].
  apply safe_seq; [solve_safe |].
  unfold T. unfold F in no_eids.
  destruct (val (VObj ps) # "user" #? "eids") as [eids |]; [| discriminate].
  simpl in no_eids. injection no_eids as Hn. unfold test; simpl rbind.
  unfold falsy in Hn. destruct (truthy eids); [discriminate |].
  unfold when. rewrite ifM_Ok. apply safe_ret.
Qed.

Lemma run_validators_missing : safe any (run_validators URL_parses (VObj ps)).
Proof.
  unfold run_validators.
  apply safe_seq; [apply (validateCoreBidRequest_safe _ (member ps "tmax"));
                   [apply dot_obj | exact plain_tmax] |].
  apply safe_seq; [unfold validateImpressions; now apply guard_or_safe |].
  apply safe_seq; [now apply validateApp_safe |].
  apply safe_seq; [now apply validateSite_safe |].
  apply safe_seq; [unfold validateDevice; now apply guard_safe |].
  apply safe_seq; [eapply safe_any_of; now apply validateUser_safe |].
  apply safe_seq; [now apply validateRegs_safe |].
  apply safe_seq; [unfold validateSource; now apply guard_safe |].
  apply safe_seq; [unfold validateVideo; now apply guard_safe |].
  apply safe_seq; [unfold validateNative; now apply guard_safe |].
  apply safe_seq; [unfold validateBanner; now apply guard_safe |].
  apply safe_seq; [unfold validateCTV; now apply guard_or_safe |].
  apply safe_seq; [unfold validateDOOH; now apply guard_or_safe |].
  apply safe_seq; [apply validateAdvanced_missing |].
  now apply validateEquativRules_safe.
Qed.

End Missing.

(** X22.  Every request that is a JSON object without [imp], [device],
    [source] and [user.eids], and whose [tmax] is absent or a
    primitive, gets a result: missing members never make the call
    raise. *)
Theorem missing_members_never_raise :
  forall (URL_parses : string -> bool) (jsonString : string)
         (ps : list (string * value)) (heap : nat -> nat),
    Json.parse jsonString = Ok (VObj ps) ->
    truthy (member ps "imp") = false ->
    truthy (member ps "device") = false ->
    truthy (member ps "source") = false ->
    F (val (VObj ps) # "user" #? "eids") = Ok true ->
    primitive (member ps "tmax") = true ->
    exists r, validateBidRequest URL_parses jsonString heap = (Ok r, heap).
Proof.
  intros U text ps heap Hp H1 H2 H3 H4 H5. unfold validateBidRequest. rewrite Hp.
  destruct (detect_returns ps H1 H2) as [c ->].
  destruct (run_validators_missing U ps H1 H2 H3 H4 H5) as ([] & l & _ & Hr).
  rewrite Hr. simpl. eexists; reflexivity.
Qed.

(** The text [{"id":"r1","at":1,"tmax":100,"site":{"page":"p"},"user":{"id":7},
    "regs":{"ext":5},"ext":null}]. *)
Definition sparse_request : string :=
  "{" ++ quoted "id" ++ ":" ++ quoted "r1" ++ "," ++ quoted "at" ++ ":1,"
      ++ quoted "tmax" ++ ":100," ++ quoted "site" ++ ":{" ++ quoted "page" ++ ":"
      ++ quoted "p" ++ "}," ++ quoted "user" ++ ":{" ++ quoted "id" ++ ":7},"
      ++ quoted "regs" ++ ":{" ++ quoted "ext" ++ ":5}," ++ quoted "ext" ++ ":null}".

Lemma missing_members_never_raise_witness :
  exists r, validateBidRequest lenient_host sparse_request fresh_heap = (Ok r, fresh_heap).
Proof.
  apply (missing_members_never_raise lenient_host sparse_request
           [("id", VStr "r1"); ("at", VNum 1); ("tmax", VNum 100);
            ("site", VObj [("page", VStr "p")]); ("user", VObj [("id", VNum 7)]);
            ("regs", VObj [("ext", VNum 5)]); ("ext", VNull)]);
    vm_compute; reflexivity.
Defined.

(** * The ids of the impressions *)

(** [finds i a L m]: [m] returns [a], and among the issues it pushes
    those with the id [i] are [L]. *)
Definition finds {A : Type} (i : string) (a : A) (L : list ValidationIssue) (m : M A)
  : Prop :=
  exists l : list ValidationIssue,
    with_id i l = L /\ forall s, m s = (Ok a, extend l s).

Lemma finds_ret {A} i (a : A) : finds i a [] (ret a).
Proof. exists []; split; [reflexivity | intro s; now rewrite extend_nil]. Qed.

Lemma finds_bind {A B} i (x : A) (a : B) L1 L2 (m : M A) (k : A -> M B) :
  finds i x L1 m -> finds i a L2 (k x) -> finds i a (L1 ++ L2)%list (bind m k).
Proof.
  intros (l1 & E1 & H1) (l2 & E2 & H2). exists (l1 ++ l2)%list. split.
  - now rewrite with_id_app, E1, E2.
  - intro s; unfold bind; now rewrite H1, H2, extend_app.
Qed.

Lemma finds_skip {A} i (a : A) L (m : M unit) (k : M A) :
  safe (other_id i) m -> finds i a L k -> finds i a L (seq m k).
Proof.
  intros (u & l & Hl & Hm) Hk.
  apply (finds_bind i u a [] L m (fun _ => k)); [| exact Hk].
  exists l; split; [now apply with_id_none | now destruct u].
Qed.

Lemma safe_when_false {P} (m : M unit) : safe P (when (Ok false) m).
Proof. unfold when. rewrite ifM_Ok. apply safe_ret. Qed.

(** The issue of the second impression that bears an id. *)
Definition duplicate_id (index : nat) (i : value) : ValidationIssue :=
  {| id := "Core-Imp-001b";
     severity := error;
     fieldPath := ("BidRequest.imp[" ++ Str.of_nat index ++ "]") ++ ".id";
     message := "Impression id must be unique within the request";
     actualValue := Some i;
     expectedValue := Some "Unique string";
     specReference := None |}.

(** The id of an impression, when it is a string that is not empty. *)
Definition string_id (imp : value) : option string :=
  match field imp "id" with
  | VStr s => if String.eqb s EmptyString then None else Some s
  | _ => None
  end.

Lemma finds_then {A B} i (x : A) L (m : M A) (k : A -> M B) (g : A -> B) :
  finds i x L m -> (forall y, finds i (g y) [] (k y)) -> finds i (g x) L (bind m k).
Proof.
  intros Hm Hk. rewrite <- (app_nil_r L). eapply finds_bind; [exact Hm | apply Hk].
Qed.

Lemma validateImpression_ids (impIds : list string) (imp : value) (index : nat) :
  nullish imp = false -> truthy (field imp "video") = false ->
  match string_id imp with
  | Some s =>
      if mem s impIds
      then finds "Core-Imp-001b" impIds [duplicate_id index (VStr s)]
             (validateImpression impIds imp index)
      else finds "Core-Imp-001b" (impIds ++ [s])%list [] (validateImpression impIds imp index)
  | None => finds "Core-Imp-001b" impIds [] (validateImpression impIds imp index)
  end.
Proof.
  intros Hn Hv. unfold validateImpression. cbv zeta.
  rewrite !(dot_field imp "video" Hn), !(dot_field imp "id" Hn),
          (dot_field imp "native" Hn), (dot_field imp "banner" Hn).
  unfold string_id.
  assert (Tv : T (Ok (field imp "video")) = Ok false).
  { unfold T, test; simpl. now rewrite Hv. }
  rewrite !Tv. simpl andR. rewrite !bind_lift_Ok.
  assert (Tail : forall y : list string,
             finds "Core-Imp-001b" y []
               (hasNative <- lift (T (Ok (field imp "native"))) ;;
                hasBanner <- lift (T (Ok (field imp "banner"))) ;;
                (if Nat.eqb (List.length (List.filter (fun b : bool => b)
                                            [false; hasNative; hasBanner])) 0
                 then
                   emit "Core-Imp-002" error ("BidRequest.imp[" ++ Str.of_nat index ++ "]")
                     "Each impression must contain either video, native, or banner object"
                     None (Some "One of: video, native, or banner")
                 else
                   when (Ok (Nat.ltb 1 (List.length (List.filter (fun b : bool => b)
                                                       [false; hasNative; hasBanner]))))
                     (emit "Core-Imp-003" error ("BidRequest.imp[" ++ Str.of_nat index ++ "]")
                        "Each impression must contain only one of video, native, or banner"
                        (Some (val (VStr "Multiple media types present")))
                        (Some "Only one of: video, native, or banner"))) ;;
                when (notU (imp # "bidfloor"))
                  (when (typeIsNot (imp # "bidfloor") "number" ||| ltR (imp # "bidfloor") (VNum 0))
                     (emit "Core-Imp-004" warning
                        (("BidRequest.imp[" ++ Str.of_nat index ++ "]") ++ ".bidfloor")
                        "bidfloor must be a non-negative number"
                        (Some (imp # "bidfloor")) (Some "Non-negative number")) ;;
                   when (F (imp # "bidfloorcur"))
                     (emit "Core-Imp-005" error
                        (("BidRequest.imp[" ++ Str.of_nat index ++ "]") ++ ".bidfloorcur")
                        "bidfloorcur must be present when bidfloor is specified"
                        None
                        (Some ("Currency code (e.g., " ++ Str.dq ++ "USD" ++ Str.dq ++ ")")))) ;;
                when (notU (imp # "secure") &&& neN (imp # "secure") 0 &&& neN (imp # "secure") 1)
                  (emit "Core-Imp-006" error
                     (("BidRequest.imp[" ++ Str.of_nat index ++ "]") ++ ".secure")
                     "secure must be 0 or 1"
                     (Some (imp # "secure")) (Some "0 or 1")) ;;
                ret y)).
  { intro y. unfold T, test; simpl rbind. rewrite !bind_lift_Ok.
    destruct (truthy (field imp "native")), (truthy (field imp "banner"));
      cbn [List.filter List.length Nat.eqb Nat.ltb Nat.leb];
      repeat (apply finds_skip; [solve_safe |]); apply finds_ret. }
  assert (Head : forall (a : list string) L (m : M (list string)),
             finds "Core-Imp-001b" a L m ->
             finds "Core-Imp-001b" a L
               (when (notU (imp # "secure") &&& neN (imp # "secure") 0 &&& neN (imp # "secure") 1)
                  (emit "EQ-Imp-036" error
                     (("BidRequest.imp[" ++ Str.of_nat index ++ "]") ++ ".secure")
                     "imp.secure must be either 0 or 1"
                     (Some (imp # "secure")) (Some "0 or 1")) ;;
                when (Ok false) (validateVideoImpressionRules (field imp "video") index) ;;
                when (Ok false)
                  (emit "EQ-Imp-048" warning
                     (("BidRequest.imp[" ++ Str.of_nat index ++ "]") ++ ".ext.wopv")
                     "imp.ext.wopv is recommended for video impressions" None
                     (Some "WOPV (Won on Programmatic Video) flag")) ;;
                m)).
  { intros a L m Hm.
    apply finds_skip; [solve_safe |].
    apply finds_skip; [apply safe_when_false |].
    apply finds_skip; [apply safe_when_false |]. exact Hm. }
  assert (Plain : F (Ok (field imp "id")) ||| typeIsNot (Ok (field imp "id")) "string" = Ok true ->
            finds "Core-Imp-001b" impIds []
              (ifM (F (Ok (field imp "id")) ||| typeIsNot (Ok (field imp "id")) "string")
                 (emit "Core-Imp-001" error
                    (("BidRequest.imp[" ++ Str.of_nat index ++ "]") ++ ".id")
                    "Each impression must contain a unique id (string)"
                    (Some (Ok (field imp "id"))) (Some "Non-empty string") ;;
                  ret impIds)
                 (i <- lift (rbind (Ok (field imp "id")) toString) ;;
                  (if mem i impIds
                   then
                     emit "Core-Imp-001b" error
                       (("BidRequest.imp[" ++ Str.of_nat index ++ "]") ++ ".id")
                       "Impression id must be unique within the request"
                       (Some (Ok (field imp "id"))) (Some "Unique string") ;;
                     ret impIds
                   else ret (impIds ++ [i])%list)))).
  { intros ->. rewrite ifM_Ok. apply finds_skip; [solve_safe | apply finds_ret]. }
  destruct (field imp "id") as [| | b | x | s | l | ps | n] eqn:Ei.
  1-4, 6-8: apply Head; apply (finds_then _ _ _ _ _ (fun y => y)); [| exact Tail];
    apply Plain; unfold F, typeIsNot, typeIs, test, orR, notR; simpl;
    try reflexivity; try (destruct (falsy _); reflexivity).
  destruct (String.eqb s EmptyString) eqn:Es.
  - apply Head; apply (finds_then _ _ _ _ _ (fun y => y)); [| exact Tail].
    apply Plain. apply String.eqb_eq in Es. subst s. reflexivity.
  - assert (C : F (Ok (VStr s)) ||| typeIsNot (Ok (VStr s)) "string" = Ok false).
    { unfold F, typeIsNot, typeIs, test, orR, notR, falsy; simpl.
      destruct s; [discriminate | reflexivity]. }
    destruct (mem s impIds) eqn:Em; apply Head;
      apply (finds_then _ _ _ _ _ (fun y => y)); try exact Tail;
      rewrite C, ifM_Ok; simpl rbind; rewrite bind_lift_Ok, Em.
    + exists [duplicate_id index (VStr s)]. split; reflexivity.
    + apply finds_ret.
Qed.

(** The ids of the impressions that are strings, in the order of the
    impressions. *)
Definition string_ids (imps : list value) : list string :=
  flat_map (fun imp => match string_id imp with Some s => [s] | None => [] end) imps.

(** An impression that is an object (or any value with members) and
    holds no video. *)
Definition plain_impression (imp : value) : Prop :=
  nullish imp = false /\ truthy (field imp "video") = false.

Lemma mem_In s l : mem s l = true <-> In s l.
Proof.
  unfold mem. rewrite existsb_exists. split.
  - intros (x & Hx & E). apply String.eqb_eq in E. now subst.
  - intro H. exists s. split; [exact H | apply String.eqb_refl].
Qed.

Lemma mem_not_In s l : mem s l = false <-> ~ In s l.
Proof.
  rewrite <- mem_In. destruct (mem s l).
  - split; [discriminate | intro H; exfalso; now apply H].
  - split; [intros _ H; discriminate | reflexivity].
Qed.

Lemma validateImpressions_from_ids imps : forall index impIds,
  Forall plain_impression imps ->
  exists l,
    (forall s, validateImpressions_from imps index impIds s = (Ok tt, extend l s))
    /\ (with_id "Core-Imp-001b" l = []
        <-> NoDup (string_ids imps) /\ forall x, In x (string_ids imps) -> ~ In x impIds).
Proof.
  induction imps as [| imp r IH]; intros index impIds Hp.
  - exists []. split; [intro s; simpl; now rewrite extend_nil |].
    simpl. split; [intros _; split; [constructor | intros x []] | reflexivity].
  - inversion_clear Hp as [| ? ? [Hn Hv] Hr].
    pose proof (validateImpression_ids impIds imp index Hn Hv) as Hc.
    unfold string_ids; simpl flat_map; fold (string_ids r).
    destruct (string_id imp) as [sid |].
    + destruct (mem sid impIds) eqn:Em.
      * destruct Hc as (l1 & E1 & H1).
        destruct (IH (S index) impIds Hr) as (l2 & H2 & _).
        exists (l1 ++ l2)%list. split.
        { intro s. simpl. unfold bind. now rewrite H1, H2, extend_app. }
        rewrite with_id_app, E1. simpl. split; [discriminate |].
        intros [_ Hd]. apply mem_In in Em. exfalso. apply (Hd sid); [now left | exact Em].
      * destruct Hc as (l1 & E1 & H1).
        destruct (IH (S index) (impIds ++ [sid])%list Hr) as (l2 & H2 & I2).
        exists (l1 ++ l2)%list. split.
        { intro s. simpl. unfold bind. now rewrite H1, H2, extend_app. }
        rewrite with_id_app, E1. simpl. rewrite I2. apply mem_not_In in Em.
        split.
        { intros [Hnd Hd]. split.
          - constructor; [| exact Hnd].
            intro Hx. apply (Hd sid Hx). apply in_or_app. right. now left.
          - intros y [<- | Hy]; [exact Em |].
            intro Hi. apply (Hd y Hy). apply in_or_app. now left. }
        { intros [Hnd Hd]. inversion_clear Hnd as [| ? ? Hx Hnd']. split; [exact Hnd' |].
          intros y Hy Hi. apply in_app_or in Hi as [Hi | [<- | []]].
          - apply (Hd y); [now right | exact Hi].
          - contradiction. }
    + destruct Hc as (l1 & E1 & H1).
      destruct (IH (S index) impIds Hr) as (l2 & H2 & I2).
      exists (l1 ++ l2)%list. split.
      { intro s. simpl. unfold bind. now rewrite H1, H2, extend_app. }
      rewrite with_id_app, E1. simpl. exact I2.
Qed.

(** X23.  On impressions that hold no video, [validateImpressions]
    returns, and it reports a duplicate id ([Core-Imp-001b]) exactly
    when two impressions bear the same non-empty string as id. *)
Theorem duplicate_ids_are_reported :
  forall (bidRequest : value) (imps : list value),
    val bidRequest # "imp" = Ok (VArr imps) ->
    Forall plain_impression imps ->
    exists l,
      (forall s, validateImpressions bidRequest s = (Ok tt, extend l s))
      /\ (with_id "Core-Imp-001b" l = [] <-> NoDup (string_ids imps)).
Proof.
  intros br imps Hi Hp.
  destruct (validateImpressions_from_ids imps 0 [] Hp) as (l & Hl & I).
  exists l. split.
  - intro s. unfold validateImpressions. rewrite Hi.
    unfold F, isArr, notR, orR, test, elems; simpl. rewrite ifM_Ok, bind_lift_Ok. apply Hl.
  - rewrite I. split; [now intros [H _] | intro H; split; [exact H | now intros x _ []]].
Qed.

(** Two banners with the id [1] and one with the id [2]. *)
Definition repeated_id : value :=
  VObj [("imp", VArr [VObj [("id", VStr "1"); ("banner", VObj [])];
                      VObj [("id", VStr "2"); ("banner", VObj [])];
                      VObj [("id", VStr "1"); ("banner", VObj [])]])].

Lemma duplicate_ids_are_reported_witness :
  exists l,
    (forall s, validateImpressions repeated_id s = (Ok tt, extend l s))
    /\ (with_id "Core-Imp-001b" l = [] <-> NoDup ["1"; "2"; "1"])
    /\ with_id "Core-Imp-001b" (report (validateImpressions repeated_id))
       = [duplicate_id 2 (VStr "1")].
Proof.
  destruct (duplicate_ids_are_reported repeated_id
              [VObj [("id", VStr "1"); ("banner", VObj [])];
               VObj [("id", VStr "2"); ("banner", VObj [])];
               VObj [("id", VStr "1"); ("banner", VObj [])]]
              eq_refl ltac:(repeat constructor)) as (l & Hl & I).
  exists l. split; [exact Hl |]. split; [exact I | vm_compute; reflexivity].
Defined.
